(** * auth-modifier: a Caddy handler that rotates credentials

    A shallow embedding of the Go sources of the [auth_modifier] package
    (the handler [ServeHTTP], the counter update [updateIndex], the
    persistence pair [saveIndexes] / [loadIndexes], and [Provision] /
    [Cleanup]) together with the parts of the Go standard library that the
    handler's behaviour depends on ([strings.Split], [strings.TrimSpace],
    [strings.ToLower], [utf8.DecodeRuneInString], [encoding/json] on a
    [map[string]int], [http.Header]).

    Conventions.
    - A Go [string] is an arbitrary byte sequence: Rocq's [string], whose
      characters are the 256 values of [ascii].
    - A Go [int] is a 64-bit signed integer: a [Z] with the wrap-around of
      the addition written out ([wrap]).
    - A Go [map[string]int] is an [option (gmap string Z)]: [None] is the
      [nil] map, which reads like an empty map and panics when written.
    - The handler is modelled as one sequential run from entry to the call
      of the next handler; the mutex only matters for interleavings, which
      the model does not contain. *)

From Stdlib Require Import ZArith Ascii String List Lia.
From Stdlib Require Import DecimalString DecimalZ DecimalPos.
From stdpp Require Import base tactics option list gmap strings fin_maps sorting.

Local Open Scope Z_scope.

(** ** Bytes and strings *)

Module Bytes.

(** The numeric value of a byte, [0 <= code c < 256]. *)
Definition code (c : ascii) : Z := Z.of_N (N_of_ascii c).

Definition chr (z : Z) : ascii := ascii_of_N (Z.to_N z).

(** [len(s)] as a Go [int]. *)
Definition len (s : string) : Z := Z.of_nat (String.length s).

(** [s[:n]] and [s[n:]], for [n <= len(s)] (the callers check). *)
Fixpoint slice_to (n : nat) (s : string) : string :=
  match n, s with
  | S n', String c s' => String c (slice_to n' s')
  | _, _ => ""
  end.

Fixpoint slice_from (n : nat) (s : string) : string :=
  match n, s with
  | S n', String _ s' => slice_from n' s'
  | _, _ => s
  end.

(** [s[i]], [0] out of range (the callers stay in range). *)
Definition at_ (s : string) (i : nat) : Z :=
  match String.get i s with Some c => code c | None => 0 end.

End Bytes.
Import Bytes.

(** ** [unicode/utf8]: decoding and encoding of runes *)

Module Utf8.

Definition RuneError : Z := 0xFFFD.
Definition RuneSelf : Z := 0x80.
Definition MaxRune : Z := 0x10FFFF.

(** The table [first]: information about the first byte of an encoding.
    [0xF0] is an ASCII byte, [0xF1] an invalid first byte; otherwise the
    low three bits give the size and the high four bits the index of the
    accepted range of the second byte. *)
Definition first (b : Z) : Z :=
  if b <? 0x80 then 0xF0
  else if b <? 0xC2 then 0xF1
  else if b <? 0xE0 then 0x02
  else if b =? 0xE0 then 0x13
  else if b <? 0xED then 0x03
  else if b =? 0xED then 0x23
  else if b <? 0xF0 then 0x03
  else if b =? 0xF0 then 0x34
  else if b <? 0xF4 then 0x04
  else if b =? 0xF4 then 0x44
  else 0xF1.

Definition acceptRanges (i : Z) : Z * Z :=
  match i with
  | 0 => (0x80, 0xBF)
  | 1 => (0xA0, 0xBF)
  | 2 => (0x80, 0x9F)
  | 3 => (0x90, 0xBF)
  | 4 => (0x80, 0x8F)
  | _ => (0, 0)
  end.

(** [utf8.DecodeRuneInString]: the rune at the start of [s] and its width
    in bytes; [(RuneError, 0)] on the empty string and [(RuneError, 1)] on
    an invalid encoding. *)
Definition DecodeRuneInString (s : string) : Z * nat :=
  match s with
  | "" => (RuneError, 0%nat)
  | String c0 _ =>
      let s0 := code c0 in
      let x := first s0 in
      if 0xF0 <=? x then
        ((if Z.testbit x 0 then RuneError else s0), 1%nat)
      else
        let sz := Z.land x 7 in
        let '(lo, hi) := acceptRanges (Z.shiftr x 4) in
        if len s <? sz then (RuneError, 1%nat) else
        let s1 := at_ s 1 in
        if (s1 <? lo) || (hi <? s1) then (RuneError, 1%nat) else
        if sz <=? 2 then
          (Z.lor (Z.shiftl (Z.land s0 0x1F) 6) (Z.land s1 0x3F), 2%nat)
        else
        let s2 := at_ s 2 in
        if (s2 <? 0x80) || (0xBF <? s2) then (RuneError, 1%nat) else
        if sz <=? 3 then
          (Z.lor (Z.lor (Z.shiftl (Z.land s0 0x0F) 12)
                        (Z.shiftl (Z.land s1 0x3F) 6))
                 (Z.land s2 0x3F), 3%nat)
        else
        let s3 := at_ s 3 in
        if (s3 <? 0x80) || (0xBF <? s3) then (RuneError, 1%nat) else
        (Z.lor (Z.lor (Z.lor (Z.shiftl (Z.land s0 0x07) 18)
                             (Z.shiftl (Z.land s1 0x3F) 12))
                      (Z.shiftl (Z.land s2 0x3F) 6))
               (Z.land s3 0x3F), 4%nat)
  end.

(** [utf8.RuneStart]. *)
Definition RuneStart (b : Z) : bool := negb (Z.land b 0xC0 =? 0x80).

(** The loop of [DecodeLastRuneInString] that walks back to a start
    byte: [for start--; start >= lim; start-- { if RuneStart(s[start])
    { break } }], entered after the first decrement. *)
Fixpoint back_to_start (fuel : nat) (s : string) (lim start : Z) : Z :=
  match fuel with
  | O => start
  | S fuel' =>
      if start <? lim then start
      else if RuneStart (at_ s (Z.to_nat start)) then start
      else back_to_start fuel' s lim (start - 1)
  end.

(** [utf8.DecodeLastRuneInString]. *)
Definition DecodeLastRuneInString (s : string) : Z * nat :=
  let end_ := len s in
  if end_ =? 0 then (RuneError, 0%nat) else
  let start := end_ - 1 in
  let r := at_ s (Z.to_nat start) in
  if r <? RuneSelf then (r, 1%nat) else
  let lim := Z.max 0 (end_ - 4) in
  let start := back_to_start 4 s lim (start - 1) in
  let start := Z.max 0 start in
  let '(r, size) := DecodeRuneInString (slice_from (Z.to_nat start) s) in
  if start + Z.of_nat size =? end_ then (r, size) else (RuneError, 1%nat).

(** [utf8.AppendRune] on an empty buffer: the encoding of a rune; values
    out of range and surrogate halves are written as [RuneError]. *)
Definition enc3 (r : Z) : string :=
  String (chr (Z.lor 0xE0 (Z.shiftr r 12)))
    (String (chr (Z.lor 0x80 (Z.land (Z.shiftr r 6) 0x3F)))
       (String (chr (Z.lor 0x80 (Z.land r 0x3F))) "")).

Definition EncodeRune (r : Z) : string :=
  if (0 <=? r) && (r <=? 0x7F) then String (chr r) ""
  else if (0 <=? r) && (r <=? 0x7FF) then
    String (chr (Z.lor 0xC0 (Z.shiftr r 6)))
      (String (chr (Z.lor 0x80 (Z.land r 0x3F))) "")
  else if (r <? 0) || (MaxRune <? r) || ((0xD800 <=? r) && (r <=? 0xDFFF))
  then enc3 RuneError
  else if r <=? 0xFFFF then enc3 r
  else
    String (chr (Z.lor 0xF0 (Z.shiftr r 18)))
      (String (chr (Z.lor 0x80 (Z.land (Z.shiftr r 12) 0x3F)))
         (String (chr (Z.lor 0x80 (Z.land (Z.shiftr r 6) 0x3F)))
            (String (chr (Z.lor 0x80 (Z.land r 0x3F))) ""))).

(** [utf8.ValidString]: every position decodes to a rune, none to the
    error of width one. *)
Fixpoint valid_from (fuel : nat) (s : string) : bool :=
  match fuel with
  | O => match s with "" => true | _ => false end
  | S fuel' =>
      match s with
      | "" => true
      | _ =>
          let '(r, size) := DecodeRuneInString s in
          if (r =? RuneError) && (size =? 1)%nat then false
          else valid_from fuel' (slice_from size s)
      end
  end.

Definition ValidString (s : string) : bool := valid_from (String.length s) s.

End Utf8.

(** ** [unicode] and [strings] *)

Module Unicode.

(** [unicode.IsSpace]: the Latin-1 spaces and the code points with the
    White_Space property. *)
Definition IsSpace (r : Z) : bool :=
  if (0 <=? r) && (r <=? 0xFF) then
    ((0x09 <=? r) && (r <=? 0x0D)) || (r =? 0x20) || (r =? 0x85)
    || (r =? 0xA0)
  else
    (r =? 0x1680) || ((0x2000 <=? r) && (r <=? 0x200A))
    || (r =? 0x2028) || (r =? 0x2029) || (r =? 0x202F) || (r =? 0x205F)
    || (r =? 0x3000).

End Unicode.

Module Strings.
Import Utf8 Unicode.

(** The table [asciiSpace]: tab, line feed, vertical tab, form feed,
    carriage return and space. *)
Definition asciiSpace (b : Z) : bool :=
  ((0x09 <=? b) && (b <=? 0x0D)) || (b =? 0x20).

(** [strings.HasPrefix]. *)
Definition HasPrefix (s prefix : string) : bool := String.prefix prefix s.

(** [strings.ToLower], as far as [ServeHTTP] can observe it. On an
    all-ASCII string Go lowers the letters A..Z byte by byte, which is what
    this function does. On a string with a byte of [0x80] or more Go maps
    [unicode.ToLower] over the runes; the handler applies [ToLower] to a
    slice of exactly seven bytes and only tests whether the result starts
    with the seven ASCII bytes of "bearer ": seven bytes of which one is
    not ASCII hold either fewer than seven runes, or an invalid byte, which
    is mapped to U+FFFD and written as three non-ASCII bytes, so the test
    fails there in Go, as it does here, where such a byte is kept. *)
Definition lower_byte (c : ascii) : ascii :=
  if (0x41 <=? code c) && (code c <=? 0x5A) then chr (code c + 0x20) else c.

Fixpoint ToLower (s : string) : string :=
  match s with
  | "" => ""
  | String c s' => String (lower_byte c) (ToLower s')
  end.

(** [strings.Split(s, sep)] for a separator of one byte: the pieces of [s]
    between the occurrences of [sep], in order; [Count(s, sep) + 1] of
    them. *)
Fixpoint Split (s : string) (sep : ascii) : list string :=
  match s with
  | "" => [""]
  | String c s' =>
      if Ascii.eqb c sep then "" :: Split s' sep
      else match Split s' sep with
           | piece :: rest => String c piece :: rest
           | [] => [String c ""]
           end
  end.

(** [strings.Join(elems, sep)] (used to state properties of [Split]). *)
Fixpoint Join (elems : list string) (sep : string) : string :=
  match elems with
  | [] => ""
  | [e] => e
  | e :: rest => e +:+ sep +:+ Join rest sep
  end.

(** [indexFunc(s, f, truth)]: the byte index of the first rune [r] with
    [f r = truth], or [-1]; [for i, r := range s] decodes a rune at a
    time, an invalid byte counting as [RuneError] of width one. *)
Fixpoint indexFunc_from (fuel : nat) (s : string) (i : Z)
    (f : Z -> bool) (truth : bool) : Z :=
  match fuel with
  | O => -1
  | S fuel' =>
      match s with
      | "" => -1
      | _ =>
          let '(r, size) := DecodeRuneInString s in
          if Bool.eqb (f r) truth then i
          else indexFunc_from fuel' (slice_from size s) (i + Z.of_nat size)
                 f truth
      end
  end.

Definition indexFunc (s : string) (f : Z -> bool) (truth : bool) : Z :=
  indexFunc_from (String.length s) s 0 f truth.

(** [lastIndexFunc(s, f, truth)]: [for i := len(s); i > 0; { r, size :=
    DecodeLastRuneInString(s[0:i]); i -= size; if f(r) == truth { return i
    } }; return -1]. *)
Fixpoint lastIndexFunc_from (fuel : nat) (s : string) (i : Z)
    (f : Z -> bool) (truth : bool) : Z :=
  match fuel with
  | O => -1
  | S fuel' =>
      if 0 <? i then
        let '(r, size) := DecodeLastRuneInString (slice_to (Z.to_nat i) s) in
        let i := i - Z.of_nat size in
        if Bool.eqb (f r) truth then i
        else lastIndexFunc_from fuel' s i f truth
      else -1
  end.

Definition lastIndexFunc (s : string) (f : Z -> bool) (truth : bool) : Z :=
  lastIndexFunc_from (String.length s) s (len s) f truth.

(** [strings.TrimLeftFunc], [strings.TrimRightFunc], [strings.TrimFunc]. *)
Definition TrimLeftFunc (s : string) (f : Z -> bool) : string :=
  let i := indexFunc s f false in
  if i =? -1 then "" else slice_from (Z.to_nat i) s.

Definition TrimRightFunc (s : string) (f : Z -> bool) : string :=
  let i := lastIndexFunc s f false in
  let i :=
    if (0 <=? i) && (RuneSelf <=? at_ s (Z.to_nat i)) then
      let '(_, wid) := DecodeRuneInString (slice_from (Z.to_nat i) s) in
      i + Z.of_nat wid
    else i + 1 in
  slice_to (Z.to_nat i) s.

Definition TrimFunc (s : string) (f : Z -> bool) : string :=
  TrimRightFunc (TrimLeftFunc s f) f.

(** [strings.TrimSpace]. The second loop, from the end of what the first
    loop left: [for ; stop > start; stop--]. *)
Fixpoint TrimSpace_stop (s : string) (stop : nat) : string :=
  match stop with
  | O => ""
  | S stop' =>
      let c := at_ s stop' in
      if RuneSelf <=? c then TrimRightFunc (slice_to stop s) IsSpace
      else if asciiSpace c then TrimSpace_stop s stop'
      else slice_to stop s
  end.

(** The first loop, from the start: a byte that is not ASCII hands the
    rest over to [TrimFunc]. *)
Fixpoint TrimSpace (s : string) : string :=
  match s with
  | "" => ""
  | String c s' =>
      if RuneSelf <=? code c then TrimFunc s IsSpace
      else if asciiSpace (code c) then TrimSpace s'
      else TrimSpace_stop s (String.length s)
  end.

End Strings.

Import Utf8 Unicode Strings.

(** ** Go integers *)

Module Int.

Definition MaxInt : Z := 2 ^ 63 - 1.
Definition MinInt : Z := - 2 ^ 63.

(** The values of the type [int]. *)
Definition is_int (z : Z) : Prop := MinInt <= z <= MaxInt.

(** Reduction of a mathematical result to the 64 bits of an [int]. *)
Definition wrap (z : Z) : Z := (z + 2 ^ 63) mod 2 ^ 64 - 2 ^ 63.

(** [x + y] on [int]. *)
Definition add (x y : Z) : Z := wrap (x + y).

End Int.

(** Errors, as far as the package tells them apart: [os.IsNotExist] is the
    only test it makes. *)
Inductive error :=
  | ErrNotExist
  | ErrFileSystem
  | ErrJSON.

Definition IsNotExist (e : error) : bool :=
  match e with ErrNotExist => true | _ => false end.

(** ** [encoding/json] on a [map[string]int] *)

Module Json.

Definition quote : ascii := chr 0x22.
Definition backslash : ascii := chr 0x5C.

Definition hexdigit (n : Z) : ascii :=
  if n <? 10 then chr (0x30 + n) else chr (0x61 + (n - 10)).

(** The table [htmlSafeSet]: the ASCII bytes written as they are; all of
    them from the space on, but for the double quote, the backslash and
    the characters [&], [<] and [>]. *)
Definition htmlSafeSet (b : Z) : bool :=
  (0x20 <=? b) && (b <? 0x80)
  && negb ((b =? 0x22) || (b =? 0x5C) || (b =? 0x26) || (b =? 0x3C)
           || (b =? 0x3E)).

(** The [switch] of [appendString] over an ASCII byte that is not safe. *)
Definition escape_byte (c : ascii) : string :=
  let b := code c in
  if (b =? 0x5C) || (b =? 0x22) then String backslash (String c "")
  else if b =? 0x08 then String backslash "b"
  else if b =? 0x0C then String backslash "f"
  else if b =? 0x0A then String backslash "n"
  else if b =? 0x0D then String backslash "r"
  else if b =? 0x09 then String backslash "t"
  else String backslash "u00"
         +:+ String (hexdigit (Z.shiftr b 4))
               (String (hexdigit (Z.land b 0xF)) "").

(** The loop of [appendString(dst, src, escapeHTML = true)]: an invalid
    byte is written as the escape of U+FFFD, the separators U+2028 and
    U+2029 are escaped, every other rune is copied. *)
Fixpoint appendString_from (fuel : nat) (src : string) : string :=
  match fuel with
  | O => ""
  | S fuel' =>
      match src with
      | "" => ""
      | String c rest =>
          if code c <? RuneSelf then
            if htmlSafeSet (code c)
            then String c (appendString_from fuel' rest)
            else escape_byte c +:+ appendString_from fuel' rest
          else
            let '(r, size) := DecodeRuneInString src in
            if (r =? RuneError) && (size =? 1)%nat then
              String backslash "ufffd"
                +:+ appendString_from fuel' (slice_from size src)
            else if (r =? 0x2028) || (r =? 0x2029) then
              String backslash "u202"
                +:+ String (hexdigit (Z.land r 0xF)) ""
                +:+ appendString_from fuel' (slice_from size src)
            else
              slice_to size src
                +:+ appendString_from fuel' (slice_from size src)
      end
  end.

Definition appendString (src : string) : string :=
  String quote (appendString_from (String.length src) src)
    +:+ String quote "".

(** [strconv.AppendInt(b, v, 10)]. *)
Definition FormatInt (v : Z) : string :=
  NilZero.string_of_int (Z.to_int v).

(** The order in which [mapEncoder.encode] writes the entries: by key,
    compared byte by byte. *)
Definition key_le (x y : string * Z) : Prop := String.le x.1 y.1.

#[global] Instance key_le_dec : RelDecision key_le.
Proof. intros x y. unfold key_le. apply _. Defined.

Definition encode_entry (kv : string * Z) : string :=
  appendString kv.1 +:+ ":" +:+ FormatInt kv.2.

(** [json.Marshal(v)] for [v : map[string]int]. It cannot fail on this
    type; the result keeps the shape of the Go function. *)
Definition Marshal (v : option (gmap string Z)) : string + error :=
  match v with
  | None => inl "null"
  | Some m =>
      inl ("{"
           +:+ Join (encode_entry <$> merge_sort key_le (map_to_list m)) ","
           +:+ "}")
  end.

(** *** Decoding *)

(** The scanner's [isSpace]. *)
Definition isSpace (b : Z) : bool :=
  (b =? 0x20) || (b =? 0x09) || (b =? 0x0D) || (b =? 0x0A).

Fixpoint skip_space (s : string) : string :=
  match s with
  | "" => ""
  | String c s' => if isSpace (code c) then skip_space s' else s
  end.

Definition is_hex (b : Z) : bool :=
  ((0x30 <=? b) && (b <=? 0x39)) || ((0x61 <=? b) && (b <=? 0x66))
  || ((0x41 <=? b) && (b <=? 0x46)).

(** The scanner's states inside a string literal: [stateInString],
    [stateInStringEsc] and [stateInStringEscU] with the number of
    hexadecimal digits read so far. *)
Inductive sstate :=
  | InString
  | InStringEsc
  | InStringEscU (seen : nat).

(** The scanner over a string literal, after its opening quote: the bytes
    up to the closing quote and the input after it, or [None] on a syntax
    error. *)
Fixpoint scan_string (st : sstate) (s : string) : option (string * string) :=
  match s with
  | "" => None
  | String c s' =>
      let b := code c in
      let continue st' :=
        match scan_string st' s' with
        | Some (lit, rest) => Some (String c lit, rest)
        | None => None
        end in
      match st with
      | InString =>
          if b =? 0x22 then Some ("", s')
          else if b =? 0x5C then continue InStringEsc
          else if b <? 0x20 then None
          else continue InString
      | InStringEsc =>
          if (b =? 0x62) || (b =? 0x66) || (b =? 0x6E) || (b =? 0x72)
             || (b =? 0x74) || (b =? 0x5C) || (b =? 0x2F) || (b =? 0x22)
          then continue InString
          else if b =? 0x75 then continue (InStringEscU 0)
          else None
      | InStringEscU seen =>
          if is_hex b then
            continue (if (seen <? 3)%nat then InStringEscU (S seen)
                      else InString)
          else None
      end
  end.

(** [getu4]: the value of the four hexadecimal digits of an escape
    [\uXXXX] at the start of [s], or [-1]. *)
Definition unhex (b : Z) : option Z :=
  if (0x30 <=? b) && (b <=? 0x39) then Some (b - 0x30)
  else if (0x61 <=? b) && (b <=? 0x66) then Some (b - 0x61 + 10)
  else if (0x41 <=? b) && (b <=? 0x46) then Some (b - 0x41 + 10)
  else None.

Definition getu4 (s : string) : Z :=
  match s with
  | String c0 (String c1 (String h1 (String h2 (String h3 (String h4 _))))) =>
      if (code c0 =? 0x5C) && (code c1 =? 0x75) then
        match unhex (code h1), unhex (code h2), unhex (code h3),
              unhex (code h4) with
        | Some d1, Some d2, Some d3, Some d4 =>
            ((d1 * 16 + d2) * 16 + d3) * 16 + d4
        | _, _, _, _ => -1
        end
      else -1
  | _ => -1
  end.

(** [utf16.IsSurrogate] and [utf16.DecodeRune]. *)
Definition IsSurrogate (r : Z) : bool := (0xD800 <=? r) && (r <? 0xE000).

Definition utf16_DecodeRune (r1 r2 : Z) : Z :=
  if (0xD800 <=? r1) && (r1 <? 0xDC00) && (0xDC00 <=? r2) && (r2 <? 0xE000)
  then Z.lor (Z.shiftl (r1 - 0xD800) 10) (r2 - 0xDC00) + 0x10000
  else RuneError.

(** The loop of [unquoteBytes] over the bytes between the quotes. (Go
    first skips the bytes that need no change, and copies them; the loop
    copies them one rune at a time, to the same effect.) *)
Fixpoint unquote_from (fuel : nat) (s : string) : option string :=
  match s with
  | "" => Some ""
  | String c s' =>
      match fuel with
      | O => None
      | S fuel' =>
          let b := code c in
          if b =? 0x5C then
            match s' with
            | "" => None
            | String e s'' =>
                let eb := code e in
                if (eb =? 0x22) || (eb =? 0x5C) || (eb =? 0x2F)
                   || (eb =? 0x27)
                then String e <$> unquote_from fuel' s''
                else if eb =? 0x62 then
                  String (chr 0x08) <$> unquote_from fuel' s''
                else if eb =? 0x66 then
                  String (chr 0x0C) <$> unquote_from fuel' s''
                else if eb =? 0x6E then
                  String (chr 0x0A) <$> unquote_from fuel' s''
                else if eb =? 0x72 then
                  String (chr 0x0D) <$> unquote_from fuel' s''
                else if eb =? 0x74 then
                  String (chr 0x09) <$> unquote_from fuel' s''
                else if eb =? 0x75 then
                  let rr := getu4 s in
                  if rr <? 0 then None else
                  let s6 := slice_from 6 s in
                  if IsSurrogate rr then
                    let dec := utf16_DecodeRune rr (getu4 s6) in
                    if negb (dec =? RuneError) then
                      String.app (EncodeRune dec)
                        <$> unquote_from fuel' (slice_from 6 s6)
                    else
                      String.app (EncodeRune RuneError)
                        <$> unquote_from fuel' s6
                  else String.app (EncodeRune rr) <$> unquote_from fuel' s6
                else None
            end
          else if (b =? 0x22) || (b <? 0x20) then None
          else if b <? RuneSelf then String c <$> unquote_from fuel' s'
          else
            let '(rr, size) := DecodeRuneInString s in
            String.app (EncodeRune rr)
              <$> unquote_from fuel' (slice_from size s)
      end
  end.

Definition unquote (lit : string) : option string :=
  unquote_from (String.length lit) lit.

(** The digits at the start of [s], and the rest. *)
Definition is_digit (b : Z) : bool := (0x30 <=? b) && (b <=? 0x39).

Fixpoint span_digits (s : string) : string * string :=
  match s with
  | "" => ("", "")
  | String c s' =>
      if is_digit (code c) then
        let '(ds, rest) := span_digits s' in (String c ds, rest)
      else ("", s)
  end.

(** A number that fits an [int]: an optional minus sign, and either a
    single [0] or digits that start with [1] to [9], as the scanner
    accepts them, with a value that [strconv.ParseInt(item, 10, 64)]
    accepts. A fraction or an exponent makes [ParseInt] fail; here they
    are left in the input, where no member can continue with them. *)
Definition scan_uint (s : string) : option (Z * string) :=
  let '(ds, rest) := span_digits s in
  match ds with
  | "" => None
  | String d ds' =>
      if (code d =? 0x30) && negb (String.eqb ds' "") then None
      else
        match NilEmpty.uint_of_string ds with
        | Some u => Some (Z.of_uint u, rest)
        | None => None
        end
  end.

Definition scan_int (s : string) : option (Z * string) :=
  match s with
  | "" => None
  | String c s' =>
      if code c =? 0x2D then
        match scan_uint s' with
        | Some (n, rest) =>
            if - n <? Int.MinInt then None else Some (- n, rest)
        | None => None
        end
      else
        match scan_uint s with
        | Some (n, rest) =>
            if Int.MaxInt <? n then None else Some (n, rest)
        | None => None
        end
  end.

(** The value of a member: a number as above, or [null], which stores the
    zero value. Every other JSON value is a type error for an [int]. *)
Definition scan_value (s : string) : option (Z * string) :=
  match s with
  | String c0 (String c1 (String c2 (String c3 rest))) =>
      if (code c0 =? 0x6E) && (code c1 =? 0x75) && (code c2 =? 0x6C)
         && (code c3 =? 0x6C)
      then Some (0, rest)
      else scan_int s
  | _ => scan_int s
  end.

(** The members of an object, from the opening quote of a key on; the
    entries are stored in the order of the input, a later one replacing an
    earlier one of the same key. *)
Fixpoint members (fuel : nat) (s : string) (m : gmap string Z)
    : option (gmap string Z * string) :=
  match fuel with
  | O => None
  | S fuel' =>
      match s with
      | "" => None
      | String q s1 =>
          if negb (code q =? 0x22) then None else
          match scan_string InString s1 with
          | None => None
          | Some (lit, s2) =>
              match unquote lit with
              | None => None
              | Some key =>
                  match skip_space s2 with
                  | "" => None
                  | String c s3 =>
                      if negb (code c =? 0x3A) then None else
                      match scan_value (skip_space s3) with
                      | None => None
                      | Some (v, s4) =>
                          let m' := <[key := v]> m in
                          match skip_space s4 with
                          | "" => None
                          | String d s5 =>
                              if code d =? 0x2C
                              then members fuel' (skip_space s5) m'
                              else if code d =? 0x7D then Some (m', s5)
                              else None
                          end
                      end
                  end
              end
          end
      end
  end.

(** After the value, only space may follow. *)
Definition finish (v : option (gmap string Z)) (rest : string)
    : option (gmap string Z) + error :=
  match skip_space rest with
  | "" => inl v
  | _ => inr ErrJSON
  end.

(** [json.Unmarshal(data, &v)] for [v : map[string]int], where [cur] is
    the value of [v] before the call. It succeeds on [null], which sets
    the map to [nil], and on an object whose values are numbers that fit
    an [int], or [null]: the entries are stored into the map that [v]
    holds, into a new one if that is [nil]. Every other input makes it
    return an error, be it a syntax error or a type error; the map it
    leaves behind in that case is not modelled, as the package replaces
    it. *)
Definition Unmarshal (data : string) (cur : option (gmap string Z))
    : option (gmap string Z) + error :=
  match skip_space data with
  | String c0 s1 =>
      if code c0 =? 0x7B then
        let m := default ∅ cur in
        match skip_space s1 with
        | "" => inr ErrJSON
        | String d s2 =>
            if code d =? 0x7D then finish (Some m) s2
            else
              match members (String.length s1) (skip_space s1) m with
              | Some (m', rest) => finish (Some m') rest
              | None => inr ErrJSON
              end
        end
      else
        match s1 with
        | String c1 (String c2 (String c3 rest)) =>
            if (code c0 =? 0x6E) && (code c1 =? 0x75) && (code c2 =? 0x6C)
               && (code c3 =? 0x6C)
            then finish None rest
            else inr ErrJSON
        | _ => inr ErrJSON
        end
  | "" => inr ErrJSON
  end.

End Json.

(** ** [net/http]: headers and requests *)

Module Http.

(** [http.Header] is a [map[string][]string]. The handler only uses the
    keys "Authorization" and "X-Goog-Api-Key", which are in canonical form
    already, so that [CanonicalMIMEHeaderKey] leaves them as they are. *)
Definition Header_Get (h : gmap string (list string)) (key : string)
    : string :=
  match h !! key with
  | Some (v :: _) => v
  | _ => ""
  end.

Definition Header_Set (h : gmap string (list string)) (key value : string)
    : gmap string (list string) :=
  <[key := [value]]> h.

(** The parts of [*http.Request] that the package reads: the decoded path
    [r.URL.Path], the whole URL [r.URL.String()] and the headers. *)
Record Request := {
  URL_Path : string;
  URL_String : string;
  Header : gmap string (list string);
}.

Definition set_header (r : Request) (key value : string) : Request :=
  {| URL_Path := URL_Path r; URL_String := URL_String r;
     Header := Header_Set (Header r) key value |}.

End Http.
Import Http.

(** ** The handler's state *)

(** What the package hands to its [zap] logger. *)
Inductive Level := DebugLevel | ErrorLevel.

Inductive Field :=
  | zap_String (key val : string)
  | zap_Error (err : error).

Record Entry := { level : Level; message : string; field : Field }.

(** The fields of [AuthModifier] that carry data. [logger] is the list of
    entries written so far, oldest first. The ticker and the context are
    part of the life cycle only ([Provision], [Cleanup]). *)
Record AuthModifier := {
  Indexes : option (gmap string Z);
  Changed : bool;
  IndexPath : string;
  logger : list Entry;
}.

Definition with_Indexes (a : AuthModifier) (m : option (gmap string Z))
    : AuthModifier :=
  {| Indexes := m; Changed := Changed a; IndexPath := IndexPath a;
     logger := logger a |}.

Definition with_Changed (a : AuthModifier) (b : bool) : AuthModifier :=
  {| Indexes := Indexes a; Changed := b; IndexPath := IndexPath a;
     logger := logger a |}.

Definition with_IndexPath (a : AuthModifier) (p : string) : AuthModifier :=
  {| Indexes := Indexes a; Changed := Changed a; IndexPath := p;
     logger := logger a |}.

Definition with_log (a : AuthModifier) (e : Entry) : AuthModifier :=
  {| Indexes := Indexes a; Changed := Changed a; IndexPath := IndexPath a;
     logger := logger a ++ [e] |}.

(** [m[key]] on a [map[string]int]: the zero value for a missing key, and
    also on the [nil] map. *)
Definition map_get (m : option (gmap string Z)) (key : string) : Z :=
  match m with
  | Some m => default 0 (m !! key)
  | None => 0
  end.

(** ** A monad for code that changes the handler's state and may panic *)

Inductive Panic :=
  | IndexOutOfRange
  | DivideByZero
  | NilMapAssignment.

Inductive Outcome (A : Type) :=
  | Ret (x : A) (a : AuthModifier)
  | Panicked (p : Panic) (a : AuthModifier).
Arguments Ret {A} x a.
Arguments Panicked {A} p a.

Definition M (A : Type) : Type := AuthModifier -> Outcome A.

#[global] Instance M_ret : MRet M := fun A x a => Ret x a.

#[global] Instance M_bind : MBind M := fun A B f m a =>
  match m a with
  | Ret x a' => f x a'
  | Panicked p a' => Panicked p a'
  end.

Definition get : M AuthModifier := fun a => Ret a a.
Definition modify (f : AuthModifier -> AuthModifier) : M unit :=
  fun a => Ret tt (f a).
Definition panic {A} (p : Panic) : M A := fun a => Panicked p a.

(** [x % y] on [int]: the remainder of the division that truncates towards
    zero, with the sign of [x]; a run-time panic when [y] is zero. *)
Definition int_rem (x y : Z) : M Z :=
  if y =? 0 then panic DivideByZero else mret (Z.rem x y).

(** [l[i]] on a slice: a run-time panic out of range. *)
Definition slice_index (l : list string) (i : Z) : M string :=
  if (0 <=? i) && (i <? Z.of_nat (length l))
  then mret (nth (Z.to_nat i) l "")
  else panic IndexOutOfRange.

Definition logger_Debug (msg : string) (f : Field) : M unit :=
  modify (fun a =>
    with_log a {| level := DebugLevel; message := msg; field := f |}).

(** ** [updateIndex] and [ServeHTTP] *)

(** [[
    a.Indexes[url] = (a.Indexes[url] + 1) % length
    a.Changed = true
    ]] *)
Definition updateIndex (url : string) (length : Z) : M unit :=
  a ← get;
  v ← int_rem (Int.add (map_get (Indexes a) url) 1) length;
  match Indexes a with
  | None => panic NilMapAssignment
  | Some m =>
      modify (fun a => with_Indexes a (Some (<[url := v]> m)));;
      modify (fun a => with_Changed a true)
  end.

(** The candidates of an Authorization value that carries the prefix. *)
Definition bearerTokens (authHeader : string) : list string :=
  let token := TrimSpace (slice_from 7 authHeader) in
  Split token ",".

(** The test of the first branch:
    [len(authHeader) >= 7 &&
     strings.HasPrefix(strings.ToLower(authHeader[:7]), prefix)]. *)
Definition hasBearerPrefix (authHeader : string) : bool :=
  (7 <=? len authHeader)
  && HasPrefix (ToLower (slice_to 7 authHeader)) "bearer ".

(** [ServeHTTP], in the version that keys the table by [r.URL.Path]. The
    result is the request as it is handed to [next.ServeHTTP]. *)
Definition ServeHTTP (r : Request) : M Request :=
  a ← get;
  let index := map_get (Indexes a) (URL_Path r) in
  let authHeader := Header_Get (Header r) "Authorization" in
  let apiKeyHeader := Header_Get (Header r) "X-Goog-Api-Key" in
  r1 ←
    (if hasBearerPrefix authHeader then
       let tokens := bearerTokens authHeader in
       if 0 <? Z.of_nat (length tokens) then
         i ← int_rem index (Z.of_nat (length tokens));
         selectedToken ← slice_index tokens i;
         let r1 := set_header r "Authorization" ("Bearer " +:+ selectedToken) in
         logger_Debug "Set Authorization"
           (zap_String "Auth-Key" ("Bearer " +:+ selectedToken));;
         updateIndex (URL_Path r) (Z.of_nat (length tokens));;
         mret r1
       else mret r
     else if 0 <? len authHeader then
       let tokens := Split authHeader "," in
       if 0 <? Z.of_nat (length tokens) then
         i ← int_rem index (Z.of_nat (length tokens));
         selectedToken ← slice_index tokens i;
         let r1 := set_header r "Authorization" selectedToken in
         logger_Debug "Set Authorization"
           (zap_String "Auth-Key" selectedToken);;
         updateIndex (URL_Path r) (Z.of_nat (length tokens));;
         mret r1
       else mret r
     else mret r);
  r2 ←
    (if 0 <? len apiKeyHeader then
       let apiKeys := Split apiKeyHeader "," in
       if 0 <? Z.of_nat (length apiKeys) then
         i ← int_rem index (Z.of_nat (length apiKeys));
         selectedApiKey ← slice_index apiKeys i;
         let r2 := set_header r1 "X-Goog-Api-Key" selectedApiKey in
         logger_Debug "Set X-Goog-Api-Key"
           (zap_String "Auth-Key" selectedApiKey);;
         updateIndex (URL_Path r) (Z.of_nat (length apiKeys));;
         mret r2
       else mret r1
     else mret r1);
  mret r2.

(** ** The file system *)

(** What a path holds: a file with its content, or something that cannot be
    read as a file (a directory, a file without permission). *)
Inductive node :=
  | File (data : string)
  | Unreadable.

(** The calls that change the file system, as the package makes them. *)
Inductive Syscall :=
  | SysWriteFile (name data : string)
  | SysMkdirAll (path : string).

Record World := {
  files : gmap string node;
  calls : list Syscall;
}.

(** [os.ReadFile]. *)
Definition ReadFile (w : World) (name : string) : string + error :=
  match files w !! name with
  | None => inr ErrNotExist
  | Some (File data) => inl data
  | Some Unreadable => inr ErrFileSystem
  end.

(** Whether a write succeeds is up to the environment (a full disk, a lost
    permission): it is an input of the step. A failed write leaves under the
    name whatever the environment says. *)
Inductive WriteResult :=
  | WriteOk
  | WriteFails (left : option node).

(** [os.WriteFile(name, data, 0644)]. *)
Definition WriteFile (res : WriteResult) (w : World) (name data : string)
    : World * option error :=
  let calls' := calls w ++ [SysWriteFile name data] in
  match res with
  | WriteOk =>
      ({| files := <[name := File data]> (files w); calls := calls' |}, None)
  | WriteFails (Some n) =>
      ({| files := <[name := n]> (files w); calls := calls' |},
       Some ErrFileSystem)
  | WriteFails None =>
      ({| files := delete name (files w); calls := calls' |},
       Some ErrFileSystem)
  end.

(** [ensureDir(path)]: [os.MkdirAll(filepath.Dir(path), 0755)], whose
    result is an input of the step as well. *)
Definition ensureDir (res : option error) (w : World) (path : string)
    : World * option error :=
  ({| files := files w; calls := calls w ++ [SysMkdirAll path] |}, res).

Definition log_Error (a : AuthModifier) (msg : string) (err : error)
    : AuthModifier :=
  with_log a {| level := ErrorLevel; message := msg; field := zap_Error err |}.

(** ** [saveIndexes], [loadIndexes], [Provision] and [Cleanup] *)

(** [saveIndexes], in the version with a configured path. *)
Definition saveIndexes (res : WriteResult) (a : AuthModifier) (w : World)
    : AuthModifier * World :=
  if negb (Changed a) then (a, w)
  else
    match Json.Marshal (Indexes a) with
    | inr err => (log_Error a "Error marshalling indexes" err, w)
    | inl data =>
        let a := with_Changed a false in
        match WriteFile res w (IndexPath a) data with
        | (w', Some err) =>
            let a := log_Error a "Error writing indexes to file" err in
            (with_Changed a true, w')
        | (w', None) => (a, w')
        end
    end.

(** [loadIndexes], in the version with a configured path. *)
Definition loadIndexes (a : AuthModifier) (w : World) : AuthModifier :=
  match ReadFile w (IndexPath a) with
  | inr err =>
      let a :=
        if negb (IsNotExist err)
        then log_Error a "Error reading indexes file" err
        else a in
      with_Indexes a (Some ∅)
  | inl data =>
      match Json.Unmarshal data (Indexes a) with
      | inr err =>
          let a := log_Error a "Error parsing indexes file" err in
          with_Indexes a (Some ∅)
      | inl m => with_Indexes a m
      end
  end.

(** [Provision]: the error it returns is always [nil]. The ticker that it
    starts calls [saveIndexes] every 30 seconds. *)
Definition Provision (mk : option error) (a : AuthModifier) (w : World)
    : AuthModifier * World * option error :=
  let a :=
    if len (IndexPath a) =? 0 then with_IndexPath a "indexes.json" else a in
  let '(w, err) := ensureDir mk w (IndexPath a) in
  let a :=
    match err with
    | Some err => log_Error a "Error mkdir" err
    | None => a
    end in
  let a := loadIndexes a w in
  (a, w, None).

(** [Cleanup]: one more [saveIndexes]. *)
Definition Cleanup (res : WriteResult) (a : AuthModifier) (w : World)
    : AuthModifier * World * option error :=
  let '(a, w) := saveIndexes res a w in
  (a, w, None).

(** ** The version of the package without a configured path

    [auth_modifier.go] keys the table by [r.URL.String()], keeps the
    snapshot in "indexes.json" and has no debug output; [updateIndex] is
    the same. *)

Module V1.

Definition ServeHTTP (r : Request) : M Request :=
  a ← get;
  let index := map_get (Indexes a) (URL_String r) in
  let authHeader := Header_Get (Header r) "Authorization" in
  let apiKeyHeader := Header_Get (Header r) "X-Goog-Api-Key" in
  r1 ←
    (if hasBearerPrefix authHeader then
       let tokens := bearerTokens authHeader in
       if 0 <? Z.of_nat (length tokens) then
         i ← int_rem index (Z.of_nat (length tokens));
         selectedToken ← slice_index tokens i;
         let r1 :=
           set_header r "Authorization" ("Bearer " +:+ selectedToken) in
         updateIndex (URL_String r) (Z.of_nat (length tokens));;
         mret r1
       else mret r
     else if 0 <? len authHeader then
       let tokens := Split authHeader "," in
       if 0 <? Z.of_nat (length tokens) then
         i ← int_rem index (Z.of_nat (length tokens));
         selectedToken ← slice_index tokens i;
         let r1 := set_header r "Authorization" selectedToken in
         updateIndex (URL_String r) (Z.of_nat (length tokens));;
         mret r1
       else mret r
     else mret r);
  r2 ←
    (if 0 <? len apiKeyHeader then
       let apiKeys := Split apiKeyHeader "," in
       if 0 <? Z.of_nat (length apiKeys) then
         i ← int_rem index (Z.of_nat (length apiKeys));
         selectedApiKey ← slice_index apiKeys i;
         let r2 := set_header r1 "X-Goog-Api-Key" selectedApiKey in
         updateIndex (URL_String r) (Z.of_nat (length apiKeys));;
         mret r2
       else mret r1
     else mret r1);
  mret r2.

Definition saveIndexes (res : WriteResult) (a : AuthModifier) (w : World)
    : AuthModifier * World :=
  if negb (Changed a) then (a, w)
  else
    match Json.Marshal (Indexes a) with
    | inr err => (log_Error a "Error marshalling indexes" err, w)
    | inl data =>
        let a := with_Changed a false in
        match WriteFile res w "indexes.json" data with
        | (w', Some err) =>
            let a := log_Error a "Error writing indexes to file" err in
            (with_Changed a true, w')
        | (w', None) => (a, w')
        end
    end.

Definition loadIndexes (a : AuthModifier) (w : World) : AuthModifier :=
  match ReadFile w "indexes.json" with
  | inr err =>
      let a :=
        if negb (IsNotExist err)
        then log_Error a "Error reading indexes file" err
        else a in
      with_Indexes a (Some ∅)
  | inl data =>
      match Json.Unmarshal data (Indexes a) with
      | inr err =>
          let a := log_Error a "Error parsing indexes file" err in
          with_Indexes a (Some ∅)
      | inl m => with_Indexes a m
      end
  end.

Definition Provision (a : AuthModifier) (w : World)
    : AuthModifier * World * option error :=
  (loadIndexes a w, w, None).

Definition Cleanup (res : WriteResult) (a : AuthModifier) (w : World)
    : AuthModifier * World * option error :=
  let '(a, w) := saveIndexes res a w in
  (a, w, None).

End V1.

(** * Definitions for the statements *)

Import Json.

(** ** The handler as a function of the request and the table *)

(** The state after [updateIndex url n], from a state whose table is [m]. *)
Definition advanced (a : AuthModifier) (m : gmap string Z) (url : string)
    (n : Z) : AuthModifier :=
  with_Changed
    (with_Indexes a
       (Some (<[url := Z.rem (Int.add (default 0 (m !! url)) 1) n]> m)))
    true.

(** The candidates of an Authorization value and the prefix with which the
    selected one is written back; [None] when the value is empty. *)
Definition authCandidates (authHeader : string)
    : option (string * list string) :=
  if hasBearerPrefix authHeader then Some ("Bearer ", bearerTokens authHeader)
  else if 0 <? len authHeader then Some ("", Split authHeader ",")
  else None.

(** [tokens[index % len(tokens)]], where it does not panic. *)
Definition selected (index : Z) (tokens : list string) : string :=
  nth (Z.to_nat (Z.rem index (Z.of_nat (length tokens)))) tokens "".

(** The remainder is a valid index: it is not negative. *)
Definition selectable (index : Z) (tokens : list string) : Prop :=
  0 <= Z.rem index (Z.of_nat (length tokens)).

Definition advance_map (m : gmap string Z) (url : string) (n : Z)
    : gmap string Z :=
  <[url := Z.rem (Int.add (default 0 (m !! url)) 1) n]> m.

Definition debug (msg val : string) : Entry :=
  {| level := DebugLevel; message := msg; field := zap_String "Auth-Key" val |}.

(** What [ServeHTTP] does to the request and to the state, on a table [m]
    that has been made, when no selection panics. *)
Definition served (r : Request) (a : AuthModifier) (m : gmap string Z)
    : Request * AuthModifier * gmap string Z :=
  let key := URL_Path r in
  let index := default 0 (m !! key) in
  let '(r1, a1, m1) :=
    match authCandidates (Header_Get (Header r) "Authorization") with
    | Some (pre, tokens) =>
        let v := pre +:+ selected index tokens in
        let n := Z.of_nat (length tokens) in
        (set_header r "Authorization" v,
         advanced (with_log a (debug "Set Authorization" v)) m key n,
         advance_map m key n)
    | None => (r, a, m)
    end in
  let apiKeyHeader := Header_Get (Header r) "X-Goog-Api-Key" in
  if 0 <? len apiKeyHeader then
    let apiKeys := Split apiKeyHeader "," in
    let v := selected index apiKeys in
    let n := Z.of_nat (length apiKeys) in
    (set_header r1 "X-Goog-Api-Key" v,
     advanced (with_log a1 (debug "Set X-Goog-Api-Key" v)) m1 key n,
     advance_map m1 key n)
  else (r1, a1, m1).

(** ** Strings up to case, and strings of spaces *)

(** Equality of two bytes up to the case of the letters A..Z and a..z. *)
Definition is_upper (b : Z) : bool := (0x41 <=? b) && (b <=? 0x5A).

Definition byte_fold_eq (c d : ascii) : bool :=
  Ascii.eqb c d
  || (is_upper (code c) && (code d =? code c + 0x20))
  || (is_upper (code d) && (code c =? code d + 0x20)).

Fixpoint fold_eq (s t : string) : bool :=
  match s, t with
  | "", "" => true
  | String c s', String d t' => byte_fold_eq c d && fold_eq s' t'
  | _, _ => false
  end.

(** A string of spaces only: the encodings of runes that are spaces, one
    after the other. *)
Inductive space_only : string -> Prop :=
  | space_only_nil : space_only ""
  | space_only_rune r s :
      IsSpace r = true -> space_only s -> space_only (EncodeRune r +:+ s).

(** ** Requests and states of the scenarios *)

(** The example of the scenario: a request for "/v1" with the
    Authorization value "Bearer key1, key2", and a state in which the
    position 1 is stored for "/v1". *)
Definition spaced_request : Request :=
  {| URL_Path := "/v1"; URL_String := "/v1";
     Header := {["Authorization" := ["Bearer key1, key2"]]} |}.

Definition at_one : AuthModifier :=
  {| Indexes := Some {["/v1" := 1]}; Changed := false;
     IndexPath := "indexes.json"; logger := [] |}.

Definition header_of (o : Outcome Request) (key : string)
    : option (list string) :=
  match o with
  | Ret r _ => Header r !! key
  | Panicked _ _ => None
  end.

(** ** Positions, panics and sequences of requests *)

(** The positions from which one more step does not overflow. *)
Definition position_ok (v : Z) : Prop := 0 <= v < Int.MaxInt.

Definition never_div0 {A} (o : Outcome A) : Prop :=
  forall a', o <> Panicked DivideByZero a'.

(** A table that holds the largest [int], and a request with three
    candidates. *)
Definition overflow_state : AuthModifier :=
  {| Indexes := Some {["/" := Int.MaxInt]}; Changed := false;
     IndexPath := "indexes.json"; logger := [] |}.

Definition overflow_request : Request :=
  {| URL_Path := "/"; URL_String := "/";
     Header := {["Authorization" := ["a,b,c"]]} |}.

Definition state_of {A} (o : Outcome A) : AuthModifier :=
  match o with Ret _ a => a | Panicked _ a => a end.

Definition panic_of {A} (o : Outcome A) : option Panic :=
  match o with Ret _ _ => None | Panicked p _ => Some p end.

(** Requests served one after the other. *)
Fixpoint serveAll (rs : list Request) : M (list Request) :=
  match rs with
  | [] => mret []
  | r :: rs' =>
      r' ← ServeHTTP r;
      rest ← serveAll rs';
      mret (r' :: rest)
  end.

(** A request with one list of candidates: in the Authorization header,
    with or without the prefix, and no API key; or in the X-Goog-Api-Key
    header, and no Authorization value. The result names the header, the
    prefix that is written back and the candidates. *)
Definition one_list (r : Request) : option (string * string * list string) :=
  let api := Header_Get (Header r) "X-Goog-Api-Key" in
  match authCandidates (Header_Get (Header r) "Authorization") with
  | Some (pre, tokens) =>
      if 0 <? len api then None else Some ("Authorization", pre, tokens)
  | None =>
      if 0 <? len api then Some ("X-Goog-Api-Key", "", Split api ",")
      else None
  end.

(** A request for the key [key] with one list of [n] candidates. *)
Definition rotating (key : string) (n : Z) (r : Request) : Prop :=
  URL_Path r = key
  /\ exists hdr pre cands,
       one_list r = Some (hdr, pre, cands) /\ Z.of_nat (length cands) = n.

(** ** Flushing *)

(** What a flush of a changed table does, for a version [save] of
    [saveIndexes] that writes to [path]: after a write that succeeds,
    [Changed] is false and the file holds [data]; after a write that fails,
    [Changed] is true, the table is as it was, and a next flush whose write
    succeeds clears [Changed] and leaves [data] in the file. *)
Definition flushes
    (save : WriteResult -> AuthModifier -> World -> AuthModifier * World)
    (path : string) (a : AuthModifier) (w : World) (left : option node)
    (data : string) : Prop :=
  (let '(a1, w1) := save WriteOk a w in
   Changed a1 = false /\ Indexes a1 = Indexes a
   /\ files w1 !! path = Some (File data)
   /\ calls w1 = calls w ++ [SysWriteFile path data])
  /\ (let '(a1, w1) := save (WriteFails left) a w in
      Changed a1 = true /\ Indexes a1 = Indexes a
      /\ IndexPath a1 = IndexPath a
      /\ calls w1 = calls w ++ [SysWriteFile path data]
      /\ let '(a2, w2) := save WriteOk a1 w1 in
         Changed a2 = false /\ Indexes a2 = Indexes a
         /\ files w2 !! path = Some (File data)).

(** ** Reading what was written: numbers, runes, strings, entries *)

(** The input after a number does not go on with a digit. *)
Definition no_digit_ahead (tail : string) : Prop :=
  match tail with
  | "" => True
  | String c _ => is_digit (code c) = false
  end.

(** The value that the bytes of an encoding stand for. *)
Definition value2 (b0 b1 : Z) : Z := (b0 - 0xC0) * 64 + (b1 - 0x80).
Definition value3 (b0 b1 b2 : Z) : Z :=
  (b0 - 0xE0) * 4096 + (b1 - 0x80) * 64 + (b2 - 0x80).
Definition value4 (b0 b1 b2 b3 : Z) : Z :=
  (b0 - 0xF0) * 262144 + (b1 - 0x80) * 4096 + (b2 - 0x80) * 64
  + (b3 - 0x80).

Definition cont (b : Z) : Prop := 0x80 <= b <= 0xBF.

Definition between (lo hi b : Z) : bool := (lo <=? b) && (b <=? hi).

Definition lo3 (b0 : Z) : Z := if b0 =? 0xE0 then 0xA0 else 0x80.
Definition hi3 (b0 : Z) : Z := if b0 =? 0xED then 0x9F else 0xBF.
Definition lo4 (b0 : Z) : Z := if b0 =? 0xF0 then 0x90 else 0x80.
Definition hi4 (b0 : Z) : Z := if b0 =? 0xF4 then 0x8F else 0xBF.

(** A rune of more than one byte at the start of [s]: [s] starts with the
    encoding of the rune, whose bytes are all [0x80] or more, and the
    encoding is decoded as the rune whatever follows it. *)
Record encoded_at (s : string) (r : Z) (size : nat) : Prop := {
  enc_split : s = EncodeRune r +:+ slice_from size s;
  enc_length : String.length (EncodeRune r) = size;
  enc_high :
    Forall (fun c => 0x80 <= code c) (list_ascii_of_string (EncodeRune r));
  enc_decode : forall t, DecodeRuneInString (EncodeRune r +:+ t) = (r, size);
}.

Definition is_error (r : Z) (size : nat) : bool :=
  (r =? RuneError) && (size =? 1)%nat.

Definition prepend (pre : string) (o : option (string * string))
    : option (string * string) :=
  match o with
  | Some (lit, rest) => Some (pre +:+ lit, rest)
  | None => None
  end.

Definition simple_escape (b : Z) : bool :=
  (b =? 0x62) || (b =? 0x66) || (b =? 0x6E) || (b =? 0x72) || (b =? 0x74)
  || (b =? 0x5C) || (b =? 0x2F) || (b =? 0x22).

(** What can be written and read back: a key that is valid UTF-8 and a
    position that is an [int]. *)
Definition entry_ok (kv : string * Z) : Prop :=
  ValidString kv.1 = true /\ Int.is_int kv.2.

Definition store (m : gmap string Z) (kv : string * Z) : gmap string Z :=
  <[kv.1 := kv.2]> m.

(** The input after an entry: a comma and the next key, or the closing
    brace. *)
Definition after_entry (tail : string) : Prop :=
  match tail with
  | "" => False
  | String d _ => code d = 0x2C \/ code d = 0x7D
  end.

(** ** Tables, states and requests for the examples *)

(** A key that is not valid UTF-8: the byte [0x2F] of the slash and the
    byte [0xFF]. It is the path [r.URL.Path] of a request for [/%ff]. *)
Definition odd_key : string := String "/" (String (chr 0xFF) "").

Definition odd_table : gmap string Z := {[odd_key := 1]}.

Definition odd_state : AuthModifier :=
  {| Indexes := Some odd_table; Changed := true;
     IndexPath := "indexes.json"; logger := [] |}.

Definition fresh_state : AuthModifier :=
  {| Indexes := None; Changed := false;
     IndexPath := "indexes.json"; logger := [] |}.

Definition empty_world : World := {| files := ∅; calls := [] |}.

Definition bearer3 : Request :=
  {| URL_Path := "/v1/chat"; URL_String := "/v1/chat";
     Header := {["Authorization" := ["Bearer key1,key2,key3"]]} |}.

Definition both3 : Request :=
  {| URL_Path := "/v1/chat"; URL_String := "/v1/chat";
     Header := {["Authorization" := ["Bearer key1,key2,key3"];
                "X-Goog-Api-Key" := ["a,b"]]} |}.

Definition no_credentials : Request :=
  {| URL_Path := "/v1/chat"; URL_String := "/v1/chat";
     Header := {["Authorization" := [""]; "Accept" := ["*/*"]]} |}.

Definition only_spaces : Request :=
  {| URL_Path := "/v1/chat"; URL_String := "/v1/chat";
     Header := {["Authorization" := ["bEaReR " +:+ " " +:+ EncodeRune 0x3000]]} |}.

Definition started : AuthModifier :=
  {| Indexes := Some ∅; Changed := false; IndexPath := "indexes.json";
     logger := [] |}.

Definition changed_state : AuthModifier :=
  {| Indexes := Some {["/v1/chat" := 2]}; Changed := true;
     IndexPath := "auth/index_3001.json"; logger := [] |}.

Definition corrupt_world : World :=
  {| files := {["indexes.json" := File "{oops"]}; calls := [] |}.

Definition null_world : World :=
  {| files := {["indexes.json" := File "null"]}; calls := [] |}.

(** ** The handler on every state *)

(** One block of the handler, on any state: the selection panics when the
    remainder is negative; the assignment of [updateIndex] panics on the
    [nil] map, after the entry has been logged. *)
Definition block_result (index : Z) (tokens : list string)
    (key msg pre hdr : string) (r : Request) (a : AuthModifier)
    : Outcome Request :=
  let n := Z.of_nat (length tokens) in
  let v := pre +:+ selected index tokens in
  if Z.rem index n <? 0 then Panicked IndexOutOfRange a
  else
    match Indexes a with
    | None => Panicked NilMapAssignment (with_log a (debug msg v))
    | Some m =>
        Ret (set_header r hdr v)
            (advanced (with_log a (debug msg v)) m key n)
    end.

(** The block of the API key, for the value [k] of the header. *)
Definition key_result (index : Z) (key k : string) (r1 : Request)
    (a : AuthModifier) : Outcome Request :=
  if 0 <? len k then
    block_result index (Split k ",") key "Set X-Goog-Api-Key" ""
      "X-Goog-Api-Key" r1 a
  else Ret r1 a.

(** The handler as a function of the request and of the state. *)
Definition handle (r : Request) (a : AuthModifier) : Outcome Request :=
  let key := URL_Path r in
  let index := map_get (Indexes a) key in
  let k := Header_Get (Header r) "X-Goog-Api-Key" in
  match authCandidates (Header_Get (Header r) "Authorization") with
  | Some (pre, tokens) =>
      match block_result index tokens key "Set Authorization" pre
              "Authorization" r a with
      | Ret r1 a1 => key_result index key k r1 a1
      | Panicked p a' => Panicked p a'
      end
  | None => key_result index key k r a
  end.

(** The lists of candidates of a request, in the order in which the
    handler selects from them. *)
Definition lists (r : Request) : list (list string) :=
  let k := Header_Get (Header r) "X-Goog-Api-Key" in
  match authCandidates (Header_Get (Header r) "Authorization") with
  | Some (_, tokens) => [tokens]
  | None => []
  end
  ++ (if 0 <? len k then [Split k ","] else []).

(** The entry of a key in a table that may be [nil]. *)
Definition entry_of (t : option (gmap string Z)) (k : string) : option Z :=
  match t with
  | Some m => m !! k
  | None => None
  end.

(** What a request for [key] leaves alone in the state: the path of the
    snapshot, a flag [Changed] that is set, the entries of the other keys,
    the entries written to the log so far; the table is [nil] after it if
    and only if it was before; and the table is only changed together with
    a flag that is set. What is logged is debug output. *)
Record state_frame (key : string) (a a' : AuthModifier) : Prop := {
  frame_path : IndexPath a' = IndexPath a;
  frame_changed : Changed a = true -> Changed a' = true;
  frame_dirty : Indexes a' = Indexes a \/ Changed a' = true;
  frame_nil : Indexes a' = None <-> Indexes a = None;
  frame_keys :
    forall k, k <> key -> entry_of (Indexes a') k = entry_of (Indexes a) k;
  frame_log :
    exists l, logger a' = logger a ++ l
              /\ Forall (fun e => level e = DebugLevel) l;
}.

(** What the handler leaves alone in the request: the URL, and every
    header but the two that carry credentials. *)
Record request_frame (r r' : Request) : Prop := {
  frame_URL_Path : URL_Path r' = URL_Path r;
  frame_URL_String : URL_String r' = URL_String r;
  frame_headers :
    forall h, h <> "Authorization" -> h <> "X-Goog-Api-Key" ->
              Header r' !! h = Header r !! h;
}.

(** ** Commas, and tables that are [nil] *)

(** The byte [c] occurs in [s]. *)
Fixpoint has_byte (c : ascii) (s : string) : bool :=
  match s with
  | "" => false
  | String d s' => Ascii.eqb d c || has_byte c s'
  end.

(** A snapshot that holds the JSON value [null], with space around it. *)
Definition null_document (data : string) : Prop :=
  exists rest, skip_space data = "null" +:+ rest /\ skip_space rest = "".

(** The path of the snapshot once [Provision] has run. *)
Definition snapshot_path (a : AuthModifier) : string :=
  if len (IndexPath a) =? 0 then "indexes.json" else IndexPath a.

(** ** The snapshot and the table over a run of the instance *)

(** A table that is written and read back as it is: its keys are valid
    UTF-8 and its positions are [int]s. The [nil] table is one. *)
Definition table_ok (t : option (gmap string Z)) : Prop :=
  match t with
  | Some m => map_Forall (fun k v => ValidString k = true /\ Int.is_int v) m
  | None => True
  end.

(** The snapshot is up to date: when [Changed] is false, an instance
    without a table that loads the snapshot gets the table of [a]. *)
Definition in_sync (a : AuthModifier) (w : World) : Prop :=
  Changed a = false ->
  Indexes (loadIndexes (with_Indexes a None) w) = Indexes a.

(** What happens to a provisioned instance: a request is served, or the
    ticker fires and [saveIndexes] runs, its write succeeding or failing.
    On a table that has been made the only panic of the handler is that of
    the selection, which is raised before [updateIndex] takes the lock: it
    ends the request, and the instance goes on in the state that the panic
    left. *)
Inductive Event :=
  | Serve (r : Request)
  | Tick (res : WriteResult).

Definition step (s : AuthModifier * World) (e : Event)
    : AuthModifier * World :=
  match e with
  | Serve r => (state_of (ServeHTTP r s.1), s.2)
  | Tick res => saveIndexes res s.1 s.2
  end.

Definition run (es : list Event) (s : AuthModifier * World)
    : AuthModifier * World :=
  fold_left step es s.

(** The requests of a run have paths that are valid UTF-8. *)
Definition event_ok (e : Event) : Prop :=
  match e with
  | Serve r => ValidString (URL_Path r) = true
  | Tick _ => True
  end.

(** ** The two versions of the package *)

Definition with_logger (a : AuthModifier) (l : list Entry) : AuthModifier :=
  {| Indexes := Indexes a; Changed := Changed a; IndexPath := IndexPath a;
     logger := l |}.

(** The request [r] with the whole URL in the place of the path. *)
Definition keyed_by_URL (r : Request) : Request :=
  {| URL_Path := URL_String r; URL_String := URL_String r;
     Header := Header r |}.

Definition with_URL_Path (r : Request) (p : string) : Request :=
  {| URL_Path := p; URL_String := URL_String r; Header := Header r |}.

(** An outcome of the handler with the path [p] in the request again, and
    with the log [l] in the place of what was logged. *)
Definition as_V1 (p : string) (l : list Entry) (o : Outcome Request)
    : Outcome Request :=
  match o with
  | Ret r' a' => Ret (with_URL_Path r' p) (with_logger a' l)
  | Panicked q a' => Panicked q (with_logger a' l)
  end.

(** ** Requests for different keys *)

(** Two outcomes with the same result: the same request handed on, or the
    same panic. *)
Definition same_result (o1 o2 : Outcome Request) : Prop :=
  match o1, o2 with
  | Ret x _, Ret y _ => x = y
  | Panicked p _, Panicked q _ => p = q
  | _, _ => False
  end.

(** Two states that agree on the entry of [key], and on whether there is a
    table. *)
Definition same_at (key : string) (a b : AuthModifier) : Prop :=
  entry_of (Indexes a) key = entry_of (Indexes b) key
  /\ (Indexes a = None <-> Indexes b = None).

(** ** Keys that are not valid UTF-8 *)

(** The string that is read back for a string that was written: every byte
    that does not start a valid encoding is replaced by the encoding of
    U+FFFD, everything else is kept. *)
Fixpoint coerce_from (fuel : nat) (src : string) : string :=
  match fuel with
  | O => ""
  | S fuel' =>
      match src with
      | "" => ""
      | String c rest =>
          if code c <? RuneSelf then String c (coerce_from fuel' rest)
          else
            let '(r, size) := DecodeRuneInString src in
            if (r =? RuneError) && (size =? 1)%nat then
              EncodeRune RuneError +:+ coerce_from fuel' (slice_from size src)
            else slice_to size src +:+ coerce_from fuel' (slice_from size src)
      end
  end.

Definition coerced (s : string) : string :=
  coerce_from (String.length s) s.

Definition recode (kv : string * Z) : string * Z := (coerced kv.1, kv.2).

(** ** Spaces around the list of a bearer value *)

(** A string of ASCII spaces: tab, line feed, vertical tab, form feed,
    carriage return, space. *)
Fixpoint ascii_spaces (s : string) : bool :=
  match s with
  | "" => true
  | String c s' => asciiSpace (code c) && ascii_spaces s'
  end.

(** An ASCII byte that is not a space. *)
Definition plain_byte (c : ascii) : bool :=
  (code c <? RuneSelf) && negb (asciiSpace (code c)).

(** ** More states, requests and file systems for the examples *)

(** A table with a negative position, as a snapshot edited by hand or a
    position that has wrapped around leaves it. *)
Definition negative_state : AuthModifier :=
  {| Indexes := Some {["/" := -2]}; Changed := false;
     IndexPath := "indexes.json"; logger := [] |}.

Definition single_key_request : Request :=
  {| URL_Path := "/"; URL_String := "/";
     Header := {["X-Goog-Api-Key" := ["k1"]]} |}.

Definition trailing_comma_request : Request :=
  {| URL_Path := "/"; URL_String := "/";
     Header := {["X-Goog-Api-Key" := ["k1,k2,"]]} |}.

Definition at_two : AuthModifier :=
  {| Indexes := Some {["/" := 2]}; Changed := false;
     IndexPath := "indexes.json"; logger := [] |}.

Definition two_lines_request : Request :=
  {| URL_Path := "/"; URL_String := "/";
     Header := {["Authorization" := ["a,b"; "c"]]} |}.

(** A new instance with the path of [changed_state] configured. *)
Definition configured_state : AuthModifier :=
  {| Indexes := None; Changed := false;
     IndexPath := "auth/index_3001.json"; logger := [] |}.

(** A snapshot that holds the position 2 for "/v1/chat", and an instance
    that has positions for "/v1/chat" and for "/" already. *)
Definition chat_snapshot : string :=
  "{" +:+ String Json.quote "/v1/chat" +:+ String Json.quote ":2}".

Definition chat_world : World :=
  {| files := {["indexes.json" := File chat_snapshot]}; calls := [] |}.

Definition populated_state : AuthModifier :=
  {| Indexes := Some {["/v1/chat" := 0; "/" := 1]}; Changed := false;
     IndexPath := "indexes.json"; logger := [] |}.

(** A run: two requests, a tick whose write fails, a request, a tick whose
    write succeeds. *)
Definition example_run : list Event :=
  [Serve bearer3; Serve both3; Tick (WriteFails None); Serve bearer3;
   Tick WriteOk].

(** ** A full turn of the rotation *)

(** A request for [key] that carries the candidates [cands] in the header
    [hdr], and no other list. *)
Definition carries (key hdr pre : string) (cands : list string)
    (r : Request) : Prop :=
  URL_Path r = key /\ one_list r = Some (hdr, pre, cands).

(** The value of the header [hdr] in each of the requests handed on. *)
Definition handed_on (hdr : string) (outs : list Request)
    : list (option (list string)) :=
  (fun r' => Header r' !! hdr) <$> outs.

(** * Properties *)

(** ** Bytes and integers *)

Module BytesFacts.

Lemma code_range c : 0 <= code c < 256.
Proof.
  unfold code. pose proof (N_ascii_bounded c) as H.
  split; [apply N2Z.is_nonneg|]. change 256 with (Z.of_N 256). lia.
Qed.

Lemma chr_code c : chr (code c) = c.
Proof. unfold chr, code. rewrite N2Z.id. apply ascii_N_embedding. Qed.

Lemma code_chr z : 0 <= z < 256 -> code (chr z) = z.
Proof.
  intros H. unfold chr, code. rewrite N_ascii_embedding; lia.
Qed.

Lemma code_inj c d : code c = code d -> c = d.
Proof. intros H. rewrite <- (chr_code c), <- (chr_code d). now rewrite H. Qed.

Lemma app_cons c s t : String c s +:+ t = String c (s +:+ t).
Proof. reflexivity. Qed.

Lemma app_empty_l t : "" +:+ t = t.
Proof. reflexivity. Qed.

Lemma app_empty_r s : s +:+ "" = s.
Proof. induction s as [|c s IH]; [reflexivity|]. now rewrite app_cons, IH. Qed.

Lemma app_assoc s t u : (s +:+ t) +:+ u = s +:+ (t +:+ u).
Proof.
  induction s as [|c s IH]; [reflexivity|]. now rewrite !app_cons, IH.
Qed.

Lemma length_app s t :
  String.length (s +:+ t) = (String.length s + String.length t)%nat.
Proof.
  induction s as [|c s IH]; [reflexivity|].
  rewrite app_cons. simpl. now rewrite IH.
Qed.

Lemma slice_to_from n s : slice_to n s +:+ slice_from n s = s.
Proof.
  revert s. induction n as [|n IH]; intros [|c s]; simpl; try reflexivity.
  rewrite app_cons. f_equal. apply IH.
Qed.

Lemma slice_to_app s t : slice_to (String.length s) (s +:+ t) = s.
Proof.
  induction s as [|c s IH]; [now destruct t|].
  rewrite app_cons. simpl. f_equal. exact IH.
Qed.

Lemma slice_from_app s t : slice_from (String.length s) (s +:+ t) = t.
Proof. induction s as [|c s IH]; [reflexivity|exact IH]. Qed.

Lemma length_slice_to n s :
  (n <= String.length s)%nat -> String.length (slice_to n s) = n.
Proof.
  revert s. induction n as [|n IH]; intros [|c s] H; simpl in *; try lia.
  rewrite IH; lia.
Qed.

End BytesFacts.
Import BytesFacts.

Module IntFacts.
Import Int.

Lemma wrap_id z : is_int z -> wrap z = z.
Proof.
  unfold is_int, MinInt, MaxInt, wrap. intros H.
  rewrite Z.mod_small; lia.
Qed.

Lemma wrap_is_int z : is_int (wrap z).
Proof.
  unfold is_int, MinInt, MaxInt, wrap.
  pose proof (Z.mod_pos_bound (z + 2 ^ 63) (2 ^ 64)). lia.
Qed.

End IntFacts.

(** ** The monad *)

Lemma bind_Ret {A B} (m : M A) (f : A -> M B) a x a' :
  m a = Ret x a' -> (m ≫= f) a = f x a'.
Proof. intros H. unfold mbind, M_bind. now rewrite H. Qed.

Lemma bind_Panicked {A B} (m : M A) (f : A -> M B) a p a' :
  m a = Panicked p a' -> (m ≫= f) a = Panicked p a'.
Proof. intros H. unfold mbind, M_bind. now rewrite H. Qed.

Lemma int_rem_Ret x y a : y <> 0 -> int_rem x y a = Ret (Z.rem x y) a.
Proof.
  intros H. unfold int_rem. destruct (Z.eqb_spec y 0); [contradiction|].
  reflexivity.
Qed.

Lemma slice_index_Ret l i a :
  0 <= i < Z.of_nat (length l) ->
  slice_index l i a = Ret (nth (Z.to_nat i) l "") a.
Proof.
  intros [H1 H2]. unfold slice_index.
  destruct (Z.leb_spec 0 i); [|lia].
  destruct (Z.ltb_spec i (Z.of_nat (length l))); [|lia].
  reflexivity.
Qed.

Lemma updateIndex_Ret url n a m :
  Indexes a = Some m -> n <> 0 ->
  updateIndex url n a = Ret tt (advanced a m url n).
Proof.
  intros Hm Hn. unfold updateIndex.
  erewrite bind_Ret by reflexivity.
  erewrite bind_Ret by (apply int_rem_Ret; exact Hn).
  rewrite Hm. reflexivity.
Qed.

Lemma updateIndex_nil url n a :
  Indexes a = None -> n <> 0 ->
  updateIndex url n a = Panicked NilMapAssignment a.
Proof.
  intros Hm Hn. unfold updateIndex.
  erewrite bind_Ret by reflexivity.
  erewrite bind_Ret by (apply int_rem_Ret; exact Hn).
  rewrite Hm. reflexivity.
Qed.

(** ** [strings.Split] *)

Lemma Split_length_pos s sep : (1 <= length (Split s sep))%nat.
Proof.
  induction s as [|c s IH]; simpl; [lia|].
  destruct (Ascii.eqb c sep); simpl; [lia|].
  destruct (Split s sep); simpl; lia.
Qed.

Lemma Split_not_nil s sep : Split s sep <> [].
Proof.
  intros H. pose proof (Split_length_pos s sep) as L. rewrite H in L.
  simpl in L. lia.
Qed.

(** Nothing is lost and nothing is changed by the split: the pieces, put
    together again with the separator, are the string that was split. *)
Lemma Join_Split s sep : Join (Split s sep) (String sep "") = s.
Proof.
  induction s as [|c s IH]; [reflexivity|]. simpl.
  destruct (Ascii.eqb_spec c sep) as [->|Hne].
  - pose proof (Split_not_nil s sep) as Hnil.
    destruct (Split s sep) as [|p ps] eqn:E; [contradiction|].
    change (Join ("" :: p :: ps) (String sep ""))
      with ("" +:+ String sep "" +:+ Join (p :: ps) (String sep "")).
    rewrite IH. reflexivity.
  - pose proof (Split_not_nil s sep) as Hnil.
    destruct (Split s sep) as [|p ps] eqn:E; [contradiction|].
    destruct ps as [|q qs].
    + simpl in *. now rewrite IH.
    + change (Join (String c p :: q :: qs) (String sep ""))
        with (String c p +:+ String sep "" +:+ Join (q :: qs) (String sep "")).
      change (Join (p :: q :: qs) (String sep ""))
        with (p +:+ String sep "" +:+ Join (q :: qs) (String sep "")) in IH.
      rewrite app_cons. now rewrite IH.
Qed.

(** ** The handler without credentials *)

(** C8. A request whose Authorization header reads as the empty string and
    whose X-Goog-Api-Key header reads as the empty string (an absent header
    reads so) is handed on as it came: no header is changed, the table of
    positions is the same for every key, the flag [Changed] is the same,
    and nothing is logged. *)
Theorem C8_no_credentials_no_effect (r : Request) (a : AuthModifier) :
  Header_Get (Header r) "Authorization" = "" ->
  Header_Get (Header r) "X-Goog-Api-Key" = "" ->
  ServeHTTP r a = Ret r a.
Proof.
  intros Hauth Hkey. unfold ServeHTTP.
  erewrite bind_Ret by reflexivity.
  rewrite Hauth, Hkey. reflexivity.
Qed.

(** ** The handler, one scheme at a time *)

Lemma advanced_Indexes a m url n :
  Indexes (advanced a m url n) = Some (advance_map m url n).
Proof. reflexivity. Qed.

Lemma length_pos_Z (l : list string) : l <> [] -> 0 < Z.of_nat (length l).
Proof. destruct l; [contradiction|]. simpl. lia. Qed.

Lemma selected_rem_bound index (tokens : list string) :
  tokens <> [] -> selectable index tokens ->
  0 <= Z.rem index (Z.of_nat (length tokens)) < Z.of_nat (length tokens).
Proof.
  intros Hne Hsel. pose proof (length_pos_Z tokens Hne) as Hpos.
  split; [exact Hsel|].
  pose proof (Z.rem_bound_abs index (Z.of_nat (length tokens))) as Hb.
  unfold selectable in Hsel. lia.
Qed.

(** One block of the handler: select, write the header, log, advance. *)
Lemma block_Ret (index : Z) (tokens : list string) (key msg pre hdr : string)
    (r : Request) (a : AuthModifier) (m : gmap string Z) :
  Indexes a = Some m -> tokens <> [] -> selectable index tokens ->
  (i ← int_rem index (Z.of_nat (length tokens));
   selectedToken ← slice_index tokens i;
   let r1 := set_header r hdr (pre +:+ selectedToken) in
   logger_Debug msg (zap_String "Auth-Key" (pre +:+ selectedToken));;
   updateIndex key (Z.of_nat (length tokens));;
   mret r1) a
  = Ret (set_header r hdr (pre +:+ selected index tokens))
        (advanced (with_log a (debug msg (pre +:+ selected index tokens)))
           m key (Z.of_nat (length tokens))).
Proof.
  intros Hm Hne Hsel.
  pose proof (length_pos_Z tokens Hne) as Hpos.
  pose proof (selected_rem_bound index tokens Hne Hsel) as Hb.
  erewrite bind_Ret by (apply int_rem_Ret; lia).
  erewrite bind_Ret by (apply slice_index_Ret; exact Hb).
  cbv zeta.
  erewrite bind_Ret by reflexivity.
  erewrite bind_Ret by (apply updateIndex_Ret; [exact Hm|lia]).
  reflexivity.
Qed.

Lemma authCandidates_not_nil h pre tokens :
  authCandidates h = Some (pre, tokens) -> tokens <> [].
Proof.
  unfold authCandidates, bearerTokens.
  destruct (hasBearerPrefix h); [|destruct (0 <? len h)]; intros H;
    inversion H; apply Split_not_nil.
Qed.

Lemma ServeHTTP_served (r : Request) (a : AuthModifier) (m : gmap string Z) :
  Indexes a = Some m ->
  (forall pre tokens,
      authCandidates (Header_Get (Header r) "Authorization")
      = Some (pre, tokens) ->
      selectable (default 0 (m !! URL_Path r)) tokens) ->
  (Header_Get (Header r) "X-Goog-Api-Key" <> "" ->
   selectable (default 0 (m !! URL_Path r))
     (Split (Header_Get (Header r) "X-Goog-Api-Key") ",")) ->
  ServeHTTP r a = Ret (served r a m).1.1 (served r a m).1.2
  /\ Indexes (served r a m).1.2 = Some (served r a m).2.
Proof.
  intros Hm Hauth Hkey. unfold ServeHTTP, served.
  erewrite bind_Ret by reflexivity.
  unfold map_get at 1. rewrite Hm.
  set (index := default 0 (m !! URL_Path r)) in *.
  set (h := Header_Get (Header r) "Authorization") in *.
  set (k := Header_Get (Header r) "X-Goog-Api-Key") in *.
  assert (Hk : (0 <? len k) = true -> k <> "").
  { intros H ->. discriminate H. }
  assert (Hk' : (0 <? len k) = false -> k = "").
  { destruct k; [reflexivity|]. unfold len. simpl. intros H.
    apply Z.ltb_ge in H. lia. }
  unfold authCandidates in *.
  destruct (hasBearerPrefix h) eqn:Hb.
  - pose proof (Split_not_nil (TrimSpace (slice_from 7 h)) ",") as Hne.
    fold (bearerTokens h) in Hne.
    destruct (0 <? Z.of_nat (length (bearerTokens h))) eqn:Hl;
      [|apply Z.ltb_ge in Hl; pose proof (length_pos_Z _ Hne); lia].
    erewrite bind_Ret
      by (apply (block_Ret index (bearerTokens h) (URL_Path r)
                   "Set Authorization" "Bearer " "Authorization" r a m);
          [exact Hm|exact Hne|eapply Hauth; reflexivity]).
    destruct (0 <? len k) eqn:Hlk.
    + pose proof (Split_not_nil k ",") as Hne2.
      destruct (0 <? Z.of_nat (length (Split k ","))) eqn:Hl2;
        [|apply Z.ltb_ge in Hl2; pose proof (length_pos_Z _ Hne2); lia].
      erewrite bind_Ret
        by (apply (block_Ret index (Split k ",") (URL_Path r)
                     "Set X-Goog-Api-Key" "" "X-Goog-Api-Key");
            [apply advanced_Indexes|exact Hne2|apply Hkey; auto]).
      split; reflexivity.
    + erewrite bind_Ret by reflexivity. split; reflexivity.
  - destruct (0 <? len h) eqn:Hlh.
    + pose proof (Split_not_nil h ",") as Hne.
      destruct (0 <? Z.of_nat (length (Split h ","))) eqn:Hl;
        [|apply Z.ltb_ge in Hl; pose proof (length_pos_Z _ Hne); lia].
      erewrite bind_Ret
        by (apply (block_Ret index (Split h ",") (URL_Path r)
                     "Set Authorization" "" "Authorization" r a m);
            [exact Hm|exact Hne|eapply Hauth; reflexivity]).
      destruct (0 <? len k) eqn:Hlk.
      * pose proof (Split_not_nil k ",") as Hne2.
        destruct (0 <? Z.of_nat (length (Split k ","))) eqn:Hl2;
          [|apply Z.ltb_ge in Hl2; pose proof (length_pos_Z _ Hne2); lia].
        erewrite bind_Ret
          by (apply (block_Ret index (Split k ",") (URL_Path r)
                       "Set X-Goog-Api-Key" "" "X-Goog-Api-Key");
              [apply advanced_Indexes|exact Hne2|apply Hkey; auto]).
        split; reflexivity.
      * erewrite bind_Ret by reflexivity. split; reflexivity.
    + erewrite bind_Ret by reflexivity.
      destruct (0 <? len k) eqn:Hlk.
      * pose proof (Split_not_nil k ",") as Hne2.
        destruct (0 <? Z.of_nat (length (Split k ","))) eqn:Hl2;
          [|apply Z.ltb_ge in Hl2; pose proof (length_pos_Z _ Hne2); lia].
        erewrite bind_Ret
          by (apply (block_Ret index (Split k ",") (URL_Path r)
                       "Set X-Goog-Api-Key" "" "X-Goog-Api-Key");
              [exact Hm|exact Hne2|apply Hkey; auto]).
        split; reflexivity.
      * erewrite bind_Ret by reflexivity. split; [reflexivity|exact Hm].
Qed.

(** ** Headers *)

Lemma set_header_same r key v : Header (set_header r key v) !! key = Some [v].
Proof. unfold set_header, Header_Set. simpl. apply lookup_insert_eq. Qed.

Lemma set_header_other r key key' v :
  key <> key' -> Header (set_header r key v) !! key' = Header r !! key'.
Proof.
  intros H. unfold set_header, Header_Set. simpl. now apply lookup_insert_ne.
Qed.

Lemma len_zero_iff s : (0 <? len s) = false <-> s = "".
Proof.
  destruct s; unfold len; simpl; split; intros H; try reflexivity;
    discriminate.
Qed.

Lemma selected_In index tokens :
  tokens <> [] -> selectable index tokens -> In (selected index tokens) tokens.
Proof.
  intros Hne Hsel. unfold selected. apply nth_In.
  pose proof (selected_rem_bound index tokens Hne Hsel). lia.
Qed.

Lemma selectable_nonneg index tokens : 0 <= index -> selectable index tokens.
Proof.
  intros H. unfold selectable.
  destruct (Z.eq_dec (Z.of_nat (length tokens)) 0) as [E|E].
  - rewrite E. now destruct index.
  - apply Z.rem_nonneg; [exact E|exact H].
Qed.

(** ** Recognising the prefix *)

(** For a byte [d] that is not an upper-case letter, lowering [c] gives [d]
    exactly when [c] and [d] are equal up to case. *)
Lemma lower_byte_fold c d :
  is_upper (code d) = false ->
  Ascii.eqb (lower_byte c) d = byte_fold_eq c d.
Proof.
  intros Hd. unfold lower_byte, byte_fold_eq. fold (is_upper (code c)).
  rewrite Hd. rewrite andb_false_l, orb_false_r.
  destruct (is_upper (code c)) eqn:Hc; simpl.
  - unfold is_upper in *.
    apply andb_true_iff in Hc as [H1 H2]. apply Z.leb_le in H1, H2.
    destruct (Ascii.eqb_spec c d) as [->|Hne].
    + rewrite andb_true_intro in Hd by (split; apply Z.leb_le; lia).
      discriminate.
    + simpl. destruct (Z.eqb_spec (code d) (code c + 32)) as [E|E].
      * rewrite <- E. rewrite chr_code. apply Ascii.eqb_refl.
      * apply Ascii.eqb_neq. intros E'. apply E. rewrite <- E'.
        rewrite code_chr; [reflexivity|]. lia.
  - rewrite orb_false_r. reflexivity.
Qed.

Lemma prefix_cons c s d t :
  String.prefix (String c s) (String d t) = Ascii.eqb c d && String.prefix s t.
Proof.
  simpl. destruct (ascii_dec c d) as [->|Hne].
  - now rewrite Ascii.eqb_refl.
  - apply Ascii.eqb_neq in Hne. now rewrite Hne.
Qed.

Lemma prefix_lower_fold s t :
  String.length s = String.length t ->
  (forall d, In d (list_ascii_of_string t) -> is_upper (code d) = false) ->
  String.prefix t (ToLower s) = fold_eq s t.
Proof.
  revert t. induction s as [|c s IH]; intros [|d t] Hlen Hlow;
    try discriminate; [reflexivity|].
  cbn [ToLower fold_eq]. rewrite prefix_cons.
  rewrite (Ascii.eqb_sym d), lower_byte_fold by (apply Hlow; now left).
  f_equal. apply IH; [now inversion Hlen|].
  intros e He. apply Hlow. now right.
Qed.

(** The test of the handler is the comparison, up to case, of the first
    seven bytes with "bearer ". *)
Lemma hasBearerPrefix_spec h :
  hasBearerPrefix h = (7 <=? len h) && fold_eq (slice_to 7 h) "bearer ".
Proof.
  unfold hasBearerPrefix, HasPrefix.
  destruct (Z.leb_spec 7 (len h)) as [H|H]; [|reflexivity].
  rewrite !andb_true_l. apply prefix_lower_fold.
  - rewrite length_slice_to; [reflexivity|]. unfold len in H. lia.
  - intros d Hd. simpl in Hd.
    repeat (destruct Hd as [<-|Hd]; [reflexivity|]). contradiction.
Qed.

(** The two branches over the Authorization value, in the words of
    [fold_eq]. *)
Lemma authCandidates_bearer h :
  7 <= len h -> fold_eq (slice_to 7 h) "bearer " = true ->
  authCandidates h
  = Some ("Bearer ", Split (TrimSpace (slice_from 7 h)) ",").
Proof.
  intros H1 H2. unfold authCandidates. rewrite hasBearerPrefix_spec, H2.
  destruct (Z.leb_spec 7 (len h)); [reflexivity|lia].
Qed.

Lemma authCandidates_raw h :
  h <> "" -> ~ (7 <= len h /\ fold_eq (slice_to 7 h) "bearer " = true) ->
  authCandidates h = Some ("", Split h ",").
Proof.
  intros H1 H2. unfold authCandidates. rewrite hasBearerPrefix_spec.
  destruct (Z.leb_spec 7 (len h)) as [L|L].
  - destruct (fold_eq (slice_to 7 h) "bearer ") eqn:E.
    + exfalso. apply H2. now split.
    + simpl. destruct (0 <? len h) eqn:E0; [reflexivity|].
      apply len_zero_iff in E0. contradiction.
  - simpl. destruct (0 <? len h) eqn:E0; [reflexivity|].
    apply len_zero_iff in E0. contradiction.
Qed.

(** The Authorization header that the next handler sees, when the request
    carried candidates. *)
Lemma served_Authorization r a m pre tokens :
  authCandidates (Header_Get (Header r) "Authorization") = Some (pre, tokens) ->
  Header (served r a m).1.1 !! "Authorization"
  = Some [pre +:+ selected (default 0 (m !! URL_Path r)) tokens].
Proof.
  intros H. unfold served. rewrite H.
  destruct (0 <? len (Header_Get (Header r) "X-Goog-Api-Key")); cbn -[String.append].
  - rewrite lookup_insert_ne by discriminate. apply lookup_insert_eq.
  - apply lookup_insert_eq.
Qed.

(** C5. On a table that has been made and a stored position that is not
    negative, the handler returns, and the Authorization header it hands on
    is decided by the first seven bytes of the value [h] it received: if
    [h] has at least seven bytes and the first seven are "bearer " up to
    the case of the letters, the header is "Bearer " followed by one of the
    candidates of the trimmed rest; if [h] is not empty and does not start
    so, the header is one of the pieces of [h] between the commas, with
    nothing put in front. *)
Theorem C5_prefix_decides_reinjection (r : Request) (a : AuthModifier)
    (m : gmap string Z) :
  let h := Header_Get (Header r) "Authorization" in
  let index := default 0 (m !! URL_Path r) in
  Indexes a = Some m -> 0 <= index ->
  exists r' a',
    ServeHTTP r a = Ret r' a'
    /\ (7 <= len h /\ fold_eq (slice_to 7 h) "bearer " = true ->
        let tokens := Split (TrimSpace (slice_from 7 h)) "," in
        In (selected index tokens) tokens
        /\ Header r' !! "Authorization"
           = Some ["Bearer " +:+ selected index tokens])
    /\ (h <> "" /\ ~ (7 <= len h /\ fold_eq (slice_to 7 h) "bearer " = true) ->
        let tokens := Split h "," in
        In (selected index tokens) tokens
        /\ Header r' !! "Authorization" = Some [selected index tokens]).
Proof.
  intros h index Hm Hidx.
  destruct (ServeHTTP_served r a m Hm) as [Hs _].
  { intros pre tokens _. now apply selectable_nonneg. }
  { intros _. now apply selectable_nonneg. }
  eexists _, _. split; [exact Hs|]. split.
  - intros [H1 H2] tokens. split.
    + apply selected_In; [apply Split_not_nil|now apply selectable_nonneg].
    + apply (served_Authorization r a m "Bearer " tokens).
      now apply authCandidates_bearer.
  - intros [H1 H2] tokens. split.
    + apply selected_In; [apply Split_not_nil|now apply selectable_nonneg].
    + apply (served_Authorization r a m "" tokens).
      now apply authCandidates_raw.
Qed.

(** ** Two schemes in one request *)

Lemma advance_map_same m url n :
  advance_map m url n !! url
  = Some (Z.rem (Int.add (default 0 (m !! url)) 1) n).
Proof. unfold advance_map. apply lookup_insert_eq. Qed.

Lemma advance_map_other m url n k :
  k <> url -> advance_map m url n !! k = m !! k.
Proof. intros H. unfold advance_map. now apply lookup_insert_ne. Qed.

(** C7. A request that carries candidates in the Authorization header and
    in the X-Goog-Api-Key header, on a table that has been made and a
    stored position [index] that is not negative: both selections use
    [index], the value stored under the path when the request came in; the
    counter of that one key is advanced once for each of the two schemes,
    first modulo the number of Authorization candidates, then modulo the
    number of API keys; no other key changes. *)
Theorem C7_schemes_share_position (r : Request) (a : AuthModifier)
    (m : gmap string Z) (pre : string) (tokens : list string) :
  let key := URL_Path r in
  let index := default 0 (m !! key) in
  let apiKeys := Split (Header_Get (Header r) "X-Goog-Api-Key") "," in
  let n1 := Z.of_nat (length tokens) in
  let n2 := Z.of_nat (length apiKeys) in
  Indexes a = Some m -> 0 <= index ->
  authCandidates (Header_Get (Header r) "Authorization") = Some (pre, tokens) ->
  Header_Get (Header r) "X-Goog-Api-Key" <> "" ->
  exists r' a' m',
    ServeHTTP r a = Ret r' a' /\ Indexes a' = Some m'
    /\ Header r' !! "Authorization" = Some [pre +:+ selected index tokens]
    /\ Header r' !! "X-Goog-Api-Key" = Some [selected index apiKeys]
    /\ m' !! key
       = Some (Z.rem (Int.add (Z.rem (Int.add index 1) n1) 1) n2)
    /\ (forall k, k <> key -> m' !! k = m !! k)
    /\ Changed a' = true.
Proof.
  intros key index apiKeys n1 n2 Hm Hidx Hauth Hapi.
  destruct (ServeHTTP_served r a m Hm) as [Hs Hi].
  { intros ? ? _. now apply selectable_nonneg. }
  { intros _. now apply selectable_nonneg. }
  eexists _, _, _. split; [exact Hs|]. split; [exact Hi|].
  assert (Hl : (0 <? len (Header_Get (Header r) "X-Goog-Api-Key")) = true).
  { destruct (0 <? len _) eqn:E; [reflexivity|].
    apply len_zero_iff in E. contradiction. }
  split; [now apply served_Authorization|].
  unfold served. rewrite Hauth, Hl. cbn -[String.append advance_map].
  split; [apply lookup_insert_eq|]. split.
  - rewrite advance_map_same, advance_map_same. reflexivity.
  - split; [|reflexivity].
    intros k Hk. now rewrite !advance_map_other.
Qed.

(** ** UTF-8: decoding an encoded rune *)

Lemma len_cons c s : len (String c s) = 1 + len s.
Proof. unfold len. simpl String.length. lia. Qed.

Lemma len_nonneg s : 0 <= len s.
Proof. unfold len. lia. Qed.

Lemma first_two b : 0xC2 <= b <= 0xDF -> first b = 0x02.
Proof.
  intros H. unfold first.
  repeat match goal with
         | |- context [?x <? ?y] => destruct (Z.ltb_spec x y); try lia
         | |- context [?x =? ?y] => destruct (Z.eqb_spec x y); try lia
         end.
Qed.

Lemma first_three b :
  0xE0 <= b <= 0xEF ->
  first b = (if b =? 0xE0 then 0x13 else if b =? 0xED then 0x23 else 0x03).
Proof.
  intros H. unfold first.
  repeat match goal with
         | |- context [?x <? ?y] => destruct (Z.ltb_spec x y); try lia
         | |- context [?x =? ?y] => destruct (Z.eqb_spec x y); try lia
         end.
Qed.

Lemma Decode_two c0 c1 s :
  0xC2 <= code c0 <= 0xDF -> 0x80 <= code c1 <= 0xBF ->
  DecodeRuneInString (String c0 (String c1 s))
  = (Z.lor (Z.shiftl (Z.land (code c0) 0x1F) 6) (Z.land (code c1) 0x3F),
     2%nat).
Proof.
  intros H0 H1. unfold DecodeRuneInString.
  rewrite (first_two _ H0). cbn [Z.leb Z.compare Pos.compare Pos.compare_cont].
  change (Z.land 2 7) with 2. change (Z.shiftr 2 4) with 0.
  cbn [acceptRanges].
  rewrite !len_cons. pose proof (len_nonneg s).
  destruct (Z.ltb_spec (1 + (1 + len s)) 2); [lia|].
  change (at_ (String c0 (String c1 s)) 1) with (code c1).
  destruct (Z.ltb_spec (code c1) 128); [lia|].
  destruct (Z.ltb_spec 191 (code c1)); [lia|].
  reflexivity.
Qed.

Lemma Decode_three c0 c1 c2 s :
  0xE0 <= code c0 <= 0xEF ->
  (if code c0 =? 0xE0 then 0xA0 else 0x80) <= code c1
  <= (if code c0 =? 0xED then 0x9F else 0xBF) ->
  0x80 <= code c2 <= 0xBF ->
  DecodeRuneInString (String c0 (String c1 (String c2 s)))
  = (Z.lor (Z.lor (Z.shiftl (Z.land (code c0) 0x0F) 12)
                  (Z.shiftl (Z.land (code c1) 0x3F) 6))
           (Z.land (code c2) 0x3F), 3%nat).
Proof.
  intros H0 H1 H2. unfold DecodeRuneInString.
  rewrite (first_three _ H0).
  rewrite !len_cons. pose proof (len_nonneg s).
  change (at_ (String c0 (String c1 (String c2 s))) 1) with (code c1).
  change (at_ (String c0 (String c1 (String c2 s))) 2) with (code c2).
  revert H1.
  destruct (Z.eqb_spec (code c0) 0xE0) as [E|E];
    [destruct (Z.eqb_spec (code c0) 0xED) as [E'|E']; [lia|]
    |destruct (Z.eqb_spec (code c0) 0xED) as [E'|E']];
    intros H1;
    cbn [Z.leb Z.compare Pos.compare Pos.compare_cont];
    [change (Z.land 0x13 7) with 3; change (Z.shiftr 0x13 4) with 1
    |change (Z.land 0x23 7) with 3; change (Z.shiftr 0x23 4) with 2
    |change (Z.land 0x03 7) with 3; change (Z.shiftr 0x03 4) with 0];
    cbn [acceptRanges];
    (destruct (Z.ltb_spec (1 + (1 + (1 + len s))) 3); [lia|]);
    repeat match goal with
           | |- context [?x <? ?y] => destruct (Z.ltb_spec x y); try lia
           end;
    reflexivity.
Qed.

(** The runes that are spaces, one by one. *)
Lemma IsSpace_cases r :
  IsSpace r = true ->
  (0x09 <= r <= 0x0D \/ r = 0x20) \/ (r = 0x85 \/ r = 0xA0)
  \/ (r = 0x1680 \/ 0x2000 <= r <= 0x200A \/ r = 0x2028 \/ r = 0x2029
      \/ r = 0x202F \/ r = 0x205F \/ r = 0x3000).
Proof.
  unfold IsSpace. intros H.
  destruct ((0 <=? r) && (r <=? 255)) eqn:E.
  - apply andb_true_iff in E as [E1 E2]. apply Z.leb_le in E1, E2.
    rewrite !orb_true_iff, !andb_true_iff, !Z.leb_le, !Z.eqb_eq in H. lia.
  - rewrite !orb_true_iff, !andb_true_iff, !Z.leb_le, !Z.eqb_eq in H. lia.
Qed.

(** An encoded space at the start of a string is decoded as that space. *)
Lemma Decode_space r s :
  IsSpace r = true ->
  DecodeRuneInString (EncodeRune r +:+ s)
  = (r, String.length (EncodeRune r)).
Proof.
  intros H. apply IsSpace_cases in H.
  destruct H as [H|[H|H]].
  - assert (E : EncodeRune r = String (chr r) "").
    { unfold EncodeRune.
      destruct (Z.leb_spec 0 r); [|lia]. destruct (Z.leb_spec r 127); [|lia].
      reflexivity. }
    rewrite E. rewrite app_cons, app_empty_l.
    unfold DecodeRuneInString. rewrite code_chr by lia.
    unfold first. destruct (Z.ltb_spec r 128); [|lia]. reflexivity.
  - destruct H as [-> | ->]; cbn [EncodeRune]; vm_compute EncodeRune;
      rewrite !app_cons, app_empty_l;
      (rewrite Decode_two; [reflexivity|vm_compute; split; discriminate..]).
  - assert (Hr : In r [0x1680; 0x2000; 0x2001; 0x2002; 0x2003; 0x2004;
                       0x2005; 0x2006; 0x2007; 0x2008; 0x2009; 0x200A;
                       0x2028; 0x2029; 0x202F; 0x205F; 0x3000]).
    { simpl. lia. }
    simpl in Hr.
    repeat (destruct Hr as [<-|Hr];
            [vm_compute EncodeRune; rewrite !app_cons, app_empty_l;
             (rewrite Decode_three;
              [reflexivity|vm_compute; split; discriminate..])|]).
    contradiction.
Qed.

Lemma EncodeRune_length_pos r : (1 <= String.length (EncodeRune r))%nat.
Proof.
  unfold EncodeRune, enc3.
  repeat match goal with
         | |- context [if ?b then _ else _] => destruct b
         end; simpl; lia.
Qed.

(** ** [strings.TrimSpace] on a string of spaces *)

Lemma indexFunc_space_only s :
  space_only s ->
  forall fuel i, (String.length s <= fuel)%nat ->
                 indexFunc_from fuel s i IsSpace false = -1.
Proof.
  induction 1 as [|r s Hr Hs IH]; intros fuel i Hfuel.
  - destruct fuel; reflexivity.
  - pose proof (EncodeRune_length_pos r) as Hpos.
    rewrite length_app in Hfuel.
    destruct fuel as [|fuel]; [lia|].
    cbn [indexFunc_from].
    rewrite Decode_space by exact Hr. rewrite Hr. cbn [Bool.eqb].
    rewrite slice_from_app.
    destruct (EncodeRune r +:+ s) eqn:E; [reflexivity|].
    apply IH. lia.
Qed.

Lemma TrimFunc_space_only s : space_only s -> TrimFunc s IsSpace = "".
Proof.
  intros H. unfold TrimFunc, TrimLeftFunc, indexFunc.
  rewrite (indexFunc_space_only s H) by lia. reflexivity.
Qed.

Lemma space_first_byte r :
  IsSpace r = true -> 0x80 <= r ->
  exists c t, EncodeRune r = String c t /\ (RuneSelf <=? code c) = true.
Proof.
  intros H Hr. apply IsSpace_cases in H.
  assert (Hin : In r [0x85; 0xA0; 0x1680; 0x2000; 0x2001; 0x2002; 0x2003;
                      0x2004; 0x2005; 0x2006; 0x2007; 0x2008; 0x2009;
                      0x200A; 0x2028; 0x2029; 0x202F; 0x205F; 0x3000]).
  { simpl. lia. }
  simpl in Hin.
  repeat (destruct Hin as [<-|Hin];
          [vm_compute; eexists _, _; split; reflexivity|]).
  contradiction.
Qed.

Lemma TrimSpace_space_only s : space_only s -> TrimSpace s = "".
Proof.
  induction 1 as [|r s Hr Hs IH]; [reflexivity|].
  destruct (Z.lt_ge_cases r 0x80) as [Hlt|Hge].
  - assert (Hascii : (0x09 <= r <= 0x0D) \/ r = 0x20).
    { apply IsSpace_cases in Hr. lia. }
    assert (E : EncodeRune r = String (chr r) "").
    { unfold EncodeRune.
      destruct (Z.leb_spec 0 r); [|lia]. destruct (Z.leb_spec r 127); [|lia].
      reflexivity. }
    rewrite E, app_cons, app_empty_l. cbn [TrimSpace].
    rewrite code_chr by lia.
    destruct (Z.leb_spec RuneSelf r) as [L|L]; [unfold RuneSelf in L; lia|].
    assert (A : asciiSpace r = true).
    { unfold asciiSpace.
      rewrite !orb_true_iff, !andb_true_iff, !Z.leb_le, Z.eqb_eq. lia. }
    rewrite A. exact IH.
  - destruct (space_first_byte r Hr Hge) as (c & t & E & Hc).
    pose proof (TrimFunc_space_only _ (space_only_rune r s Hr Hs)) as HT.
    rewrite E, app_cons in *. cbn [TrimSpace]. rewrite Hc. exact HT.
Qed.

(** ** The Authorization value that is a prefix and spaces *)

Lemma hasBearerPrefix_app pre rest :
  String.length pre = 7%nat -> fold_eq pre "bearer " = true ->
  hasBearerPrefix (pre +:+ rest) = true.
Proof.
  intros Hlen Hfold. rewrite hasBearerPrefix_spec.
  replace (slice_to 7 (pre +:+ rest)) with pre
    by (rewrite <- Hlen; symmetry; apply slice_to_app).
  rewrite Hfold. unfold len. rewrite length_app, Hlen.
  destruct (Z.leb_spec 7 (Z.of_nat (7 + String.length rest))); [reflexivity|lia].
Qed.

Lemma bearerTokens_app pre rest :
  String.length pre = 7%nat ->
  bearerTokens (pre +:+ rest) = Split (TrimSpace rest) ",".
Proof.
  intros Hlen. unfold bearerTokens. rewrite <- Hlen.
  now rewrite slice_from_app.
Qed.

Lemma rem_one x : Z.rem x 1 = 0.
Proof. apply Z.rem_1_r. Qed.

(** C6. Only the rest after the prefix is trimmed, as a whole, and the
    pieces are not: "Bearer key1, key2" carries the prefix, its candidates
    are "key1" and " key2", the second with its space; in general the
    candidates, joined again with commas, are the trimmed rest byte for
    byte; and at the stored position 1 the handler hands on the header
    "Bearer  key2", with the space of the candidate after the space of the
    prefix. *)
Theorem C6_pieces_are_not_trimmed :
  hasBearerPrefix "Bearer key1, key2" = true
  /\ bearerTokens "Bearer key1, key2" = ["key1"; " key2"]
  /\ (forall h, Join (bearerTokens h) "," = TrimSpace (slice_from 7 h))
  /\ header_of (ServeHTTP spaced_request at_one) "Authorization"
     = Some ["Bearer  key2"].
Proof.
  split; [reflexivity|]. split; [reflexivity|]. split.
  - intros h. unfold bearerTokens. apply Join_Split.
  - vm_compute. reflexivity.
Qed.

Lemma V1_block_Ret (index : Z) (tokens : list string) (key pre hdr : string)
    (r : Request) (a : AuthModifier) (m : gmap string Z) :
  Indexes a = Some m -> tokens <> [] -> selectable index tokens ->
  (i ← int_rem index (Z.of_nat (length tokens));
   selectedToken ← slice_index tokens i;
   let r1 := set_header r hdr (pre +:+ selectedToken) in
   updateIndex key (Z.of_nat (length tokens));;
   mret r1) a
  = Ret (set_header r hdr (pre +:+ selected index tokens))
        (advanced a m key (Z.of_nat (length tokens))).
Proof.
  intros Hm Hne Hsel.
  pose proof (length_pos_Z tokens Hne) as Hpos.
  pose proof (selected_rem_bound index tokens Hne Hsel) as Hb.
  erewrite bind_Ret by (apply int_rem_Ret; lia).
  erewrite bind_Ret by (apply slice_index_Ret; exact Hb).
  cbv zeta.
  erewrite bind_Ret by (apply updateIndex_Ret; [exact Hm|lia]).
  reflexivity.
Qed.

Lemma authCandidates_spaces pre ws :
  String.length pre = 7%nat -> fold_eq pre "bearer " = true -> space_only ws ->
  authCandidates (pre +:+ ws) = Some ("Bearer ", [""]).
Proof.
  intros Hlen Hfold Hws. unfold authCandidates.
  rewrite hasBearerPrefix_app, bearerTokens_app by assumption.
  now rewrite TrimSpace_space_only.
Qed.

Lemma selected_single index s : selected index [s] = s.
Proof. unfold selected. cbn [length]. now rewrite rem_one. Qed.

(** C10. [strings.Split] never returns an empty list. So an Authorization
    value that is the prefix (seven bytes, "bearer " up to case) followed
    by spaces only has the empty string as its one candidate; on a table
    that has been made, and without an API key in the request, the handler
    returns, hands on the header "Bearer " and nothing after it, stores the
    position [0 = (p + 1) % 1] under the key and sets [Changed]. The same
    holds for the version of the handler that keys by the whole URL. *)
Theorem C10_prefix_and_spaces_rewrites_header (r : Request)
    (a : AuthModifier) (m : gmap string Z) (pre ws : string) :
  Indexes a = Some m ->
  Header_Get (Header r) "Authorization" = pre +:+ ws ->
  String.length pre = 7%nat -> fold_eq pre "bearer " = true ->
  space_only ws ->
  Header_Get (Header r) "X-Goog-Api-Key" = "" ->
  (forall s sep, (1 <= length (Split s sep))%nat)
  /\ bearerTokens (pre +:+ ws) = [""]
  /\ (exists r' a',
         ServeHTTP r a = Ret r' a'
         /\ Header r' !! "Authorization" = Some ["Bearer "]
         /\ Indexes a' = Some (<[URL_Path r := 0]> m)
         /\ Changed a' = true)
  /\ (exists r' a',
         V1.ServeHTTP r a = Ret r' a'
         /\ Header r' !! "Authorization" = Some ["Bearer "]
         /\ Indexes a' = Some (<[URL_String r := 0]> m)
         /\ Changed a' = true).
Proof.
  intros Hm Hh Hlen Hfold Hws Hk.
  pose proof (authCandidates_spaces pre ws Hlen Hfold Hws) as Hc.
  split; [apply Split_length_pos|]. split.
  { rewrite bearerTokens_app by assumption.
    now rewrite TrimSpace_space_only. }
  split.
  - destruct (ServeHTTP_served r a m Hm) as [Hs _].
    { rewrite Hh, Hc. intros ? ? [= <- <-]. unfold selectable.
      cbn [length]. rewrite rem_one. lia. }
    { rewrite Hk. intros H. now contradiction H. }
    eexists _, _. split; [exact Hs|].
    unfold served. rewrite Hh, Hc, Hk.
    change (0 <? len "") with false.
    cbn -[String.append advance_map selected].
    rewrite selected_single. split; [apply lookup_insert_eq|].
    unfold advance_map. rewrite rem_one. split; reflexivity.
  - unfold V1.ServeHTTP.
    erewrite bind_Ret by reflexivity. rewrite Hh, Hk.
    assert (Hb : hasBearerPrefix (pre +:+ ws) = true)
      by now apply hasBearerPrefix_app.
    assert (Ht : bearerTokens (pre +:+ ws) = [""]).
    { rewrite bearerTokens_app by assumption.
      now rewrite TrimSpace_space_only. }
    rewrite Hb, Ht. cbn [length Z.of_nat Pos.of_succ_nat Z.ltb Z.compare].
    erewrite bind_Ret
      by (apply (V1_block_Ret (map_get (Indexes a) (URL_String r)) [""]
                   (URL_String r) "Bearer " "Authorization" r a m);
          [exact Hm|discriminate|
           unfold selectable; cbn [length]; rewrite rem_one; lia]).
    change (0 <? len "") with false. cbv iota.
    erewrite bind_Ret by reflexivity.
    eexists _, _. split; [reflexivity|].
    rewrite selected_single. split; [apply set_header_same|].
    unfold advanced. cbn [Indexes with_Changed with_Indexes Changed].
    rewrite rem_one. split; reflexivity.
Qed.

(** ** Sizes *)

Lemma length_slice_to_le n s :
  (String.length (slice_to n s) <= String.length s)%nat.
Proof.
  revert s. induction n as [|n IH]; intros [|c s]; simpl; try lia.
  specialize (IH s). lia.
Qed.

Lemma length_slice_from_le n s :
  (String.length (slice_from n s) <= String.length s)%nat.
Proof.
  revert s. induction n as [|n IH]; intros [|c s]; simpl; try lia.
  specialize (IH s). lia.
Qed.

Lemma length_TrimRightFunc s f :
  (String.length (TrimRightFunc s f) <= String.length s)%nat.
Proof. unfold TrimRightFunc. apply length_slice_to_le. Qed.

Lemma length_TrimFunc s f :
  (String.length (TrimFunc s f) <= String.length s)%nat.
Proof.
  unfold TrimFunc. etransitivity; [apply length_TrimRightFunc|].
  unfold TrimLeftFunc. destruct (_ =? -1); [simpl; lia|].
  apply length_slice_from_le.
Qed.

Lemma length_TrimSpace_stop s stop :
  (String.length (TrimSpace_stop s stop) <= String.length s)%nat.
Proof.
  induction stop as [|stop IH]; cbn [TrimSpace_stop]; [simpl; lia|].
  destruct (RuneSelf <=? at_ s stop).
  - etransitivity; [apply length_TrimRightFunc|apply length_slice_to_le].
  - destruct (asciiSpace (at_ s stop)); [exact IH|apply length_slice_to_le].
Qed.

Lemma length_TrimSpace s :
  (String.length (TrimSpace s) <= String.length s)%nat.
Proof.
  induction s as [|c s IH]; [simpl; lia|]. cbn [TrimSpace].
  destruct (RuneSelf <=? code c); [apply length_TrimFunc|].
  destruct (asciiSpace (code c)).
  - simpl. lia.
  - apply length_TrimSpace_stop.
Qed.

Lemma length_Split s sep :
  (length (Split s sep) <= String.length s + 1)%nat.
Proof.
  induction s as [|c s IH]; simpl; [lia|].
  destruct (Ascii.eqb c sep); simpl; [lia|].
  destruct (Split s sep); simpl in *; lia.
Qed.

Lemma authCandidates_count h pre tokens :
  authCandidates h = Some (pre, tokens) ->
  1 <= Z.of_nat (length tokens) <= len h + 1.
Proof.
  intros H. pose proof (authCandidates_not_nil h pre tokens H) as Hne.
  pose proof (length_pos_Z tokens Hne). split; [lia|].
  unfold authCandidates, bearerTokens in H.
  destruct (hasBearerPrefix h); [|destruct (0 <? len h)]; [| |discriminate].
  - assert (E : tokens = Split (TrimSpace (slice_from 7 h)) ",") by congruence.
    rewrite E.
    pose proof (length_Split (TrimSpace (slice_from 7 h)) ",").
    pose proof (length_TrimSpace (slice_from 7 h)).
    pose proof (length_slice_from_le 7 h). unfold len. lia.
  - assert (E : tokens = Split h ",") by congruence. rewrite E.
    pose proof (length_Split h ","). unfold len. lia.
Qed.

(** ** Positions stay in range *)

Lemma add_one_no_wrap v : position_ok v -> Int.add v 1 = v + 1.
Proof.
  unfold position_ok, Int.MaxInt. intros H. unfold Int.add.
  apply IntFacts.wrap_id. unfold Int.is_int, Int.MinInt, Int.MaxInt. lia.
Qed.

Lemma rem_advance v n :
  position_ok v -> 1 <= n ->
  0 <= Z.rem (Int.add v 1) n < n /\ Z.rem (Int.add v 1) n = (v + 1) mod n.
Proof.
  intros Hv Hn. rewrite add_one_no_wrap by exact Hv.
  unfold position_ok in Hv.
  rewrite Z.rem_mod_nonneg by lia.
  split; [apply Z.mod_pos_bound; lia|reflexivity].
Qed.

Lemma default_position_ok (m : gmap string Z) key :
  map_Forall (fun _ v => position_ok v) m -> position_ok (default 0 (m !! key)).
Proof.
  intros H. destruct (m !! key) as [v|] eqn:E; simpl.
  - exact (H key v E).
  - unfold position_ok, Int.MaxInt. lia.
Qed.

Lemma advance_map_ok m key n :
  map_Forall (fun _ v => position_ok v) m -> 1 <= n <= Int.MaxInt ->
  map_Forall (fun _ v => position_ok v) (advance_map m key n).
Proof.
  intros Hm Hn. unfold advance_map. apply map_Forall_insert_2; [|exact Hm].
  pose proof (rem_advance _ n (default_position_ok m key Hm)) as [Hb _];
    [lia|]. unfold position_ok. lia.
Qed.

(** ** The modulus is never zero *)

Lemma never_div0_Ret {A} (x : A) a : never_div0 (Ret x a).
Proof. intros a' H. discriminate. Qed.

Lemma never_div0_bind {A B} (m : M A) (f : A -> M B) a :
  never_div0 (m a) ->
  (forall x a1, m a = Ret x a1 -> never_div0 (f x a1)) ->
  never_div0 ((m ≫= f) a).
Proof.
  intros Hm Hf. unfold mbind, M_bind.
  destruct (m a) as [x a1|p a1] eqn:E.
  - now apply Hf.
  - intros a' H. apply (Hm a'). congruence.
Qed.

Lemma never_div0_int_rem x y a : y <> 0 -> never_div0 (int_rem x y a).
Proof. intros H. rewrite int_rem_Ret by exact H. apply never_div0_Ret. Qed.

Lemma never_div0_slice_index l i a : never_div0 (slice_index l i a).
Proof.
  unfold slice_index. destruct (_ && _); [apply never_div0_Ret|].
  intros a' H. discriminate.
Qed.

Lemma never_div0_updateIndex url n a : n <> 0 -> never_div0 (updateIndex url n a).
Proof.
  intros Hn. destruct (Indexes a) as [m|] eqn:E.
  - rewrite (updateIndex_Ret url n a m E Hn). apply never_div0_Ret.
  - rewrite (updateIndex_nil url n a E Hn). intros a' H. discriminate.
Qed.

Lemma never_div0_block (index : Z) (tokens : list string)
    (key msg pre hdr : string) (r : Request) (a : AuthModifier) :
  (0 <? Z.of_nat (length tokens)) = true ->
  never_div0
    ((i ← int_rem index (Z.of_nat (length tokens));
      selectedToken ← slice_index tokens i;
      let r1 := set_header r hdr (pre +:+ selectedToken) in
      logger_Debug msg (zap_String "Auth-Key" (pre +:+ selectedToken));;
      updateIndex key (Z.of_nat (length tokens));;
      mret r1) a).
Proof.
  intros Hn. apply Z.ltb_lt in Hn.
  apply never_div0_bind; [apply never_div0_int_rem; lia|]. intros i a1 _.
  apply never_div0_bind; [apply never_div0_slice_index|]. intros t a2 _.
  cbv zeta.
  apply never_div0_bind; [apply never_div0_Ret|]. intros [] a3 _.
  apply never_div0_bind; [apply never_div0_updateIndex; lia|]. intros [] a4 _.
  apply never_div0_Ret.
Qed.

Lemma ServeHTTP_never_div0 r a : never_div0 (ServeHTTP r a).
Proof.
  unfold ServeHTTP.
  apply never_div0_bind; [apply never_div0_Ret|]. intros a0 a1 _.
  apply never_div0_bind.
  - destruct (hasBearerPrefix _).
    + destruct (0 <? Z.of_nat (length (bearerTokens _))) eqn:E;
        [|apply never_div0_Ret].
      now apply (never_div0_block _ _ _ _ "Bearer ").
    + destruct (0 <? len _); [|apply never_div0_Ret].
      destruct (0 <? Z.of_nat (length (Split _ _))) eqn:E;
        [|apply never_div0_Ret].
      now apply (never_div0_block _ _ _ _ "").
  - intros r1 a2 _.
    apply never_div0_bind; [|intros; apply never_div0_Ret].
    destruct (0 <? len _); [|apply never_div0_Ret].
    destruct (0 <? Z.of_nat (length (Split _ _))) eqn:E;
      [|apply never_div0_Ret].
    now apply (never_div0_block _ _ _ _ "").
Qed.

Lemma served_map_ok r a m :
  map_Forall (fun _ v => position_ok v) m ->
  len (Header_Get (Header r) "Authorization") < Int.MaxInt ->
  len (Header_Get (Header r) "X-Goog-Api-Key") < Int.MaxInt ->
  map_Forall (fun _ v => position_ok v) (served r a m).2.
Proof.
  intros Hm Hauth Hapi. unfold served.
  set (h := Header_Get (Header r) "Authorization") in *.
  set (k := Header_Get (Header r) "X-Goog-Api-Key") in *.
  assert (Hk : 1 <= Z.of_nat (length (Split k ",")) <= Int.MaxInt).
  { pose proof (length_Split k ","). pose proof (Split_length_pos k ",").
    unfold len in Hapi. lia. }
  destruct (authCandidates h) as [[pre tokens]|] eqn:E.
  - pose proof (authCandidates_count h pre tokens E) as Hc.
    destruct (0 <? len k); cbn [snd fst].
    + apply advance_map_ok; [|exact Hk]. apply advance_map_ok; [exact Hm|lia].
    + apply advance_map_ok; [exact Hm|lia].
  - destruct (0 <? len k); cbn [snd fst].
    + apply advance_map_ok; [exact Hm|exact Hk].
    + exact Hm.
Qed.

(** C9, as the code has it. On a table that has been made and whose
    positions all lie in [0, 2^63 - 1), that is, are not negative and are
    less than the largest [int]: each selection of the handler uses an
    index in [0, count), so no selection panics and the handler returns;
    the positions of the table it leaves lie in [0, 2^63 - 1) again;
    [updateIndex] with a count of at least one stores a value in
    [0, count); and, on any state at all, the handler never divides by
    zero, since [updateIndex] and the selections are only reached with the
    length of a list that [strings.Split] returned. (The header values are
    shorter than the largest [int].) *)
Theorem C9_positions_stay_in_range (r : Request) (a : AuthModifier)
    (m : gmap string Z) (url : string) (n : Z) :
  let index := default 0 (m !! URL_Path r) in
  let auth := Header_Get (Header r) "Authorization" in
  let api := Header_Get (Header r) "X-Goog-Api-Key" in
  Indexes a = Some m ->
  map_Forall (fun _ v => position_ok v) m ->
  len auth < Int.MaxInt -> len api < Int.MaxInt ->
  1 <= n ->
  (forall pre tokens,
      authCandidates auth = Some (pre, tokens) ->
      0 <= Z.rem index (Z.of_nat (length tokens)) < Z.of_nat (length tokens))
  /\ (api <> "" ->
      0 <= Z.rem index (Z.of_nat (length (Split api ",")))
      < Z.of_nat (length (Split api ",")))
  /\ (exists r' a' m',
         ServeHTTP r a = Ret r' a' /\ Indexes a' = Some m'
         /\ map_Forall (fun _ v => position_ok v) m')
  /\ (exists a' v,
         updateIndex url n a = Ret tt a'
         /\ Indexes a' = Some (<[url := v]> m) /\ 0 <= v < n)
  /\ (forall r0 a0 a', ServeHTTP r0 a0 <> Panicked DivideByZero a').
Proof.
  intros index auth api Hm Hok Hauth Hapi Hn.
  assert (Hidx : 0 <= index).
  { pose proof (default_position_ok m (URL_Path r) Hok) as H.
    unfold position_ok in H. fold index in H. lia. }
  split; [|split; [|split; [|split]]].
  - intros pre tokens Hc. apply selected_rem_bound.
    + eapply authCandidates_not_nil; exact Hc.
    + now apply selectable_nonneg.
  - intros _. apply selected_rem_bound; [apply Split_not_nil|].
    now apply selectable_nonneg.
  - destruct (ServeHTTP_served r a m Hm) as [Hs Hi].
    { intros ? ? _. now apply selectable_nonneg. }
    { intros _. now apply selectable_nonneg. }
    eexists _, _, _. split; [exact Hs|]. split; [exact Hi|].
    now apply served_map_ok.
  - eexists _, _. split; [apply (updateIndex_Ret url n a m Hm); lia|].
    split; [reflexivity|].
    apply rem_advance; [|exact Hn]. now apply default_position_ok.
  - intros r0 a0 a'. apply ServeHTTP_never_div0.
Qed.

(** The largest [int] is a position that is not negative, and from it the
    step overflows: with three candidates [updateIndex] stores [-2], which
    is not in [0, 3). The request is served, the table it leaves has a
    negative position, and the next request with three candidates panics
    in its selection. *)
Lemma C9_counterexample :
  map_Forall (fun _ v => 0 <= v) ({["/" := Int.MaxInt]} : gmap string Z)
  /\ (Indexes (state_of (updateIndex "/" 3 overflow_state))
      = Some {["/" := -2]}
      /\ panic_of (updateIndex "/" 3 overflow_state) = None)
  /\ ~ (0 <= -2 < 3)
  /\ (Indexes (state_of (ServeHTTP overflow_request overflow_state))
      = Some {["/" := -2]}
      /\ panic_of (ServeHTTP overflow_request overflow_state) = None)
  /\ ~ map_Forall (fun _ v => 0 <= v) ({["/" := -2]} : gmap string Z)
  /\ panic_of
       (ServeHTTP overflow_request
          (state_of (ServeHTTP overflow_request overflow_state)))
     = Some IndexOutOfRange.
Proof.
  split.
  { apply map_Forall_singleton. unfold Int.MaxInt. lia. }
  split.
  { split; [|reflexivity]. vm_compute. reflexivity. }
  split; [lia|]. split.
  { split; [|reflexivity]. vm_compute. reflexivity. }
  split.
  { intros H. apply map_Forall_singleton in H. lia. }
  reflexivity.
Qed.

(** ** Round robin *)

Lemma one_list_not_nil r hdr pre cands :
  one_list r = Some (hdr, pre, cands) -> cands <> [].
Proof.
  unfold one_list.
  destruct (authCandidates _) as [[p t]|] eqn:E; destruct (0 <? len _);
    intros H; try discriminate.
  - assert (cands = t) by congruence. subst.
    eapply authCandidates_not_nil; exact E.
  - assert (cands = Split (Header_Get (Header r) "X-Goog-Api-Key") ",")
      by congruence. subst. apply Split_not_nil.
Qed.

Lemma rotating_pos key n r : rotating key n r -> 1 <= n.
Proof.
  intros (_ & hdr & pre & cands & H & <-).
  pose proof (length_pos_Z cands (one_list_not_nil _ _ _ _ H)). lia.
Qed.

(** One request with one list, at a stored position [p] below the count:
    the candidate at [p] is selected and [(p + 1) mod n] is stored. *)
Lemma ServeHTTP_one_list r a m hdr pre cands :
  let n := Z.of_nat (length cands) in
  let p := default 0 (m !! URL_Path r) in
  Indexes a = Some m -> one_list r = Some (hdr, pre, cands) ->
  0 <= p < n -> n <= Int.MaxInt ->
  exists r' a',
    ServeHTTP r a = Ret r' a'
    /\ Header r' !! hdr = Some [pre +:+ nth (Z.to_nat p) cands ""]
    /\ Indexes a' = Some (<[URL_Path r := (p + 1) mod n]> m)
    /\ Changed a' = true.
Proof.
  intros n p Hm Hone Hp Hn.
  destruct (ServeHTTP_served r a m Hm) as [Hs _].
  { intros ? ? _. apply selectable_nonneg. fold p. lia. }
  { intros _. apply selectable_nonneg. fold p. lia. }
  eexists _, _. split; [exact Hs|].
  assert (Hrem : Z.rem p n = p) by (apply Z.rem_small; lia).
  assert (Hadv : Z.rem (Int.add p 1) n = (p + 1) mod n).
  { apply rem_advance; [|lia]. unfold position_ok. lia. }
  unfold one_list in Hone. unfold served. fold p.
  destruct (authCandidates _) as [[pre' tokens]|] eqn:E;
    destruct (0 <? len _) eqn:El; try discriminate.
  - assert (hdr = "Authorization" /\ pre' = pre /\ tokens = cands)
      as (-> & -> & ->) by (repeat split; congruence).
    cbn -[String.append advance_map selected].
    unfold selected, advance_map. fold n p. rewrite Hrem, Hadv.
    split; [apply lookup_insert_eq|]. split; reflexivity.
  - assert (hdr = "X-Goog-Api-Key" /\ pre = ""
            /\ cands = Split (Header_Get (Header r) "X-Goog-Api-Key") ",")
      as (-> & -> & Hc) by (repeat split; congruence).
    rewrite <- Hc.
    cbn -[String.append advance_map selected].
    unfold selected, advance_map. fold n p. rewrite Hrem, Hadv.
    split; [apply lookup_insert_eq|]. split; reflexivity.
Qed.

Lemma serveAll_rotating key n rs :
  Forall (rotating key n) rs -> 1 <= n <= Int.MaxInt ->
  forall a m,
    Indexes a = Some m -> 0 <= default 0 (m !! key) < n ->
    exists outs a1 m1,
      serveAll rs a = Ret outs a1 /\ Indexes a1 = Some m1
      /\ default 0 (m1 !! key)
         = (default 0 (m !! key) + Z.of_nat (length rs)) mod n.
Proof.
  intros Hrs Hn. induction Hrs as [|r rs Hr Hrs IH]; intros a m Hm Hp.
  - exists [], a, m. split; [reflexivity|]. split; [exact Hm|].
    cbn [length Z.of_nat]. rewrite Z.add_0_r, Z.mod_small; lia.
  - destruct Hr as (Hkey & hdr & pre & cands & Hone & Hlen).
    destruct (ServeHTTP_one_list r a m hdr pre cands Hm Hone)
      as (r' & a' & Hs & _ & Hi & _).
    { rewrite Hkey, Hlen. exact Hp. }
    { rewrite Hlen. lia. }
    rewrite Hkey, Hlen in Hi.
    destruct (IH a' _ Hi) as (outs & a1 & m1 & Hall & Hi1 & Hp1).
    { rewrite lookup_insert_eq. cbn [default].
      apply Z.mod_pos_bound. lia. }
    exists (r' :: outs), a1, m1. split.
    + cbn [serveAll]. erewrite bind_Ret by exact Hs.
      erewrite bind_Ret by exact Hall. reflexivity.
    + split; [exact Hi1|]. rewrite Hp1.
      rewrite lookup_insert_eq. cbn [from_option id length].
      rewrite Z.add_mod_idemp_l by lia. f_equal. lia.
Qed.

(** C1. From a table that has no entry for [key], serve any sequence [rs]
    of requests for [key] that carry one list of [n] candidates each, and
    then one more, [r]. All of them return. When [r] comes in, the stored
    position is [i mod n], for [i] the number of requests served before;
    the candidate handed on is the one at that very position (read, then
    increment), and the position stored afterwards is [(i + 1) mod n]. So
    the positions used are 0, 1, ..., n-1, 0, 1, ... *)
Theorem C1_round_robin (key : string) (n : Z) (rs : list Request)
    (r : Request) (a : AuthModifier) (m : gmap string Z) :
  Indexes a = Some m -> m !! key = None -> n <= Int.MaxInt ->
  Forall (rotating key n) rs -> rotating key n r ->
  let i := Z.of_nat (length rs) in
  exists outs a1 m1,
    serveAll rs a = Ret outs a1 /\ Indexes a1 = Some m1
    /\ map_get (Indexes a1) key = i mod n
    /\ exists hdr pre cands r' a2,
         one_list r = Some (hdr, pre, cands)
         /\ ServeHTTP r a1 = Ret r' a2
         /\ Header r' !! hdr
            = Some [pre +:+ nth (Z.to_nat (i mod n)) cands ""]
         /\ Indexes a2 = Some (<[key := (i mod n + 1) mod n]> m1)
         /\ map_get (Indexes a2) key = (i + 1) mod n
         /\ Changed a2 = true.
Proof.
  intros Hm Hfresh Hmax Hrs Hr i.
  pose proof (rotating_pos key n r Hr) as Hn.
  destruct (serveAll_rotating key n rs Hrs (conj Hn Hmax) a m Hm)
    as (outs & a1 & m1 & Hall & Hi1 & Hp1).
  { rewrite Hfresh. cbn [default]. lia. }
  rewrite Hfresh in Hp1. cbn [default] in Hp1. rewrite Z.add_0_l in Hp1.
  fold i in Hp1.
  exists outs, a1, m1. split; [exact Hall|]. split; [exact Hi1|].
  split; [rewrite Hi1; exact Hp1|].
  destruct Hr as (Hkey & hdr & pre & cands & Hone & Hlen).
  destruct (ServeHTTP_one_list r a1 m1 hdr pre cands Hi1 Hone)
    as (r' & a2 & Hs & Hh & Hi2 & Hc).
  { rewrite Hkey, Hlen, Hp1. apply Z.mod_pos_bound. lia. }
  { rewrite Hlen. exact Hmax. }
  rewrite Hkey, Hp1 in Hh. rewrite Hkey, Hlen, Hp1 in Hi2.
  exists hdr, pre, cands, r', a2.
  split; [exact Hone|]. split; [exact Hs|]. split; [exact Hh|].
  split; [exact Hi2|]. split; [|exact Hc].
  rewrite Hi2. unfold map_get. rewrite lookup_insert_eq.
  cbn [from_option id].
  rewrite Z.add_mod_idemp_l by lia. reflexivity.
Qed.

(** ** Flushing the table *)

Lemma Marshal_total v : exists data, Json.Marshal v = inl data.
Proof. destruct v; eexists; reflexivity. Qed.

(** C2. [saveIndexes], in both versions of the package, whatever the
    table, the file system and the fate of the write:
    - when [Changed] is false, nothing happens: the state and the file
      system, with its record of the calls made, are the same, so no file
      was written;
    - when [Changed] is true, the table is serialized to some [data], and
      the flush is as [flushes] says: a write that succeeds clears
      [Changed] and leaves [data] in the file; a write that fails leaves
      [Changed] true, so that the next flush writes again, and when that
      write succeeds [Changed] is cleared and the file holds [data]. *)
Theorem C2_flush_if_dirty (a : AuthModifier) (w : World) (res : WriteResult)
    (left : option node) :
  (Changed a = false ->
   saveIndexes res a w = (a, w) /\ V1.saveIndexes res a w = (a, w))
  /\ (Changed a = true ->
      exists data,
        Json.Marshal (Indexes a) = inl data
        /\ flushes saveIndexes (IndexPath a) a w left data
        /\ flushes V1.saveIndexes "indexes.json" a w left data).
Proof.
  split.
  - intros H. unfold saveIndexes, V1.saveIndexes. rewrite H. now split.
  - intros H. destruct (Marshal_total (Indexes a)) as [data Hd].
    exists data. split; [exact Hd|].
    split; unfold flushes, saveIndexes, V1.saveIndexes; rewrite H;
      cbn [negb]; rewrite Hd;
      (split;
       [cbn; repeat split; apply lookup_insert_eq
       |destruct left as [n|]; cbn; rewrite Hd; cbn;
        repeat split; apply lookup_insert_eq]).
Qed.

(** ** Loading the table *)

(** C3. [loadIndexes] and [Provision], in both versions of the package:
    [Provision] returns no error, whatever the path, the file system and
    the fate of the directory; when there is no file under the path,
    [loadIndexes] leaves an empty table and logs nothing; when there is a
    file whose content [Unmarshal] rejects, [loadIndexes] logs the error as
    "Error parsing indexes file" and leaves an empty table. *)
Theorem C3_load_never_fails (a : AuthModifier) (w : World)
    (mk : option error) :
  (Provision mk a w).2 = None
  /\ (V1.Provision a w).2 = None
  /\ (files w !! IndexPath a = None ->
      loadIndexes a w = with_Indexes a (Some ∅))
  /\ (files w !! "indexes.json" = None ->
      V1.loadIndexes a w = with_Indexes a (Some ∅))
  /\ (forall data err,
         Json.Unmarshal data (Indexes a) = inr err ->
         (files w !! IndexPath a = Some (File data) ->
          loadIndexes a w
          = with_Indexes (log_Error a "Error parsing indexes file" err)
              (Some ∅))
         /\ (files w !! "indexes.json" = Some (File data) ->
             V1.loadIndexes a w
             = with_Indexes (log_Error a "Error parsing indexes file" err)
                 (Some ∅))).
Proof.
  split; [reflexivity|]. split; [reflexivity|]. split; [|split].
  - intros H. unfold loadIndexes, ReadFile. now rewrite H.
  - intros H. unfold V1.loadIndexes, ReadFile. now rewrite H.
  - intros data err He. split; intros H.
    + unfold loadIndexes, ReadFile. now rewrite H, He.
    + unfold V1.loadIndexes, ReadFile. now rewrite H, He.
Qed.

(** A snapshot that holds the JSON value [null] is not a parse error:
    [json.Unmarshal] sets the map to [nil], nothing is logged, and the first
    request with candidates panics in [updateIndex], on the assignment to
    an entry in a [nil] map. The theorems about the handler are stated for a
    table that has been made. *)
Lemma null_snapshot_leaves_nil_table :
  Indexes (loadIndexes fresh_state null_world) = None
  /\ logger (loadIndexes fresh_state null_world) = []
  /\ panic_of (ServeHTTP bearer3 (loadIndexes fresh_state null_world))
     = Some NilMapAssignment.
Proof. repeat split; vm_compute; reflexivity. Qed.

(** ** JSON: numbers *)

Lemma span_digits_uint d tail :
  no_digit_ahead tail ->
  span_digits (NilEmpty.string_of_uint d +:+ tail)
  = (NilEmpty.string_of_uint d, tail).
Proof.
  intros Htail. induction d as [|d IH|d IH|d IH|d IH|d IH|d IH|d IH|d IH|d IH|d IH];
    cbn [NilEmpty.string_of_uint];
    try (rewrite app_cons; cbn [span_digits];
         change (is_digit (code _)) with true; cbv iota; now rewrite IH).
  rewrite app_empty_l. destruct tail as [|c t]; [reflexivity|].
  cbn [span_digits]. cbn in Htail. now rewrite Htail.
Qed.

Lemma to_uint_no_leading_zero p d : Pos.to_uint p <> Decimal.D0 d.
Proof.
  intros H.
  assert (Hn : Decimal.unorm (Pos.to_uint p) = Pos.to_uint p).
  { rewrite <- (DecimalPos.Unsigned.to_of (Pos.to_uint p)).
    rewrite DecimalPos.Unsigned.of_to. reflexivity. }
  rewrite H in Hn. unfold Decimal.unorm in Hn.
  rewrite DecimalFacts.nzhead_D0 in Hn.
  destruct (Decimal.nzhead d) eqn:E; try discriminate.
  - inversion Hn; subst. now apply (Unsigned.to_uint_nonzero p).
  - exact (DecimalFacts.nzhead_nonzero _ _ E).
Qed.

Lemma scan_uint_pos p tail :
  no_digit_ahead tail ->
  scan_uint (NilEmpty.string_of_uint (Pos.to_uint p) +:+ tail)
  = Some (Z.pos p, tail).
Proof.
  intros Htail. unfold scan_uint. rewrite span_digits_uint by exact Htail.
  pose proof (Unsigned.to_uint_nonnil p) as Hnil.
  pose proof (to_uint_no_leading_zero p) as Hz.
  pose proof (NilEmpty.usu (Pos.to_uint p)) as Hu.
  pose proof (DecimalPos.Unsigned.of_to p) as Hof.
  destruct (Pos.to_uint p) as [|d|d|d|d|d|d|d|d|d|d] eqn:E;
    try contradiction; try (now exfalso; apply (Hz d));
    cbn [NilEmpty.string_of_uint] in *;
    change (code _ =? 48) with false; cbv iota; cbn [andb];
    rewrite Hu; unfold Z.of_uint; rewrite Hof; reflexivity.
Qed.

Lemma FormatInt_pos p :
  FormatInt (Z.pos p) = NilEmpty.string_of_uint (Pos.to_uint p).
Proof.
  unfold FormatInt. cbn [Z.to_int NilZero.string_of_int].
  unfold NilZero.string_of_uint.
  pose proof (Unsigned.to_uint_nonnil p).
  destruct (Pos.to_uint p); [contradiction|reflexivity..].
Qed.

Lemma FormatInt_neg p :
  FormatInt (Z.neg p)
  = String "-" (NilEmpty.string_of_uint (Pos.to_uint p)).
Proof.
  unfold FormatInt. cbn [Z.to_int NilZero.string_of_int].
  unfold NilZero.string_of_uint.
  pose proof (Unsigned.to_uint_nonnil p).
  destruct (Pos.to_uint p); [contradiction|reflexivity..].
Qed.

(** The first byte of a written number: a digit or the minus sign. *)
Lemma string_of_uint_first d :
  d <> Decimal.Nil ->
  exists c t, NilEmpty.string_of_uint d = String c t
              /\ is_digit (code c) = true.
Proof.
  intros H. destruct d; [contradiction|..];
    cbn [NilEmpty.string_of_uint]; eexists _, _; split; reflexivity.
Qed.

(** A written number is read back, when the input goes on with something
    that is not a digit. *)
Lemma scan_int_FormatInt v tail :
  Int.is_int v -> no_digit_ahead tail ->
  scan_int (FormatInt v +:+ tail) = Some (v, tail).
Proof.
  intros Hv Htail. unfold Int.is_int, Int.MinInt, Int.MaxInt in Hv.
  destruct v as [|p|p].
  - change (FormatInt 0) with "0". rewrite app_cons, app_empty_l.
    unfold scan_int. change (code "0" =? 45) with false. cbv iota.
    unfold scan_uint.
    change (String "0" tail) with (NilEmpty.string_of_uint (Decimal.D0 Decimal.Nil) +:+ tail).
    rewrite span_digits_uint by exact Htail. reflexivity.
  - rewrite FormatInt_pos.
    destruct (string_of_uint_first _ (Unsigned.to_uint_nonnil p))
      as (c & t & E & Hc).
    pose proof (scan_uint_pos p tail Htail) as Hs.
    rewrite E, app_cons in *. unfold scan_int.
    assert (Hm : (code c =? 45) = false).
    { unfold is_digit in Hc. apply andb_true_iff in Hc as [H1 H2].
      apply Z.leb_le in H1, H2. apply Z.eqb_neq. lia. }
    rewrite Hm, Hs.
    destruct (Z.ltb_spec Int.MaxInt (Z.pos p)) as [L|L];
      [unfold Int.MaxInt in L; lia|reflexivity].
  - rewrite FormatInt_neg, app_cons. unfold scan_int.
    change (code "-" =? 45) with true. cbv iota.
    rewrite (scan_uint_pos p tail Htail).
    change (- Z.pos p) with (Z.neg p).
    destruct (Z.ltb_spec (Z.neg p) Int.MinInt) as [L|L];
      [unfold Int.MinInt in L; lia|reflexivity].
Qed.

(** A written number does not start like [null]. *)
Lemma scan_value_FormatInt v tail :
  Int.is_int v -> no_digit_ahead tail ->
  scan_value (FormatInt v +:+ tail) = Some (v, tail).
Proof.
  intros Hv Htail. rewrite <- (scan_int_FormatInt v tail Hv Htail).
  assert (Hfirst : exists c t, FormatInt v +:+ tail = String c t
                               /\ (code c =? 110) = false).
  { destruct v as [|p|p].
    - eexists _, _. split; reflexivity.
    - rewrite FormatInt_pos.
      destruct (string_of_uint_first _ (Unsigned.to_uint_nonnil p))
        as (c & t & E & Hc).
      rewrite E, app_cons. eexists _, _. split; [reflexivity|].
      unfold is_digit in Hc. apply andb_true_iff in Hc as [H1 H2].
      apply Z.leb_le in H1, H2. apply Z.eqb_neq. lia.
    - rewrite FormatInt_neg, app_cons. eexists _, _. split; reflexivity. }
  destruct Hfirst as (c & t & E & Hc). rewrite E.
  unfold scan_value. rewrite Hc. cbn [andb].
  destruct t as [|c1 [|c2 [|c3 t]]]; reflexivity.
Qed.

(** ** UTF-8: encoding a decoded rune *)

Lemma lor_add hi lo k :
  0 <= k -> 0 <= lo < 2 ^ k -> Z.lor (hi * 2 ^ k) lo = hi * 2 ^ k + lo.
Proof.
  intros Hk Hlo.
  assert (Hland : Z.land (hi * 2 ^ k) lo = 0).
  { apply Z.bits_inj'. intros n Hn. rewrite Z.land_spec, Z.bits_0.
    destruct (Z.lt_ge_cases n k) as [L|L].
    - rewrite Z.mul_pow2_bits_low by lia. reflexivity.
    - destruct (Z.eq_dec lo 0) as [->|Hne].
      + rewrite Z.bits_0. apply andb_false_r.
      + rewrite (Z.bits_above_log2 lo n), andb_false_r; [reflexivity|lia|].
        assert (Z.log2 lo < k) by (apply Z.log2_lt_pow2; lia). lia. }
  pose proof (Z.add_lor_land (hi * 2 ^ k) lo) as H. lia.
Qed.

Lemma land_mod b k : 0 <= k -> Z.land b (2 ^ k - 1) = b mod 2 ^ k.
Proof.
  intros Hk. rewrite <- Z.land_ones by exact Hk. f_equal.
  rewrite Z.ones_equiv. lia.
Qed.

Lemma land_63 b : Z.land b 0x3F = b mod 64.
Proof. apply (land_mod b 6). lia. Qed.
Lemma land_31 b : Z.land b 0x1F = b mod 32.
Proof. apply (land_mod b 5). lia. Qed.
Lemma land_15 b : Z.land b 0x0F = b mod 16.
Proof. apply (land_mod b 4). lia. Qed.
Lemma land_7 b : Z.land b 0x07 = b mod 8.
Proof. apply (land_mod b 3). lia. Qed.

Lemma shiftl_6 x : Z.shiftl x 6 = x * 64.
Proof. now rewrite Z.shiftl_mul_pow2 by lia. Qed.
Lemma shiftl_12 x : Z.shiftl x 12 = x * 4096.
Proof. now rewrite Z.shiftl_mul_pow2 by lia. Qed.
Lemma shiftl_18 x : Z.shiftl x 18 = x * 262144.
Proof. now rewrite Z.shiftl_mul_pow2 by lia. Qed.
Lemma shiftr_6 x : Z.shiftr x 6 = x / 64.
Proof. now rewrite Z.shiftr_div_pow2 by lia. Qed.
Lemma shiftr_12 x : Z.shiftr x 12 = x / 4096.
Proof. now rewrite Z.shiftr_div_pow2 by lia. Qed.
Lemma shiftr_18 x : Z.shiftr x 18 = x / 262144.
Proof. now rewrite Z.shiftr_div_pow2 by lia. Qed.

Lemma lor_64 hi lo : 0 <= lo < 64 -> Z.lor (hi * 64) lo = hi * 64 + lo.
Proof. intros H. apply (lor_add hi lo 6); lia. Qed.
Lemma lor_4096 hi lo :
  0 <= lo < 4096 -> Z.lor (hi * 4096) lo = hi * 4096 + lo.
Proof. intros H. apply (lor_add hi lo 12); lia. Qed.
Lemma lor_262144 hi lo :
  0 <= lo < 262144 -> Z.lor (hi * 262144) lo = hi * 262144 + lo.
Proof. intros H. apply (lor_add hi lo 18); lia. Qed.

Lemma lor_0x80 x : 0 <= x < 64 -> Z.lor 0x80 x = 0x80 + x.
Proof. intros H. apply (lor_add 2 x 6); lia. Qed.
Lemma lor_0xC0 x : 0 <= x < 64 -> Z.lor 0xC0 x = 0xC0 + x.
Proof. intros H. apply (lor_add 3 x 6); lia. Qed.
Lemma lor_0xE0 x : 0 <= x < 16 -> Z.lor 0xE0 x = 0xE0 + x.
Proof. intros H. apply (lor_add 14 x 4); lia. Qed.
Lemma lor_0xF0 x : 0 <= x < 8 -> Z.lor 0xF0 x = 0xF0 + x.
Proof. intros H. apply (lor_add 30 x 3); lia. Qed.

Lemma decoded2 b0 b1 :
  0xC2 <= b0 <= 0xDF -> cont b1 ->
  Z.lor (Z.shiftl (Z.land b0 0x1F) 6) (Z.land b1 0x3F) = value2 b0 b1.
Proof.
  unfold cont, value2. intros H0 H1.
  rewrite land_31, land_63, shiftl_6.
  replace (b0 mod 32) with (b0 - 0xC0) by (apply Z.mod_unique with 6; lia).
  replace (b1 mod 64) with (b1 - 0x80) by (apply Z.mod_unique with 2; lia).
  apply lor_64. lia.
Qed.

Lemma decoded3 b0 b1 b2 :
  0xE0 <= b0 <= 0xEF -> cont b1 -> cont b2 ->
  Z.lor (Z.lor (Z.shiftl (Z.land b0 0x0F) 12) (Z.shiftl (Z.land b1 0x3F) 6))
        (Z.land b2 0x3F)
  = value3 b0 b1 b2.
Proof.
  unfold cont, value3. intros H0 H1 H2.
  rewrite land_15, !land_63, shiftl_6, shiftl_12.
  replace (b0 mod 16) with (b0 - 0xE0) by (apply Z.mod_unique with 14; lia).
  replace (b1 mod 64) with (b1 - 0x80) by (apply Z.mod_unique with 2; lia).
  replace (b2 mod 64) with (b2 - 0x80) by (apply Z.mod_unique with 2; lia).
  rewrite lor_4096 by lia.
  replace ((b0 - 224) * 4096 + (b1 - 128) * 64)
    with (((b0 - 224) * 64 + (b1 - 128)) * 64) by lia.
  rewrite lor_64 by lia. lia.
Qed.

Lemma decoded4 b0 b1 b2 b3 :
  0xF0 <= b0 <= 0xF4 -> cont b1 -> cont b2 -> cont b3 ->
  Z.lor (Z.lor (Z.lor (Z.shiftl (Z.land b0 0x07) 18)
                      (Z.shiftl (Z.land b1 0x3F) 12))
               (Z.shiftl (Z.land b2 0x3F) 6))
        (Z.land b3 0x3F)
  = value4 b0 b1 b2 b3.
Proof.
  unfold cont, value4. intros H0 H1 H2 H3.
  rewrite land_7, !land_63, shiftl_6, shiftl_12, shiftl_18.
  replace (b0 mod 8) with (b0 - 0xF0) by (apply Z.mod_unique with 30; lia).
  replace (b1 mod 64) with (b1 - 0x80) by (apply Z.mod_unique with 2; lia).
  replace (b2 mod 64) with (b2 - 0x80) by (apply Z.mod_unique with 2; lia).
  replace (b3 mod 64) with (b3 - 0x80) by (apply Z.mod_unique with 2; lia).
  rewrite lor_262144 by lia.
  replace ((b0 - 240) * 262144 + (b1 - 128) * 4096)
    with (((b0 - 240) * 64 + (b1 - 128)) * 4096) by lia.
  rewrite lor_4096 by lia.
  replace (((b0 - 240) * 64 + (b1 - 128)) * 4096 + (b2 - 128) * 64)
    with ((((b0 - 240) * 64 + (b1 - 128)) * 64 + (b2 - 128)) * 64) by lia.
  rewrite lor_64 by lia. lia.
Qed.

(** *** What [DecodeRuneInString] returns, by the first byte *)

Ltac cases_on_tests :=
  repeat match goal with
         | |- context [?x <? ?y] => destruct (Z.ltb_spec x y); try lia
         | |- context [?x <=? ?y] => destruct (Z.leb_spec x y); try lia
         | |- context [?x =? ?y] => destruct (Z.eqb_spec x y); try lia
         end.

Lemma first_four b :
  0xF0 <= b <= 0xF4 ->
  first b = (if b =? 0xF0 then 0x34 else if b =? 0xF4 then 0x44 else 0x04).
Proof. intros H. unfold first. cases_on_tests; reflexivity. Qed.

Lemma first_invalid b : 0x80 <= b < 0xC2 \/ 0xF5 <= b -> first b = 0xF1.
Proof. intros H. unfold first. cases_on_tests; reflexivity. Qed.

Lemma Decode_invalid_lead c0 rest :
  0x80 <= code c0 < 0xC2 \/ 0xF5 <= code c0 ->
  DecodeRuneInString (String c0 rest) = (RuneError, 1%nat).
Proof.
  intros H. unfold DecodeRuneInString. rewrite (first_invalid _ H).
  reflexivity.
Qed.

Lemma Decode_lead2 c0 rest :
  0xC2 <= code c0 <= 0xDF ->
  DecodeRuneInString (String c0 rest)
  = match rest with
    | String c1 _ =>
        if between 0x80 0xBF (code c1)
        then (Z.lor (Z.shiftl (Z.land (code c0) 0x1F) 6)
                    (Z.land (code c1) 0x3F), 2%nat)
        else (RuneError, 1%nat)
    | "" => (RuneError, 1%nat)
    end.
Proof.
  intros H0. destruct rest as [|c1 t].
  - unfold DecodeRuneInString. rewrite (first_two _ H0). reflexivity.
  - unfold between.
    destruct (Z.leb_spec 0x80 (code c1)) as [L1|L1];
      [destruct (Z.leb_spec (code c1) 0xBF) as [L2|L2]|]; cbn [andb].
    + apply Decode_two; lia.
    + unfold DecodeRuneInString. rewrite (first_two _ H0).
      cbn [Z.leb Z.compare Pos.compare Pos.compare_cont].
      change (Z.land 2 7) with 2. change (Z.shiftr 2 4) with 0.
      cbn [acceptRanges]. rewrite !len_cons. pose proof (len_nonneg t).
      change (at_ (String c0 (String c1 t)) 1) with (code c1).
      cases_on_tests; reflexivity.
    + unfold DecodeRuneInString. rewrite (first_two _ H0).
      cbn [Z.leb Z.compare Pos.compare Pos.compare_cont].
      change (Z.land 2 7) with 2. change (Z.shiftr 2 4) with 0.
      cbn [acceptRanges]. rewrite !len_cons. pose proof (len_nonneg t).
      change (at_ (String c0 (String c1 t)) 1) with (code c1).
      cases_on_tests; reflexivity.
Qed.

Lemma Decode_lead3 c0 rest :
  0xE0 <= code c0 <= 0xEF ->
  DecodeRuneInString (String c0 rest)
  = match rest with
    | String c1 (String c2 _) =>
        if between (lo3 (code c0)) (hi3 (code c0)) (code c1)
           && between 0x80 0xBF (code c2)
        then (Z.lor (Z.lor (Z.shiftl (Z.land (code c0) 0x0F) 12)
                           (Z.shiftl (Z.land (code c1) 0x3F) 6))
                    (Z.land (code c2) 0x3F), 3%nat)
        else (RuneError, 1%nat)
    | _ => (RuneError, 1%nat)
    end.
Proof.
  intros H0. unfold DecodeRuneInString, between, lo3, hi3.
  rewrite (first_three _ H0).
  destruct rest as [|c1 [|c2 t]].
  - destruct (code c0 =? 224); [|destruct (code c0 =? 237)]; reflexivity.
  - destruct (code c0 =? 224); [|destruct (code c0 =? 237)]; reflexivity.
  - rewrite !len_cons. pose proof (len_nonneg t).
    change (at_ (String c0 (String c1 (String c2 t))) 1) with (code c1).
    change (at_ (String c0 (String c1 (String c2 t))) 2) with (code c2).
    (destruct (Z.eqb_spec (code c0) 0xE0) as [E|E];
     destruct (Z.eqb_spec (code c0) 0xED) as [E'|E']; try lia);
      cbn [Z.leb Z.compare Pos.compare Pos.compare_cont];
      [change (Z.land 0x13 7) with 3; change (Z.shiftr 0x13 4) with 1
      |change (Z.land 0x23 7) with 3; change (Z.shiftr 0x23 4) with 2
      |change (Z.land 0x03 7) with 3; change (Z.shiftr 0x03 4) with 0];
      cbn [acceptRanges];
      (destruct (Z.ltb_spec (1 + (1 + (1 + len t))) 3); [lia|]);
      cases_on_tests; reflexivity.
Qed.

Lemma Decode_lead4 c0 rest :
  0xF0 <= code c0 <= 0xF4 ->
  DecodeRuneInString (String c0 rest)
  = match rest with
    | String c1 (String c2 (String c3 _)) =>
        if between (lo4 (code c0)) (hi4 (code c0)) (code c1)
           && between 0x80 0xBF (code c2) && between 0x80 0xBF (code c3)
        then (Z.lor (Z.lor (Z.lor (Z.shiftl (Z.land (code c0) 0x07) 18)
                                  (Z.shiftl (Z.land (code c1) 0x3F) 12))
                           (Z.shiftl (Z.land (code c2) 0x3F) 6))
                    (Z.land (code c3) 0x3F), 4%nat)
        else (RuneError, 1%nat)
    | _ => (RuneError, 1%nat)
    end.
Proof.
  intros H0. unfold DecodeRuneInString, between, lo4, hi4.
  rewrite (first_four _ H0).
  destruct rest as [|c1 [|c2 [|c3 t]]].
  - destruct (code c0 =? 240); [|destruct (code c0 =? 244)]; reflexivity.
  - destruct (code c0 =? 240); [|destruct (code c0 =? 244)];
      cbn [Z.leb Z.compare Pos.compare Pos.compare_cont Z.land Pos.land
           Z.shiftr Z.shiftl Z.ltb Z.opp Pos.div2 acceptRanges];
      reflexivity.
  - pose proof (code_range c1).
    change (at_ (String c0 (String c1 (String c2 ""))) 1) with (code c1).
    change (at_ (String c0 (String c1 (String c2 ""))) 2) with (code c2).
    destruct (Z.eqb_spec (code c0) 0xF0) as [E|E];
      [|destruct (Z.eqb_spec (code c0) 0xF4) as [E'|E']];
      cbn [Z.leb Z.compare Pos.compare Pos.compare_cont];
      [change (Z.land 0x34 7) with 4; change (Z.shiftr 0x34 4) with 3
      |change (Z.land 0x44 7) with 4; change (Z.shiftr 0x44 4) with 4
      |change (Z.land 0x04 7) with 4; change (Z.shiftr 0x04 4) with 0];
      cbn [acceptRanges];
      change (len (String c0 (String c1 (String c2 "")))) with 3;
      reflexivity.
  - rewrite !len_cons. pose proof (len_nonneg t).
    change (at_ (String c0 (String c1 (String c2 (String c3 t)))) 1)
      with (code c1).
    change (at_ (String c0 (String c1 (String c2 (String c3 t)))) 2)
      with (code c2).
    change (at_ (String c0 (String c1 (String c2 (String c3 t)))) 3)
      with (code c3).
    (destruct (Z.eqb_spec (code c0) 0xF0) as [E|E];
     destruct (Z.eqb_spec (code c0) 0xF4) as [E'|E']; try lia);
      cbn [Z.leb Z.compare Pos.compare Pos.compare_cont];
      [change (Z.land 0x34 7) with 4; change (Z.shiftr 0x34 4) with 3
      |change (Z.land 0x44 7) with 4; change (Z.shiftr 0x44 4) with 4
      |change (Z.land 0x04 7) with 4; change (Z.shiftr 0x04 4) with 0];
      cbn [acceptRanges];
      (destruct (Z.ltb_spec (1 + (1 + (1 + (1 + len t)))) 4); [lia|]);
      cases_on_tests; reflexivity.
Qed.

(** *** The encoding of the value of a valid sequence is that sequence *)

Lemma between_true lo hi b : between lo hi b = true <-> lo <= b <= hi.
Proof. unfold between. rewrite andb_true_iff, !Z.leb_le. tauto. Qed.

Lemma Encode_value2 c0 c1 :
  0xC2 <= code c0 <= 0xDF -> cont (code c1) ->
  EncodeRune (value2 (code c0) (code c1)) = String c0 (String c1 "").
Proof.
  unfold cont. intros H0 H1.
  set (r := value2 (code c0) (code c1)).
  assert (Hr : 0x80 <= r <= 0x7FF) by (unfold r, value2; lia).
  assert (Hd : r / 64 = code c0 - 0xC0).
  { unfold r, value2. Z.to_euclidean_division_equations. lia. }
  assert (Hm : r mod 64 = code c1 - 0x80).
  { unfold r, value2. Z.to_euclidean_division_equations. lia. }
  unfold EncodeRune.
  destruct (Z.leb_spec 0 r); [|lia]. destruct (Z.leb_spec r 0x7F); [lia|].
  destruct (Z.leb_spec r 0x7FF); [|lia]. cbn [andb].
  rewrite shiftr_6, land_63, Hd, Hm, lor_0xC0, lor_0x80 by lia.
  replace (0xC0 + (code c0 - 0xC0)) with (code c0) by lia.
  replace (0x80 + (code c1 - 0x80)) with (code c1) by lia.
  now rewrite !chr_code.
Qed.

Lemma Encode_value3 c0 c1 c2 :
  0xE0 <= code c0 <= 0xEF ->
  lo3 (code c0) <= code c1 <= hi3 (code c0) -> cont (code c2) ->
  EncodeRune (value3 (code c0) (code c1) (code c2))
  = String c0 (String c1 (String c2 "")).
Proof.
  unfold cont, lo3, hi3. intros H0 H1 H2.
  set (r := value3 (code c0) (code c1) (code c2)).
  assert (Hc1 : 0x80 <= code c1 <= 0xBF).
  { revert H1. cases_on_tests; lia. }
  assert (Hr : 0x800 <= r <= 0xFFFF /\ ~ (0xD800 <= r <= 0xDFFF)).
  { revert H1. unfold r, value3. cases_on_tests; lia. }
  assert (Hd : r / 4096 = code c0 - 0xE0).
  { unfold r, value3. Z.to_euclidean_division_equations. lia. }
  assert (Hd' : (r / 64) mod 64 = code c1 - 0x80).
  { unfold r, value3. Z.to_euclidean_division_equations. lia. }
  assert (Hm : r mod 64 = code c2 - 0x80).
  { unfold r, value3. Z.to_euclidean_division_equations. lia. }
  unfold EncodeRune, MaxRune.
  destruct (Z.leb_spec 0 r); [|lia]. destruct (Z.leb_spec r 0x7F); [lia|].
  destruct (Z.leb_spec r 0x7FF); [lia|]. cbn [andb].
  destruct (Z.ltb_spec r 0); [lia|]. destruct (Z.ltb_spec 0x10FFFF r); [lia|].
  cbn [orb].
  assert (Hs : ((0xD800 <=? r) && (r <=? 0xDFFF)) = false).
  { destruct (Z.leb_spec 0xD800 r); [|reflexivity].
    destruct (Z.leb_spec r 0xDFFF); [lia|reflexivity]. }
  rewrite Hs. destruct (Z.leb_spec r 0xFFFF); [|lia].
  unfold enc3.
  rewrite shiftr_12, shiftr_6, !land_63, Hd, Hd', Hm, lor_0xE0, !lor_0x80
    by lia.
  replace (0xE0 + (code c0 - 0xE0)) with (code c0) by lia.
  replace (0x80 + (code c1 - 0x80)) with (code c1) by lia.
  replace (0x80 + (code c2 - 0x80)) with (code c2) by lia.
  now rewrite !chr_code.
Qed.

Lemma Encode_value4 c0 c1 c2 c3 :
  0xF0 <= code c0 <= 0xF4 ->
  lo4 (code c0) <= code c1 <= hi4 (code c0) ->
  cont (code c2) -> cont (code c3) ->
  EncodeRune (value4 (code c0) (code c1) (code c2) (code c3))
  = String c0 (String c1 (String c2 (String c3 ""))).
Proof.
  unfold cont, lo4, hi4. intros H0 H1 H2 H3.
  set (r := value4 (code c0) (code c1) (code c2) (code c3)).
  assert (Hc1 : 0x80 <= code c1 <= 0xBF).
  { revert H1. cases_on_tests; lia. }
  assert (Hr : 0x10000 <= r <= 0x10FFFF).
  { revert H1. unfold r, value4. cases_on_tests; lia. }
  assert (Hd : r / 262144 = code c0 - 0xF0).
  { unfold r, value4. Z.to_euclidean_division_equations. lia. }
  assert (Hd1 : (r / 4096) mod 64 = code c1 - 0x80).
  { unfold r, value4. Z.to_euclidean_division_equations. lia. }
  assert (Hd2 : (r / 64) mod 64 = code c2 - 0x80).
  { unfold r, value4. Z.to_euclidean_division_equations. lia. }
  assert (Hm : r mod 64 = code c3 - 0x80).
  { unfold r, value4. Z.to_euclidean_division_equations. lia. }
  unfold EncodeRune, MaxRune.
  destruct (Z.leb_spec 0 r); [|lia]. destruct (Z.leb_spec r 0x7F); [lia|].
  destruct (Z.leb_spec r 0x7FF); [lia|]. cbn [andb].
  destruct (Z.ltb_spec r 0); [lia|]. destruct (Z.ltb_spec 0x10FFFF r); [lia|].
  cbn [orb].
  assert (Hs : ((0xD800 <=? r) && (r <=? 0xDFFF)) = false).
  { destruct (Z.leb_spec 0xD800 r); [|reflexivity].
    destruct (Z.leb_spec r 0xDFFF); [lia|reflexivity]. }
  rewrite Hs. destruct (Z.leb_spec r 0xFFFF); [lia|].
  rewrite shiftr_18, shiftr_12, shiftr_6, !land_63, Hd, Hd1, Hd2, Hm,
    lor_0xF0, !lor_0x80 by lia.
  replace (0xF0 + (code c0 - 0xF0)) with (code c0) by lia.
  replace (0x80 + (code c1 - 0x80)) with (code c1) by lia.
  replace (0x80 + (code c2 - 0x80)) with (code c2) by lia.
  replace (0x80 + (code c3 - 0x80)) with (code c3) by lia.
  now rewrite !chr_code.
Qed.

Lemma Decode_valid c0 rest r size :
  0x80 <= code c0 ->
  DecodeRuneInString (String c0 rest) = (r, size) ->
  is_error r size = false ->
  encoded_at (String c0 rest) r size.
Proof.
  intros Hhigh Hdec Herr. pose proof (code_range c0) as Hc0.
  assert (Hbad : (RuneError, 1%nat) = (r, size) -> False).
  { intros [= <- <-]. discriminate Herr. }
  destruct (Z.lt_ge_cases (code c0) 0xC2) as [L1|L1];
    [|destruct (Z.le_gt_cases (code c0) 0xDF) as [L2|L2];
      [|destruct (Z.le_gt_cases (code c0) 0xEF) as [L3|L3];
        [|destruct (Z.le_gt_cases (code c0) 0xF4) as [L4|L4]]]].
  - rewrite Decode_invalid_lead in Hdec by lia. now apply Hbad in Hdec.
  - rewrite Decode_lead2 in Hdec by lia.
    destruct rest as [|c1 t]; [now apply Hbad in Hdec|].
    destruct (between 128 191 (code c1)) eqn:B;
      [|now apply Hbad in Hdec].
    pose proof B as B'. apply between_true in B'.
    rewrite decoded2 in Hdec by (unfold cont; lia).
    injection Hdec as <- <-.
    pose proof (Encode_value2 c0 c1 ltac:(lia) B') as E.
    constructor; rewrite E.
    + reflexivity.
    + reflexivity.
    + repeat constructor; lia.
    + intros t'. rewrite !app_cons, app_empty_l, Decode_lead2, B by lia.
      now rewrite decoded2 by (unfold cont; lia).
  - rewrite Decode_lead3 in Hdec by lia.
    destruct rest as [|c1 [|c2 t]]; try (now apply Hbad in Hdec).
    destruct (between (lo3 (code c0)) (hi3 (code c0)) (code c1)) eqn:B1;
      [|now apply Hbad in Hdec].
    destruct (between 128 191 (code c2)) eqn:B2;
      [|now apply Hbad in Hdec].
    pose proof B1 as B1'. apply between_true in B1'.
    pose proof B2 as B2'. apply between_true in B2'.
    assert (Hc1 : cont (code c1)).
    { revert B1'. unfold cont, lo3, hi3. cases_on_tests; lia. }
    cbn [andb] in Hdec. rewrite decoded3 in Hdec by (assumption || lia).
    injection Hdec as <- <-.
    pose proof (Encode_value3 c0 c1 c2 ltac:(lia) B1' B2')
      as E.
    constructor; rewrite E.
    + reflexivity.
    + reflexivity.
    + unfold cont in *. repeat constructor; lia.
    + intros t'. rewrite !app_cons, app_empty_l, Decode_lead3, B1, B2 by lia.
      cbn [andb]. now rewrite decoded3 by (assumption || lia).
  - rewrite Decode_lead4 in Hdec by lia.
    destruct rest as [|c1 [|c2 [|c3 t]]]; try (now apply Hbad in Hdec).
    destruct (between (lo4 (code c0)) (hi4 (code c0)) (code c1)) eqn:B1;
      [|now apply Hbad in Hdec].
    destruct (between 128 191 (code c2)) eqn:B2;
      [|now apply Hbad in Hdec].
    destruct (between 128 191 (code c3)) eqn:B3;
      [|now apply Hbad in Hdec].
    pose proof B1 as B1'. apply between_true in B1'.
    pose proof B2 as B2'. apply between_true in B2'.
    pose proof B3 as B3'. apply between_true in B3'.
    assert (Hc1 : cont (code c1)).
    { revert B1'. unfold cont, lo4, hi4. cases_on_tests; lia. }
    cbn [andb] in Hdec. rewrite decoded4 in Hdec by (assumption || lia).
    injection Hdec as <- <-.
    pose proof (Encode_value4 c0 c1 c2 c3 ltac:(lia) B1' B2' B3') as E.
    constructor; rewrite E.
    + reflexivity.
    + reflexivity.
    + unfold cont in *. repeat constructor; lia.
    + intros t'.
      rewrite !app_cons, app_empty_l, Decode_lead4, B1, B2, B3 by lia.
      cbn [andb]. now rewrite decoded4 by (assumption || lia).
  - rewrite Decode_invalid_lead in Hdec by lia. now apply Hbad in Hdec.
Qed.

(** ** JSON: strings *)

Lemma prepend_app p q o : prepend p (prepend q o) = prepend (p +:+ q) o.
Proof. destruct o as [[lit rest]|]; cbn; [|reflexivity]. now rewrite app_assoc. Qed.

Lemma scan_plain c s :
  0x20 <= code c -> code c <> 0x22 -> code c <> 0x5C ->
  scan_string InString (String c s)
  = prepend (String c "") (scan_string InString s).
Proof.
  intros H1 H2 H3. cbn [scan_string].
  destruct (Z.eqb_spec (code c) 34); [contradiction|].
  destruct (Z.eqb_spec (code c) 92); [contradiction|].
  destruct (Z.ltb_spec (code c) 32); [lia|].
  destruct (scan_string InString s) as [[lit rest]|]; reflexivity.
Qed.

Lemma scan_high raw s :
  Forall (fun c => 0x80 <= code c) (list_ascii_of_string raw) ->
  scan_string InString (raw +:+ s) = prepend raw (scan_string InString s).
Proof.
  induction raw as [|c raw IH]; intros H.
  - rewrite app_empty_l. destruct (scan_string InString s) as [[? ?]|];
      reflexivity.
  - cbn [list_ascii_of_string] in H. inversion H as [|? ? Hc Hraw]; subst.
    rewrite app_cons, scan_plain, IH by (assumption || lia).
    rewrite prepend_app. reflexivity.
Qed.

Lemma scan_escape e s :
  simple_escape (code e) = true ->
  scan_string InString (String backslash (String e s))
  = prepend (String backslash (String e "")) (scan_string InString s).
Proof.
  intros H. unfold simple_escape in H. cbn [scan_string].
  change (code backslash) with 92.
  cbn [Z.eqb Z.ltb Z.compare Pos.eqb Pos.compare Pos.compare_cont].
  rewrite H.
  destruct (scan_string InString s) as [[lit rest]|]; reflexivity.
Qed.

Lemma scan_escape_u h1 h2 h3 h4 s :
  is_hex (code h1) = true -> is_hex (code h2) = true ->
  is_hex (code h3) = true -> is_hex (code h4) = true ->
  scan_string InString
    (String backslash (String "u" (String h1 (String h2 (String h3
       (String h4 s))))))
  = prepend (String backslash (String "u" (String h1 (String h2 (String h3
               (String h4 ""))))))
      (scan_string InString s).
Proof.
  intros H1 H2 H3 H4. cbn [scan_string].
  change (code backslash) with 92. change (code "u") with 117.
  cbn [Z.eqb Z.ltb Z.compare Pos.eqb Pos.compare Pos.compare_cont orb
       Nat.ltb Nat.leb].
  rewrite H1, H2, H3, H4.
  destruct (scan_string InString s) as [[lit rest]|]; reflexivity.
Qed.

Lemma is_hex_hexdigit n : 0 <= n < 16 -> is_hex (code (hexdigit n)) = true.
Proof.
  intros H. unfold hexdigit, is_hex.
  destruct (Z.ltb_spec n 10).
  - rewrite code_chr by lia.
    destruct (Z.leb_spec 48 (48 + n)); [|lia].
    destruct (Z.leb_spec (48 + n) 57); [|lia]. reflexivity.
  - rewrite code_chr by lia.
    destruct (Z.leb_spec 97 (97 + (n - 10))); [|lia].
    destruct (Z.leb_spec (97 + (n - 10)) 102); [|lia].
    cbn [andb]. now rewrite orb_true_r.
Qed.

Lemma nibbles b :
  0 <= b < 256 -> 0 <= Z.shiftr b 4 < 16 /\ 0 <= Z.land b 0xF < 16
                  /\ Z.shiftr b 4 * 16 + Z.land b 0xF = b.
Proof.
  intros H. rewrite Z.shiftr_div_pow2 by lia. rewrite land_15.
  change (2 ^ 4) with 16. Z.to_euclidean_division_equations. lia.
Qed.

(** The scanner accepts what [appendString] writes, up to the closing
    quote. *)
Lemma scan_escape_byte c s :
  code c < 0x80 -> htmlSafeSet (code c) = false ->
  scan_string InString (escape_byte c +:+ s)
  = prepend (escape_byte c) (scan_string InString s).
Proof.
  intros Hc Hsafe. pose proof (code_range c) as Hr. unfold escape_byte.
  destruct ((code c =? 92) || (code c =? 34)) eqn:E1.
  { rewrite !app_cons, app_empty_l. apply scan_escape.
    unfold simple_escape. apply orb_true_iff in E1 as [E|E]; rewrite E;
      rewrite ?orb_true_r; reflexivity. }
  destruct (code c =? 8); [apply (scan_escape "b"); reflexivity|].
  destruct (code c =? 12); [apply (scan_escape "f"); reflexivity|].
  destruct (code c =? 10); [apply (scan_escape "n"); reflexivity|].
  destruct (code c =? 13); [apply (scan_escape "r"); reflexivity|].
  destruct (code c =? 9); [apply (scan_escape "t"); reflexivity|].
  destruct (nibbles (code c) Hr) as (N1 & N2 & _).
  rewrite !app_cons, !app_empty_l.
  apply scan_escape_u; try reflexivity; now apply is_hex_hexdigit.
Qed.

Ltac norm_app := repeat (rewrite app_cons || rewrite app_empty_l).

Lemma encoded_slice_to s r size :
  encoded_at s r size -> slice_to size s = EncodeRune r.
Proof.
  intros [Hsplit Hlen _ _]. rewrite Hsplit, <- Hlen. apply slice_to_app.
Qed.

Lemma htmlSafeSet_plain b :
  htmlSafeSet b = true -> 0x20 <= b /\ b <> 0x22 /\ b <> 0x5C.
Proof.
  unfold htmlSafeSet.
  rewrite !andb_true_iff, negb_true_iff, !orb_false_iff, !Z.eqb_neq,
    Z.leb_le. intros [[H1 _] [[[[H2 H3] _] _] _]]. auto.
Qed.

Lemma scan_appendString fuel : forall src tail,
  scan_string InString (appendString_from fuel src +:+ String quote tail)
  = Some (appendString_from fuel src, tail).
Proof.
  induction fuel as [|fuel IH]; intros src tail; [reflexivity|].
  destruct src as [|c rest]; [reflexivity|]. cbn [appendString_from].
  destruct (code c <? RuneSelf) eqn:Hascii.
  - destruct (htmlSafeSet (code c)) eqn:Hsafe.
    + destruct (htmlSafeSet_plain _ Hsafe) as (H1 & H2 & H3).
      rewrite app_cons, scan_plain, IH by assumption. reflexivity.
    + apply Z.ltb_lt in Hascii.
      rewrite app_assoc, scan_escape_byte, IH by assumption. reflexivity.
  - apply Z.ltb_ge in Hascii. unfold RuneSelf in Hascii.
    destruct (DecodeRuneInString (String c rest)) as [r size] eqn:D.
    destruct ((r =? RuneError) && (size =? 1)%nat) eqn:Herr.
    { norm_app. rewrite scan_escape_u, IH by reflexivity. reflexivity. }
    destruct ((r =? 8232) || (r =? 8233)) eqn:Hsep.
    { norm_app. rewrite scan_escape_u, IH; try reflexivity.
      apply is_hex_hexdigit. rewrite land_15.
      apply Z.mod_pos_bound. lia. }
    pose proof (Decode_valid c rest r size Hascii D Herr) as Henc.
    rewrite (encoded_slice_to _ _ _ Henc), app_assoc.
    rewrite scan_high, IH by apply (enc_high _ _ _ Henc). reflexivity.
Qed.

(** *** Reading back what was written *)

Lemma getu4_bytes h1 h2 h3 h4 s d1 d2 d3 d4 :
  unhex (code h1) = Some d1 -> unhex (code h2) = Some d2 ->
  unhex (code h3) = Some d3 -> unhex (code h4) = Some d4 ->
  getu4 (String backslash (String "u" (String h1 (String h2 (String h3
           (String h4 s))))))
  = ((d1 * 16 + d2) * 16 + d3) * 16 + d4.
Proof.
  intros H1 H2 H3 H4. unfold getu4.
  change (code backslash) with 92. change (code "u") with 117.
  cbn [Z.eqb Pos.eqb andb]. now rewrite H1, H2, H3, H4.
Qed.

Lemma unhex_hexdigit n : 0 <= n < 16 -> unhex (code (hexdigit n)) = Some n.
Proof.
  intros H. unfold hexdigit, unhex.
  destruct (Z.ltb_spec n 10).
  - rewrite code_chr by lia.
    destruct (Z.leb_spec 48 (48 + n)); [|lia].
    destruct (Z.leb_spec (48 + n) 57); [|lia]. cbn [andb]. f_equal. lia.
  - rewrite code_chr by lia.
    destruct (Z.leb_spec 48 (97 + (n - 10))); [|lia].
    destruct (Z.leb_spec (97 + (n - 10)) 57); [lia|].
    destruct (Z.leb_spec 97 (97 + (n - 10))); [|lia].
    destruct (Z.leb_spec (97 + (n - 10)) 102); [|lia].
    cbn [andb]. f_equal. lia.
Qed.

(** One step of [unquote_from] over each kind of chunk. *)
Lemma unquote_plain fuel c s :
  0x20 <= code c < 0x80 -> code c <> 0x22 -> code c <> 0x5C ->
  unquote_from (S fuel) (String c s) = String c <$> unquote_from fuel s.
Proof.
  intros H1 H2 H3. cbn [unquote_from].
  destruct (Z.eqb_spec (code c) 92); [contradiction|].
  destruct (Z.eqb_spec (code c) 34); [contradiction|].
  destruct (Z.ltb_spec (code c) 32); [lia|]. cbn [orb].
  unfold RuneSelf. destruct (Z.ltb_spec (code c) 128); [|lia].
  reflexivity.
Qed.

Lemma unquote_high fuel r size t :
  (forall t', DecodeRuneInString (EncodeRune r +:+ t') = (r, size)) ->
  String.length (EncodeRune r) = size ->
  Forall (fun c => 0x80 <= code c) (list_ascii_of_string (EncodeRune r)) ->
  unquote_from (S fuel) (EncodeRune r +:+ t)
  = String.app (EncodeRune r) <$> unquote_from fuel t.
Proof.
  intros Hdec Hlen Hhigh.
  pose proof (Hdec t) as Hd.
  pose proof (slice_from_app (EncodeRune r) t) as Hs. rewrite Hlen in Hs.
  pose proof (EncodeRune_length_pos r) as Hpos.
  destruct (EncodeRune r) as [|c e] eqn:E; [simpl in Hpos; lia|].
  inversion Hhigh as [|? ? Hc _]; subst.
  rewrite app_cons in *. cbn [unquote_from].
  destruct (Z.eqb_spec (code c) 92); [lia|].
  destruct (Z.eqb_spec (code c) 34); [lia|].
  destruct (Z.ltb_spec (code c) 32); [lia|]. cbn [orb].
  unfold RuneSelf. destruct (Z.ltb_spec (code c) 128); [lia|].
  rewrite Hd, Hs, ?E. reflexivity.
Qed.

Lemma unquote_escape_u fuel h1 h2 h3 h4 s d1 d2 d3 d4 :
  unhex (code h1) = Some d1 -> unhex (code h2) = Some d2 ->
  unhex (code h3) = Some d3 -> unhex (code h4) = Some d4 ->
  let rr := ((d1 * 16 + d2) * 16 + d3) * 16 + d4 in
  0 <= rr -> IsSurrogate rr = false ->
  unquote_from (S fuel)
    (String backslash (String "u" (String h1 (String h2 (String h3
       (String h4 s))))))
  = String.app (EncodeRune rr) <$> unquote_from fuel s.
Proof.
  intros H1 H2 H3 H4 rr Hpos Hsur.
  pose proof (getu4_bytes h1 h2 h3 h4 s d1 d2 d3 d4 H1 H2 H3 H4) as Hg.
  fold rr in Hg.
  cbn [unquote_from]. change (code backslash) with 92.
  change (code "u") with 117.
  cbn [Z.eqb Pos.eqb orb].
  change (String (chr 92) (String "u" (String h1 (String h2 (String h3
            (String h4 s))))))
    with (String backslash (String "u" (String h1 (String h2 (String h3
            (String h4 s)))))).
  rewrite Hg. destruct (Z.ltb_spec rr 0); [lia|]. rewrite Hsur.
  reflexivity.
Qed.

Lemma chr_of_code c b : code c = b -> c = chr b.
Proof. intros <-. symmetry. apply chr_code. Qed.

Lemma EncodeRune_ascii b :
  0 <= b < 0x80 -> EncodeRune b = String (chr b) "".
Proof.
  intros H. unfold EncodeRune.
  destruct (Z.leb_spec 0 b); [|lia]. destruct (Z.leb_spec b 127); [|lia].
  reflexivity.
Qed.

Lemma unquote_escape_byte fuel c s :
  code c < 0x80 -> htmlSafeSet (code c) = false ->
  unquote_from (S fuel) (escape_byte c +:+ s)
  = String c <$> unquote_from fuel s.
Proof.
  intros Hc Hsafe. pose proof (code_range c) as Hr. unfold escape_byte.
  destruct ((code c =? 92) || (code c =? 34)) eqn:E1.
  { norm_app. cbn [unquote_from]. change (code backslash) with 92.
    cbn [Z.eqb Pos.eqb].
    assert (E : ((code c =? 34) || (code c =? 92) || (code c =? 47)
                 || (code c =? 39)) = true).
    { apply orb_true_iff in E1 as [E|E]; rewrite E;
        rewrite ?orb_true_r; reflexivity. }
    rewrite E. reflexivity. }
  destruct (Z.eqb_spec (code c) 8) as [E|_];
    [rewrite (chr_of_code c 8 E); reflexivity|].
  destruct (Z.eqb_spec (code c) 12) as [E|_];
    [rewrite (chr_of_code c 12 E); reflexivity|].
  destruct (Z.eqb_spec (code c) 10) as [E|_];
    [rewrite (chr_of_code c 10 E); reflexivity|].
  destruct (Z.eqb_spec (code c) 13) as [E|_];
    [rewrite (chr_of_code c 13 E); reflexivity|].
  destruct (Z.eqb_spec (code c) 9) as [E|_];
    [rewrite (chr_of_code c 9 E); reflexivity|].
  destruct (nibbles (code c) Hr) as (N1 & N2 & N3).
  norm_app.
  rewrite (unquote_escape_u fuel "0" "0" _ _ s 0 0 (Z.shiftr (code c) 4)
             (Z.land (code c) 0xF));
    try reflexivity; try (now apply unhex_hexdigit).
  - replace (((0 * 16 + 0) * 16 + Z.shiftr (code c) 4) * 16
             + Z.land (code c) 15) with (code c) by lia.
    rewrite EncodeRune_ascii by lia. rewrite chr_code.
    destruct (unquote_from fuel s); reflexivity.
  - lia.
  - replace (((0 * 16 + 0) * 16 + Z.shiftr (code c) 4) * 16
             + Z.land (code c) 15) with (code c) by lia.
    unfold IsSurrogate. destruct (Z.leb_spec 55296 (code c)); [lia|].
    reflexivity.
Qed.

Lemma escape_byte_length c : (1 <= String.length (escape_byte c))%nat.
Proof.
  unfold escape_byte.
  repeat match goal with
         | |- context [if ?b then _ else _] => destruct b
         end; rewrite ?length_app; simpl; lia.
Qed.

Lemma Decode_ascii c rest :
  code c < 0x80 -> DecodeRuneInString (String c rest) = (code c, 1%nat).
Proof.
  intros H. pose proof (code_range c). unfold DecodeRuneInString, first.
  destruct (Z.ltb_spec (code c) 128); [|lia]. reflexivity.
Qed.

Lemma fmap_Some_app pre (o : option string) s :
  o = Some s -> String.app pre <$> o = Some (pre +:+ s).
Proof. now intros ->. Qed.

(** [unquote] gives back the string that [appendString] has written,
    when that string is valid UTF-8. *)
Lemma unquote_appendString fuel : forall src,
  valid_from fuel src = true ->
  forall fuel2,
    (String.length (appendString_from fuel src) <= fuel2)%nat ->
    unquote_from fuel2 (appendString_from fuel src) = Some src.
Proof.
  induction fuel as [|fuel IH]; intros src Hv fuel2 Hf.
  { destruct src; [|discriminate]. now destruct fuel2. }
  destruct src as [|c rest]; [now destruct fuel2|].
  cbn [valid_from] in Hv. cbn [appendString_from] in *.
  destruct (code c <? RuneSelf) eqn:Hascii.
  - apply Z.ltb_lt in Hascii. unfold RuneSelf in Hascii.
    rewrite Decode_ascii in Hv by exact Hascii.
    pose proof (code_range c) as Hr.
    assert (Hv' : valid_from fuel rest = true).
    { destruct ((code c =? RuneError) && (1 =? 1)%nat); [discriminate|].
      exact Hv. }
    destruct (htmlSafeSet (code c)) eqn:Hsafe.
    + destruct (htmlSafeSet_plain _ Hsafe) as (H1 & H2 & H3).
      destruct fuel2 as [|f2]; [simpl in Hf; lia|].
      rewrite unquote_plain by (assumption || lia).
      rewrite (IH rest Hv' f2) by (simpl in Hf; lia). reflexivity.
    + pose proof (escape_byte_length c) as Hl.
      rewrite length_app in Hf.
      destruct fuel2 as [|f2]; [lia|].
      rewrite unquote_escape_byte by assumption.
      rewrite (IH rest Hv' f2) by lia. reflexivity.
  - apply Z.ltb_ge in Hascii. unfold RuneSelf in Hascii.
    destruct (DecodeRuneInString (String c rest)) as [r size] eqn:D.
    destruct ((r =? RuneError) && (size =? 1)%nat) eqn:Herr;
      [discriminate|].
    pose proof (Decode_valid c rest r size Hascii D Herr) as Henc.
    pose proof (EncodeRune_length_pos r) as Hpos.
    destruct ((r =? 8232) || (r =? 8233)) eqn:Hsep.
    + revert Hf. norm_app. intros Hf.
      destruct fuel2 as [|f2]; [simpl in Hf; lia|].
      assert (Hr : r = 8232 \/ r = 8233).
      { apply orb_true_iff in Hsep as [E|E]; apply Z.eqb_eq in E; auto. }
      rewrite (unquote_escape_u f2 "2" "0" "2" _ _ 2 0 2 (Z.land r 15));
        try reflexivity.
      * replace (((2 * 16 + 0) * 16 + 2) * 16 + Z.land r 15) with r
          by (destruct Hr as [-> | ->]; reflexivity).
        rewrite (enc_split _ _ _ Henc) at 2.
        apply fmap_Some_app. apply IH; [exact Hv|].
        simpl in Hf. lia.
      * apply unhex_hexdigit. rewrite land_15. apply Z.mod_pos_bound. lia.
      * destruct Hr as [-> | ->]; vm_compute; discriminate.
      * destruct Hr as [-> | ->]; reflexivity.
    + rewrite (encoded_slice_to _ _ _ Henc) in *.
      rewrite length_app in Hf.
      destruct fuel2 as [|f2]; [lia|].
      rewrite (unquote_high f2 r size)
        by (apply Henc).
      rewrite (enc_split _ _ _ Henc) at 2.
      apply fmap_Some_app. apply IH; [exact Hv|]. lia.
Qed.

(** ** JSON: the table *)

Lemma skip_space_id c s :
  isSpace (code c) = false -> skip_space (String c s) = String c s.
Proof. intros H. cbn [skip_space]. now rewrite H. Qed.

Lemma FormatInt_first v tail :
  exists c t, FormatInt v +:+ tail = String c t
              /\ isSpace (code c) = false.
Proof.
  destruct v as [|p|p].
  - eexists _, _. split; reflexivity.
  - rewrite FormatInt_pos.
    destruct (string_of_uint_first _ (Unsigned.to_uint_nonnil p))
      as (c & t & E & Hc).
    rewrite E, app_cons. eexists _, _. split; [reflexivity|].
    unfold is_digit in Hc. apply andb_true_iff in Hc as [H1 H2].
    apply Z.leb_le in H1, H2. unfold isSpace.
    rewrite !orb_false_iff, !Z.eqb_neq. lia.
  - rewrite FormatInt_neg, app_cons. eexists _, _. split; reflexivity.
Qed.

Lemma after_entry_no_digit tail : after_entry tail -> no_digit_ahead tail.
Proof.
  destruct tail as [|d t]; [contradiction|]. cbn.
  unfold is_digit. intros [-> | ->]; reflexivity.
Qed.

(** One entry, as [members] reads it. *)
Lemma members_entry fuel k v d tail m0 :
  entry_ok (k, v) -> code d = 0x2C \/ code d = 0x7D ->
  members (S fuel) (encode_entry (k, v) +:+ String d tail) m0
  = if code d =? 0x2C
    then members fuel (skip_space tail) (<[k := v]> m0)
    else Some (<[k := v]> m0, tail).
Proof.
  intros [Hk Hv] Hd. cbn [fst snd] in *.
  unfold encode_entry, appendString. cbn [fst snd].
  rewrite !app_assoc. norm_app. cbn [members].
  change (code quote) with 34. cbn [Z.eqb Pos.eqb negb].
  rewrite scan_appendString.
  unfold unquote.
  rewrite unquote_appendString by (exact Hk || lia).
  rewrite skip_space_id by reflexivity.
  change (code ":" =? 58) with true. cbn [negb].
  destruct (FormatInt_first v (String d tail)) as (c & t & E & Hc).
  rewrite E, (skip_space_id c t Hc), <- E.
  rewrite scan_value_FormatInt
    by (exact Hv || (apply after_entry_no_digit; exact Hd)).
  rewrite skip_space_id.
  - destruct Hd as [-> | ->]; reflexivity.
  - unfold isSpace. destruct Hd as [-> | ->]; reflexivity.
Qed.

Lemma encode_entry_first kv s :
  exists t, encode_entry kv +:+ s = String quote t.
Proof.
  unfold encode_entry, appendString. rewrite !app_assoc, app_cons.
  eexists. reflexivity.
Qed.

(** All the entries, up to the closing brace. *)
Lemma members_entries L : forall fuel m0 rest,
  L <> [] -> Forall entry_ok L -> (length L <= fuel)%nat ->
  members fuel (Join (encode_entry <$> L) "," +:+ String "}" rest) m0
  = Some (fold_left store L m0, rest).
Proof.
  induction L as [|[k v] L IH]; intros fuel m0 rest Hne Hok Hfuel;
    [contradiction|].
  inversion Hok as [|? ? Hkv HL]; subst.
  destruct fuel as [|fuel]; [simpl in Hfuel; lia|].
  destruct L as [|kv' L'].
  - cbn [fmap list_fmap Join fold_left].
    rewrite members_entry by (exact Hkv || (right; reflexivity)).
    reflexivity.
  - change (Join (encode_entry <$> (k, v) :: kv' :: L') ",")
      with (encode_entry (k, v) +:+ "," +:+ Join (encode_entry <$> kv' :: L') ",").
    rewrite !app_assoc, app_cons, app_empty_l.
    rewrite members_entry by (exact Hkv || (left; reflexivity)).
    change (code "," =? 44) with true. cbv iota.
    assert (Hq : exists t,
               Join (encode_entry <$> kv' :: L') "," +:+ String "}" rest
               = String quote t).
    { destruct L' as [|kv'' L''].
      - cbn [fmap list_fmap Join]. apply encode_entry_first.
      - change (Join (encode_entry <$> kv' :: kv'' :: L'') ",")
          with (encode_entry kv' +:+ "," +:+ Join (encode_entry <$> kv'' :: L'') ",").
        rewrite !app_assoc. apply encode_entry_first. }
    destruct Hq as [t Hq]. rewrite Hq, skip_space_id by reflexivity.
    rewrite <- Hq. rewrite IH; [reflexivity|discriminate|exact HL|].
    simpl in Hfuel |- *. lia.
Qed.

Lemma length_Join_bound (es : list string) :
  (length es <= String.length (Join es ",") + 1)%nat.
Proof.
  induction es as [|e [|e' es] IH]; cbn [Join length] in *; try lia.
  rewrite !length_app. cbn [String.length]. lia.
Qed.

(** Storing entries with distinct keys one by one gives the map of the
    list. *)
Lemma fold_store L : forall m0,
  NoDup L.*1 -> fold_left store L m0 = list_to_map L ∪ m0.
Proof.
  induction L as [|[k v] L IH]; intros m0 Hnd; cbn [fold_left].
  - now rewrite list_to_map_nil, (left_id_L ∅ (∪)).
  - cbn [fmap list_fmap fst] in Hnd. apply NoDup_cons in Hnd as [Hk Hnd].
    rewrite IH by exact Hnd. unfold store. cbn [fst snd].
    rewrite list_to_map_cons, <- insert_union_l.
    rewrite insert_union_r; [reflexivity|].
    now apply not_elem_of_list_to_map_1.
Qed.

(** The written form of a table, and reading it back into a map that is
    [nil] or empty. *)
Lemma Unmarshal_Marshal (m : gmap string Z) (cur : option (gmap string Z)) :
  map_Forall (fun k v => ValidString k = true /\ Int.is_int v) m ->
  default ∅ cur = ∅ ->
  exists data,
    Marshal (Some m) = inl data /\ Unmarshal data cur = inl (Some m).
Proof.
  intros Hm Hcur. eexists. split; [reflexivity|].
  set (L := merge_sort key_le (map_to_list m)).
  assert (HP : L ≡ₚ map_to_list m) by apply merge_sort_Permutation.
  assert (Hnd : NoDup L.*1).
  { rewrite HP. apply NoDup_fst_map_to_list. }
  assert (Hok : Forall entry_ok L).
  { apply Forall_forall. intros [k v] Hin.
    rewrite HP in Hin. apply elem_of_map_to_list in Hin.
    exact (Hm k v Hin). }
  assert (Hmap : fold_left store L ∅ = m).
  { rewrite fold_store by exact Hnd. rewrite (right_id_L ∅ (∪)).
    rewrite (list_to_map_proper L (map_to_list m) Hnd HP).
    apply list_to_map_to_list. }
  unfold Unmarshal. rewrite app_cons, app_empty_l.
  rewrite skip_space_id by reflexivity.
  change (code "{" =? 123) with true. cbv iota. rewrite Hcur.
  destruct L as [|kv L'] eqn:EL.
  - cbn [fmap list_fmap Join]. rewrite app_empty_l.
    rewrite skip_space_id by reflexivity.
    change (code "}" =? 125) with true. cbv iota.
    cbn in Hmap. rewrite <- Hmap. reflexivity.
  - assert (Hq : exists t,
               Join (encode_entry <$> kv :: L') "," +:+ "}"
               = String quote t).
    { destruct L' as [|kv' L''].
      - cbn [fmap list_fmap Join]. apply encode_entry_first.
      - change (Join (encode_entry <$> kv :: kv' :: L'') ",")
          with (encode_entry kv +:+ "," +:+ Join (encode_entry <$> kv' :: L'') ",").
        rewrite !app_assoc. apply encode_entry_first. }
    destruct Hq as [t Hq]. rewrite Hq, skip_space_id by reflexivity.
    change (code quote =? 125) with false. cbv iota.
    rewrite <- Hq.
    rewrite (members_entries (kv :: L') _ ∅ "");
      [|discriminate|exact Hok|].
    + rewrite Hmap. reflexivity.
    + pose proof (length_Join_bound (encode_entry <$> kv :: L')) as Hb.
      rewrite length_fmap in Hb. rewrite length_app.
      cbn [String.length]. lia.
Qed.

(** ** Saving and loading *)

(** C4, as the code has it. A table whose keys are valid UTF-8 (and whose
    positions are [int]s) is read back as it was written: [json.Marshal]
    of the table gives some [data], and [json.Unmarshal] of [data] into a
    map that is [nil] or empty gives the table again, with the same keys
    and the same positions; so [loadIndexes], on the file that
    [saveIndexes] has written for a changed table, leaves that table in an
    instance that had none. *)
Theorem C4_round_trip (m : gmap string Z) (a a0 : AuthModifier) (w : World) :
  map_Forall (fun k v => ValidString k = true /\ Int.is_int v) m ->
  Indexes a = Some m -> Changed a = true ->
  default ∅ (Indexes a0) = ∅ -> IndexPath a0 = IndexPath a ->
  (exists data,
      Json.Marshal (Some m) = inl data
      /\ Json.Unmarshal data (Indexes a0) = inl (Some m))
  /\ Indexes (loadIndexes a0 (saveIndexes WriteOk a w).2) = Some m.
Proof.
  intros Hm Ha Hc Ha0 Hp.
  destruct (Unmarshal_Marshal m (Indexes a0) Hm Ha0)
    as (data & Hd & Hu).
  split; [exists data; now split|].
  unfold saveIndexes. rewrite Hc, Ha. cbn [negb]. rewrite Hd.
  cbn [WriteFile snd with_Changed IndexPath].
  unfold loadIndexes, ReadFile. cbn [files]. rewrite Hp, lookup_insert_eq.
  rewrite Hu. reflexivity.
Qed.

(** A key that is not valid UTF-8 is not read back: the byte [0xFF] is
    written as the escape of U+FFFD, and read as the three bytes of that
    rune, so that the table read is not the table written. *)
Lemma C4_counterexample :
  odd_table <> ∅
  /\ Json.Marshal (Some odd_table)
     = inl ("{" +:+ String Json.quote "/"
            +:+ String Json.backslash "ufffd"
            +:+ String Json.quote ":1}")
  /\ Json.Unmarshal
       ("{" +:+ String Json.quote "/" +:+ String Json.backslash "ufffd"
        +:+ String Json.quote ":1}") None
     = inl (Some {["/" +:+ EncodeRune RuneError := 1]})
  /\ ({["/" +:+ EncodeRune RuneError := 1]} : gmap string Z) <> odd_table
  /\ Indexes
       (loadIndexes fresh_state (saveIndexes WriteOk odd_state empty_world).2)
     <> Some odd_table.
Proof.
  assert (Hne : ({["/" +:+ EncodeRune RuneError := 1]} : gmap string Z)
                <> odd_table).
  { intros H.
    assert (E : ({["/" +:+ EncodeRune RuneError := 1]} : gmap string Z)
                !! odd_key = odd_table !! odd_key) by now rewrite H.
    vm_compute in E. discriminate E. }
  split.
  { intros H.
    assert (E : odd_table !! odd_key = (∅ : gmap string Z) !! odd_key)
      by now rewrite H.
    vm_compute in E. discriminate E. }
  split; [vm_compute; reflexivity|]. split; [vm_compute; reflexivity|].
  split; [exact Hne|].
  intros H. apply Hne.
  assert (E : Indexes
                (loadIndexes fresh_state
                   (saveIndexes WriteOk odd_state empty_world).2)
              = Some {["/" +:+ EncodeRune RuneError := 1]})
    by (vm_compute; reflexivity).
  rewrite E in H. now injection H.
Qed.

(** * The theorems at concrete inputs *)

Lemma rotating_bearer3 : rotating "/v1/chat" 3 bearer3.
Proof.
  split; [reflexivity|].
  exists "Authorization", "Bearer ", ["key1"; "key2"; "key3"].
  split; reflexivity.
Defined.

Lemma C1_round_robin_witness :
  exists outs a1 m1,
    serveAll [bearer3; bearer3] started = Ret outs a1
    /\ Indexes a1 = Some m1
    /\ map_get (Indexes a1) "/v1/chat" = 2 mod 3
    /\ exists hdr pre cands r' a2,
         one_list bearer3 = Some (hdr, pre, cands)
         /\ ServeHTTP bearer3 a1 = Ret r' a2
         /\ Header r' !! hdr = Some [pre +:+ nth (Z.to_nat (2 mod 3)) cands ""]
         /\ Indexes a2 = Some (<["/v1/chat" := (2 mod 3 + 1) mod 3]> m1)
         /\ map_get (Indexes a2) "/v1/chat" = (2 + 1) mod 3
         /\ Changed a2 = true.
Proof.
  apply (C1_round_robin "/v1/chat" 3 [bearer3; bearer3] bearer3 started ∅).
  - reflexivity.
  - reflexivity.
  - vm_compute. discriminate.
  - repeat constructor; apply rotating_bearer3.
  - apply rotating_bearer3.
Defined.

Lemma C2_flush_if_dirty_witness :
  (saveIndexes WriteOk started empty_world = (started, empty_world)
   /\ V1.saveIndexes WriteOk started empty_world = (started, empty_world))
  /\ exists data,
       Json.Marshal (Indexes changed_state) = inl data
       /\ flushes saveIndexes (IndexPath changed_state) changed_state
            empty_world None data
       /\ flushes V1.saveIndexes "indexes.json" changed_state empty_world
            None data.
Proof.
  split.
  - apply (proj1 (C2_flush_if_dirty started empty_world WriteOk None)).
    reflexivity.
  - apply (proj2 (C2_flush_if_dirty changed_state empty_world WriteOk None)).
    reflexivity.
Defined.

Lemma C3_load_never_fails_witness :
  (Provision None started corrupt_world).2 = None
  /\ loadIndexes changed_state corrupt_world
     = with_Indexes changed_state (Some ∅)
  /\ loadIndexes started corrupt_world
     = with_Indexes (log_Error started "Error parsing indexes file" ErrJSON)
         (Some ∅)
  /\ V1.loadIndexes started corrupt_world
     = with_Indexes (log_Error started "Error parsing indexes file" ErrJSON)
         (Some ∅).
Proof.
  split; [apply (C3_load_never_fails started corrupt_world None)|].
  split.
  - apply (C3_load_never_fails changed_state corrupt_world None).
    reflexivity.
  - assert (Hu : Json.Unmarshal "{oops" (Indexes started) = inr ErrJSON)
      by reflexivity.
    destruct (C3_load_never_fails started corrupt_world None)
      as (_ & _ & _ & _ & H).
    destruct (H "{oops" ErrJSON Hu) as [H1 H2].
    split; [apply H1|apply H2]; reflexivity.
Defined.

Lemma C4_round_trip_witness :
  (exists data,
      Json.Marshal (Some {["/v1/chat" := 2]}) = inl data
      /\ Json.Unmarshal data (Indexes fresh_state)
         = inl (Some {["/v1/chat" := 2]}))
  /\ Indexes
       (loadIndexes (with_IndexPath fresh_state "auth/index_3001.json")
          (saveIndexes WriteOk changed_state empty_world).2)
     = Some {["/v1/chat" := 2]}.
Proof.
  apply (C4_round_trip {["/v1/chat" := 2]} changed_state
           (with_IndexPath fresh_state "auth/index_3001.json") empty_world).
  - apply map_Forall_singleton. split; [reflexivity|].
    unfold Int.is_int, Int.MinInt, Int.MaxInt. lia.
  - reflexivity.
  - reflexivity.
  - reflexivity.
  - reflexivity.
Defined.

Lemma C5_prefix_decides_reinjection_witness :
  let h := Header_Get (Header bearer3) "Authorization" in
  let index := default 0 ((∅ : gmap string Z) !! URL_Path bearer3) in
  exists r' a',
    ServeHTTP bearer3 started = Ret r' a'
    /\ (7 <= len h /\ fold_eq (slice_to 7 h) "bearer " = true ->
        let tokens := Split (TrimSpace (slice_from 7 h)) "," in
        In (selected index tokens) tokens
        /\ Header r' !! "Authorization"
           = Some ["Bearer " +:+ selected index tokens])
    /\ (h <> "" /\ ~ (7 <= len h /\ fold_eq (slice_to 7 h) "bearer " = true) ->
        let tokens := Split h "," in
        In (selected index tokens) tokens
        /\ Header r' !! "Authorization" = Some [selected index tokens]).
Proof.
  apply (C5_prefix_decides_reinjection bearer3 started ∅).
  - reflexivity.
  - vm_compute. discriminate.
Defined.

Lemma C7_schemes_share_position_witness :
  let key := URL_Path both3 in
  let index := default 0 ((∅ : gmap string Z) !! key) in
  let tokens := ["key1"; "key2"; "key3"] in
  let apiKeys := Split (Header_Get (Header both3) "X-Goog-Api-Key") "," in
  let n1 := Z.of_nat (length tokens) in
  let n2 := Z.of_nat (length apiKeys) in
  exists r' a' m',
    ServeHTTP both3 started = Ret r' a' /\ Indexes a' = Some m'
    /\ Header r' !! "Authorization" = Some ["Bearer " +:+ selected index tokens]
    /\ Header r' !! "X-Goog-Api-Key" = Some [selected index apiKeys]
    /\ m' !! key
       = Some (Z.rem (Int.add (Z.rem (Int.add index 1) n1) 1) n2)
    /\ (forall k, k <> key -> m' !! k = (∅ : gmap string Z) !! k)
    /\ Changed a' = true.
Proof.
  apply (C7_schemes_share_position both3 started ∅ "Bearer "
           ["key1"; "key2"; "key3"]).
  - reflexivity.
  - vm_compute. discriminate.
  - reflexivity.
  - discriminate.
Defined.

Lemma C8_no_credentials_no_effect_witness :
  ServeHTTP no_credentials changed_state = Ret no_credentials changed_state.
Proof.
  apply (C8_no_credentials_no_effect no_credentials changed_state);
    reflexivity.
Defined.

Lemma C9_positions_stay_in_range_witness :
  let m : gmap string Z := {["/v1/chat" := 2]} in
  let index := default 0 (m !! URL_Path bearer3) in
  let auth := Header_Get (Header bearer3) "Authorization" in
  let api := Header_Get (Header bearer3) "X-Goog-Api-Key" in
  (forall pre tokens,
      authCandidates auth = Some (pre, tokens) ->
      0 <= Z.rem index (Z.of_nat (length tokens)) < Z.of_nat (length tokens))
  /\ (api <> "" ->
      0 <= Z.rem index (Z.of_nat (length (Split api ",")))
      < Z.of_nat (length (Split api ",")))
  /\ (exists r' a' m',
         ServeHTTP bearer3 changed_state = Ret r' a' /\ Indexes a' = Some m'
         /\ map_Forall (fun _ v => position_ok v) m')
  /\ (exists a' v,
         updateIndex "/v1/chat" 3 changed_state = Ret tt a'
         /\ Indexes a' = Some (<["/v1/chat" := v]> m) /\ 0 <= v < 3)
  /\ (forall r0 a0 a', ServeHTTP r0 a0 <> Panicked DivideByZero a').
Proof.
  apply (C9_positions_stay_in_range bearer3 changed_state
           {["/v1/chat" := 2]} "/v1/chat" 3).
  - reflexivity.
  - apply map_Forall_singleton. unfold position_ok, Int.MaxInt. lia.
  - vm_compute. reflexivity.
  - vm_compute. reflexivity.
  - lia.
Defined.

Lemma space_only_example : space_only (" " +:+ EncodeRune 0x3000).
Proof.
  apply (space_only_rune 0x20 (EncodeRune 0x3000 +:+ "") eq_refl).
  apply (space_only_rune 0x3000 "" eq_refl). apply space_only_nil.
Defined.

Lemma C10_prefix_and_spaces_rewrites_header_witness :
  let m : gmap string Z := {["/v1/chat" := 2]} in
  (forall s sep, (1 <= length (Split s sep))%nat)
  /\ bearerTokens ("bEaReR " +:+ " " +:+ EncodeRune 0x3000) = [""]
  /\ (exists r' a',
         ServeHTTP only_spaces changed_state = Ret r' a'
         /\ Header r' !! "Authorization" = Some ["Bearer "]
         /\ Indexes a' = Some (<[URL_Path only_spaces := 0]> m)
         /\ Changed a' = true)
  /\ (exists r' a',
         V1.ServeHTTP only_spaces changed_state = Ret r' a'
         /\ Header r' !! "Authorization" = Some ["Bearer "]
         /\ Indexes a' = Some (<[URL_String only_spaces := 0]> m)
         /\ Changed a' = true).
Proof.
  apply (C10_prefix_and_spaces_rewrites_header only_spaces changed_state
           {["/v1/chat" := 2]} "bEaReR " (" " +:+ EncodeRune 0x3000)).
  - reflexivity.
  - reflexivity.
  - reflexivity.
  - reflexivity.
  - apply space_only_example.
  - reflexivity.
Defined.

(** * The handler on every state *)

Lemma bind_eq {A B} (m : M A) (f : A -> M B) a o :
  m a = o ->
  (m ≫= f) a
  = match o with
    | Ret x a' => f x a'
    | Panicked p a' => Panicked p a'
    end.
Proof. intros <-. reflexivity. Qed.

Lemma rem_lt_length index (tokens : list string) :
  tokens <> [] ->
  Z.rem index (Z.of_nat (length tokens)) < Z.of_nat (length tokens).
Proof.
  intros Hne. pose proof (length_pos_Z tokens Hne) as Hpos.
  pose proof (Z.rem_bound_abs index (Z.of_nat (length tokens))) as Hb. lia.
Qed.

(** One block of the handler, whatever the state. *)
Lemma block_outcome (index : Z) (tokens : list string)
    (key msg pre hdr : string) (r : Request) (a : AuthModifier) :
  tokens <> [] ->
  (i ← int_rem index (Z.of_nat (length tokens));
   selectedToken ← slice_index tokens i;
   let r1 := set_header r hdr (pre +:+ selectedToken) in
   logger_Debug msg (zap_String "Auth-Key" (pre +:+ selectedToken));;
   updateIndex key (Z.of_nat (length tokens));;
   mret r1) a
  = block_result index tokens key msg pre hdr r a.
Proof.
  intros Hne. pose proof (length_pos_Z tokens Hne) as Hpos.
  pose proof (rem_lt_length index tokens Hne) as Hlt.
  unfold block_result.
  erewrite bind_Ret by (apply int_rem_Ret; lia).
  destruct (Z.ltb_spec (Z.rem index (Z.of_nat (length tokens))) 0) as [Hn|Hn].
  - apply bind_Panicked. unfold slice_index.
    destruct (Z.leb_spec 0 (Z.rem index (Z.of_nat (length tokens))));
      [lia|reflexivity].
  - erewrite bind_Ret by (apply slice_index_Ret; lia).
    cbv zeta. erewrite bind_Ret by reflexivity.
    destruct (Indexes a) as [m|] eqn:Hm.
    + erewrite bind_Ret by (apply updateIndex_Ret; [exact Hm|lia]).
      reflexivity.
    + apply bind_Panicked. apply updateIndex_nil; [exact Hm|lia].
Qed.

Lemma key_outcome (index : Z) (key k : string) (r1 : Request)
    (a : AuthModifier) :
  (if 0 <? len k then
     let apiKeys := Split k "," in
     if 0 <? Z.of_nat (length apiKeys) then
       i ← int_rem index (Z.of_nat (length apiKeys));
       selectedApiKey ← slice_index apiKeys i;
       let r2 := set_header r1 "X-Goog-Api-Key" selectedApiKey in
       logger_Debug "Set X-Goog-Api-Key"
         (zap_String "Auth-Key" selectedApiKey);;
       updateIndex key (Z.of_nat (length apiKeys));;
       mret r2
     else mret r1
   else mret r1) a
  = key_result index key k r1 a.
Proof.
  unfold key_result. destruct (0 <? len k); [|reflexivity]. cbv zeta.
  pose proof (Split_not_nil k ",") as Hne.
  destruct (0 <? Z.of_nat (length (Split k ","))) eqn:Hl;
    [|apply Z.ltb_ge in Hl; pose proof (length_pos_Z _ Hne); lia].
  apply (block_outcome index (Split k ",") key "Set X-Goog-Api-Key" ""
           "X-Goog-Api-Key" r1 a Hne).
Qed.

(** The handler is the function [handle]. *)
Lemma ServeHTTP_handle r a : ServeHTTP r a = handle r a.
Proof.
  unfold ServeHTTP, handle.
  erewrite bind_Ret by reflexivity.
  set (index := map_get (Indexes a) (URL_Path r)).
  set (h := Header_Get (Header r) "Authorization").
  set (k := Header_Get (Header r) "X-Goog-Api-Key").
  assert (Hend : forall a1 (m : M Request) o,
             m a1 = o -> (r2 ← m; mret r2) a1 = o).
  { intros a1 m o <-. unfold mbind, M_bind. now destruct (m a1). }
  unfold authCandidates.
  destruct (hasBearerPrefix h) eqn:Hb.
  - pose proof (Split_not_nil (TrimSpace (slice_from 7 h)) ",") as Hne.
    fold (bearerTokens h) in Hne.
    destruct (0 <? Z.of_nat (length (bearerTokens h))) eqn:Hl;
      [|apply Z.ltb_ge in Hl; pose proof (length_pos_Z _ Hne); lia].
    erewrite bind_eq
      by (apply (block_outcome index (bearerTokens h) (URL_Path r)
                   "Set Authorization" "Bearer " "Authorization" r a Hne)).
    destruct (block_result _ _ _ _ _ _ _ _) as [r1 a1|p a']; [|reflexivity].
    apply Hend. apply key_outcome.
  - destruct (0 <? len h) eqn:Hlh.
    + pose proof (Split_not_nil h ",") as Hne.
      destruct (0 <? Z.of_nat (length (Split h ","))) eqn:Hl;
        [|apply Z.ltb_ge in Hl; pose proof (length_pos_Z _ Hne); lia].
      erewrite bind_eq
        by (apply (block_outcome index (Split h ",") (URL_Path r)
                     "Set Authorization" "" "Authorization" r a Hne)).
      destruct (block_result _ _ _ _ _ _ _ _) as [r1 a1|p a']; [|reflexivity].
      apply Hend. apply key_outcome.
    + erewrite bind_Ret by reflexivity.
      apply Hend. apply key_outcome.
Qed.

(** ** What the handler leaves alone *)

Lemma state_frame_refl key a : state_frame key a a.
Proof.
  split; auto. exists []. split; [now rewrite app_nil_r|constructor].
Qed.

Lemma state_frame_trans key a1 a2 a3 :
  state_frame key a1 a2 -> state_frame key a2 a3 -> state_frame key a1 a3.
Proof.
  intros [P1 C1 D1 N1 K1 (l1 & L1 & F1)] [P2 C2 D2 N2 K2 (l2 & L2 & F2)].
  split.
  - congruence.
  - auto.
  - destruct D2 as [D2|D2]; [|now right].
    destruct D1 as [D1|D1]; [left; congruence|right; auto].
  - tauto.
  - intros k Hk. rewrite K2, K1 by exact Hk. reflexivity.
  - exists (l1 ++ l2). split.
    + rewrite L2, L1. now rewrite <- List.app_assoc.
    + now apply Forall_app.
Qed.

Lemma state_frame_log key a msg v :
  state_frame key a (with_log a (debug msg v)).
Proof.
  split; auto. exists [debug msg v]. split; [reflexivity|].
  now repeat constructor.
Qed.

Lemma state_frame_advanced key a m n :
  Indexes a = Some m -> state_frame key a (advanced a m key n).
Proof.
  intros Hm. split; cbn; auto.
  - rewrite Hm. split; discriminate.
  - intros k Hk. rewrite Hm. cbn. now apply lookup_insert_ne.
  - exists []. split; [now rewrite app_nil_r|constructor].
Qed.

Lemma block_result_frame index tokens key msg pre hdr r a :
  state_frame key a
    (state_of (block_result index tokens key msg pre hdr r a)).
Proof.
  unfold block_result.
  destruct (Z.rem index (Z.of_nat (length tokens)) <? 0);
    [apply state_frame_refl|].
  destruct (Indexes a) as [m|] eqn:Hm; cbn [state_of].
  - eapply state_frame_trans; [apply state_frame_log|].
    apply state_frame_advanced. exact Hm.
  - apply state_frame_log.
Qed.

Lemma request_frame_refl r : request_frame r r.
Proof. split; auto. Qed.

Lemma request_frame_set r0 r hdr v :
  hdr = "Authorization" \/ hdr = "X-Goog-Api-Key" ->
  request_frame r0 r -> request_frame r0 (set_header r hdr v).
Proof.
  intros Hh [P S H]. split; cbn; auto.
  intros h H1 H2. unfold Header_Set. rewrite lookup_insert_ne; [auto|].
  destruct Hh as [-> | ->]; congruence.
Qed.

Lemma block_result_request index tokens key msg pre hdr r0 r a r1 a1 :
  hdr = "Authorization" \/ hdr = "X-Goog-Api-Key" ->
  request_frame r0 r ->
  block_result index tokens key msg pre hdr r a = Ret r1 a1 ->
  request_frame r0 r1.
Proof.
  intros Hh Hr. unfold block_result.
  destruct (Z.rem index (Z.of_nat (length tokens)) <? 0); [discriminate|].
  destruct (Indexes a); [|discriminate].
  intros E. injection E as <- _. now apply request_frame_set.
Qed.

Lemma handle_frame (r : Request) (a : AuthModifier) :
  state_frame (URL_Path r) a (state_of (handle r a))
  /\ forall r' a', handle r a = Ret r' a' -> request_frame r r'.
Proof.
  unfold handle.
  set (index := map_get (Indexes a) (URL_Path r)).
  set (k := Header_Get (Header r) "X-Goog-Api-Key").
  assert (Hkey : forall r1 a1,
             request_frame r r1 ->
             state_frame (URL_Path r) a1
               (state_of (key_result index (URL_Path r) k r1 a1))
             /\ forall r' a',
                 key_result index (URL_Path r) k r1 a1 = Ret r' a' ->
                 request_frame r r').
  { intros r1 a1 Hr1. unfold key_result. destruct (0 <? len k).
    - split; [apply block_result_frame|].
      intros r' a'. apply block_result_request; [now right|exact Hr1].
    - split; [apply state_frame_refl|]. intros r' a' E.
      now injection E as <- _. }
  destruct (authCandidates _) as [[pre tokens]|]; [|apply Hkey, request_frame_refl].
  pose proof (block_result_frame index tokens (URL_Path r) "Set Authorization"
                pre "Authorization" r a) as Hf.
  pose proof (block_result_request index tokens (URL_Path r)
                "Set Authorization" pre "Authorization" r r a) as Hr.
  destruct (block_result _ _ _ _ _ _ _ _) as [r1 a1|p a1]; cbn [state_of] in Hf.
  - destruct (Hkey r1 a1) as [H1 H2].
    { apply (Hr r1 a1); [now left|apply request_frame_refl|reflexivity]. }
    split; [|exact H2]. eapply state_frame_trans; eassumption.
  - split; [exact Hf|]. discriminate.
Qed.

(** X1. Whatever the request and the state, and whether the handler returns
    or panics: it leaves the path of the snapshot as it is, never clears a
    flag [Changed] that is set, leaves the entry of every other key of the
    table as it is, changes the table only together with setting [Changed],
    makes no table where there was none and removes none, and only adds
    debug entries to the log. The request that it hands on has the URL of
    the request that came, and the same headers except Authorization and
    X-Goog-Api-Key. *)
Theorem ServeHTTP_frame (r : Request) (a : AuthModifier) :
  state_frame (URL_Path r) a (state_of (ServeHTTP r a))
  /\ forall r' a', ServeHTTP r a = Ret r' a' -> request_frame r r'.
Proof. rewrite ServeHTTP_handle. apply handle_frame. Qed.

(** ** When the handler returns *)

Lemma block_result_cases index tokens key msg pre hdr r a :
  match block_result index tokens key msg pre hdr r a with
  | Ret r1 a1 =>
      selectable index tokens /\ Indexes a <> None /\ Indexes a1 <> None
  | Panicked _ _ => ~ (selectable index tokens /\ Indexes a <> None)
  end.
Proof.
  unfold block_result, selectable.
  destruct (Z.ltb_spec (Z.rem index (Z.of_nat (length tokens))) 0).
  - intros [? _]. lia.
  - destruct (Indexes a).
    + repeat split; (lia || discriminate).
    + intros [_ ?]. contradiction.
Qed.

(** X2. The handler returns (and the request is handed on) exactly when the
    request carries no list of candidates, or the table has been made and,
    for every list of the request, the remainder of the division of the
    stored position by the length of the list is not negative. In every
    other case it panics. *)
Theorem ServeHTTP_returns_iff (r : Request) (a : AuthModifier) :
  (exists r' a', ServeHTTP r a = Ret r' a')
  <-> lists r = []
      \/ (Indexes a <> None
          /\ Forall (selectable (map_get (Indexes a) (URL_Path r))) (lists r)).
Proof.
  rewrite ServeHTTP_handle. unfold handle, lists, key_result.
  set (index := map_get (Indexes a) (URL_Path r)).
  set (k := Header_Get (Header r) "X-Goog-Api-Key").
  destruct (authCandidates _) as [[pre tokens]|]; destruct (0 <? len k);
    cbn [app].
  - pose proof (block_result_cases index tokens (URL_Path r)
                  "Set Authorization" pre "Authorization" r a) as H1.
    destruct (block_result index tokens _ _ _ _ _ _) as [r1 a1|p a1].
    + pose proof (block_result_cases index (Split k ",") (URL_Path r)
                    "Set X-Goog-Api-Key" "" "X-Goog-Api-Key" r1 a1) as H2.
      destruct (block_result index (Split k ",") _ _ _ _ _ _) as [r2 a2|p a2].
      * split; [|eauto]. intros _. right. split; [tauto|].
        repeat constructor; tauto.
      * split; [intros (? & ? & ?); discriminate|].
        intros [E|[_ F]]; [discriminate|].
        inversion F as [|? ? _ F2]; inversion F2; subst. tauto.
    + split; [intros (? & ? & ?); discriminate|].
      intros [E|[Hi F]]; [discriminate|]. inversion F; subst. tauto.
  - pose proof (block_result_cases index tokens (URL_Path r)
                  "Set Authorization" pre "Authorization" r a) as H1.
    destruct (block_result index tokens _ _ _ _ _ _) as [r1 a1|p a1].
    + split; [|eauto]. intros _. right. split; [tauto|].
      repeat constructor; tauto.
    + split; [intros (? & ? & ?); discriminate|].
      intros [E|[Hi F]]; [discriminate|]. inversion F; subst. tauto.
  - pose proof (block_result_cases index (Split k ",") (URL_Path r)
                  "Set X-Goog-Api-Key" "" "X-Goog-Api-Key" r a) as H1.
    destruct (block_result index (Split k ",") _ _ _ _ _ _) as [r1 a1|p a1].
    + split; [|eauto]. intros _. right. split; [tauto|].
      repeat constructor; tauto.
    + split; [intros (? & ? & ?); discriminate|].
      intros [E|[Hi F]]; [discriminate|]. inversion F; subst. tauto.
  - split; [now left|eauto].
Qed.

(** X3. A stored position whose remainder by the length of the first list
    of the request is negative (a negative position that the length does
    not divide) makes the handler panic with an index out of range, before
    anything is changed: the state after the panic is the state before it,
    so that every later request of that kind for the key panics as well. *)
Theorem negative_remainder_panics (r : Request) (a : AuthModifier)
    (tokens : list string) (rest : list (list string)) :
  lists r = tokens :: rest ->
  Z.rem (map_get (Indexes a) (URL_Path r)) (Z.of_nat (length tokens)) < 0 ->
  ServeHTTP r a = Panicked IndexOutOfRange a.
Proof.
  rewrite ServeHTTP_handle. unfold handle, lists, key_result.
  set (index := map_get (Indexes a) (URL_Path r)).
  set (k := Header_Get (Header r) "X-Goog-Api-Key").
  intros E Hneg.
  assert (Hb : forall key msg pre hdr r1,
             block_result index tokens key msg pre hdr r1 a
             = Panicked IndexOutOfRange a).
  { intros. unfold block_result.
    now destruct (Z.ltb_spec (Z.rem index (Z.of_nat (length tokens))) 0);
      [|lia]. }
  destruct (authCandidates _) as [[pre tokens']|].
  - cbn [app] in E. assert (tokens' = tokens) as -> by congruence.
    now rewrite Hb.
  - destruct (0 <? len k); [|discriminate]. cbn [app] in E.
    assert (Split k "," = tokens) as -> by congruence. apply Hb.
Qed.

(** On a table that is [nil] every request with candidates panics on the
    assignment of [updateIndex], and the table stays [nil]. *)
Lemma nil_table_panics (r : Request) (a : AuthModifier) :
  Indexes a = None -> lists r <> [] ->
  panic_of (ServeHTTP r a) = Some NilMapAssignment
  /\ Indexes (state_of (ServeHTTP r a)) = None
  /\ Changed (state_of (ServeHTTP r a)) = Changed a.
Proof.
  rewrite ServeHTTP_handle. unfold handle, lists, key_result.
  intros Ha Hl. rewrite Ha. cbn [map_get].
  set (k := Header_Get (Header r) "X-Goog-Api-Key") in *.
  assert (Hb : forall tokens key msg pre hdr r1,
             exists e, block_result 0 tokens key msg pre hdr r1 a
                       = Panicked NilMapAssignment (with_log a e)).
  { intros. unfold block_result. rewrite Ha.
    replace (Z.rem 0 (Z.of_nat (length tokens))) with 0
      by now destruct (Z.of_nat (length tokens)).
    cbn. eauto. }
  destruct (authCandidates _) as [[pre tokens']|].
  - destruct (Hb tokens' (URL_Path r) "Set Authorization" pre
                "Authorization" r) as [e ->].
    cbn. auto.
  - destruct (0 <? len k); [|contradiction].
    destruct (Hb (Split k ",") (URL_Path r) "Set X-Goog-Api-Key" ""
                "X-Goog-Api-Key" r) as [e ->].
    cbn. auto.
Qed.

Lemma Unmarshal_null data cur :
  null_document data -> Unmarshal data cur = inl None.
Proof.
  intros (rest & E & F). unfold Unmarshal. rewrite E. norm_app.
  cbv beta iota.
  change (code "n" =? 123) with false.
  change ((code "n" =? 110) && (code "u" =? 117) && (code "l" =? 108)
          && (code "l" =? 108)) with true.
  cbv iota. unfold finish. now rewrite F.
Qed.

Lemma finish_nil v rest : finish v rest = inl None -> v = None /\ skip_space rest = "".
Proof.
  unfold finish. destruct (skip_space rest); [|discriminate].
  intros E. split; congruence.
Qed.

Lemma Unmarshal_nil data cur :
  Unmarshal data cur = inl None -> null_document data.
Proof.
  unfold Unmarshal, null_document.
  destruct (skip_space data) as [|c0 s1]; [discriminate|].
  destruct (code c0 =? 123).
  - destruct (skip_space s1) as [|d s2]; [discriminate|].
    destruct (code d =? 125).
    + intros H. apply finish_nil in H as [H _]. discriminate.
    + destruct (members _ _ _) as [[m' rest]|]; [|discriminate].
      intros H. apply finish_nil in H as [H _]. discriminate.
  - destruct s1 as [|c1 [|c2 [|c3 rest]]]; try discriminate.
    destruct ((code c0 =? 110) && (code c1 =? 117) && (code c2 =? 108)
              && (code c3 =? 108)) eqn:T; [|discriminate].
    rewrite !andb_true_iff, !Z.eqb_eq in T. destruct T as [[[T0 T1] T2] T3].
    intros H. apply finish_nil in H as [_ H]. exists rest. split; [|exact H].
    norm_app.
    rewrite (code_inj c0 "n"), (code_inj c1 "u"), (code_inj c2 "l"),
      (code_inj c3 "l") by assumption.
    reflexivity.
Qed.


(** ** Tables that are [nil] *)

Lemma loadIndexes_Indexes a w :
  Indexes (loadIndexes a w)
  = match ReadFile w (IndexPath a) with
    | inr _ => Some ∅
    | inl data =>
        match Unmarshal data (Indexes a) with
        | inr _ => Some ∅
        | inl t => t
        end
    end.
Proof.
  unfold loadIndexes. destruct (ReadFile w (IndexPath a)) as [data|err].
  - now destruct (Unmarshal data (Indexes a)).
  - now destruct (negb (IsNotExist err)).
Qed.

Lemma ReadFile_inl w name data :
  ReadFile w name = inl data <-> files w !! name = Some (File data).
Proof.
  unfold ReadFile. destruct (files w !! name) as [[d|]|]; split; intros H;
    try discriminate; congruence.
Qed.

Lemma loadIndexes_null a w data :
  files w !! IndexPath a = Some (File data) -> null_document data ->
  Indexes (loadIndexes a w) = None.
Proof.
  intros R N. rewrite loadIndexes_Indexes. apply ReadFile_inl in R.
  rewrite R. now rewrite (Unmarshal_null data (Indexes a) N).
Qed.

(** X4. [loadIndexes] leaves a table that is [nil] in exactly one case: the
    snapshot can be read and holds the JSON value [null] (with nothing but
    space around it), whatever the table was before. In every other case
    (no file, a file that cannot be read, a file that does not parse, an
    object) a table has been made when it returns. *)
Theorem loadIndexes_nil_iff (a : AuthModifier) (w : World) :
  Indexes (loadIndexes a w) = None
  <-> exists data,
        files w !! IndexPath a = Some (File data) /\ null_document data.
Proof.
  rewrite loadIndexes_Indexes. split.
  - destruct (ReadFile w (IndexPath a)) as [data|err] eqn:R; [|discriminate].
    apply ReadFile_inl in R.
    destruct (Unmarshal data (Indexes a)) as [t|err] eqn:U; [|discriminate].
    intros ->. exists data. split; [exact R|]. eapply Unmarshal_nil, U.
  - intros (data & R & N). apply ReadFile_inl in R. rewrite R.
    now rewrite (Unmarshal_null data (Indexes a) N).
Qed.

Lemma Provision_Indexes mk a w :
  Indexes (Provision mk a w).1.1
  = Indexes (loadIndexes (with_IndexPath a (snapshot_path a)) w).
Proof.
  unfold Provision, ensureDir, snapshot_path.
  cbn [fst]. rewrite !loadIndexes_Indexes.
  destruct (len (IndexPath a) =? 0); destruct mk; reflexivity.
Qed.

(** X5. A snapshot that holds [null] is loaded without complaint, and
    then breaks the handler: after [Provision] the table is [nil], and a
    request that carries candidates panics on the assignment to an entry of
    a [nil] map, in [updateIndex]; the table is still [nil] after it. *)
Theorem null_snapshot_panics (mk : option error) (a : AuthModifier)
    (w : World) (data : string) (r : Request) :
  files w !! snapshot_path a = Some (File data) ->
  null_document data ->
  lists r <> [] ->
  let a' := (Provision mk a w).1.1 in
  Indexes a' = None
  /\ panic_of (ServeHTTP r a') = Some NilMapAssignment
  /\ Indexes (state_of (ServeHTTP r a')) = None.
Proof.
  intros Hf Hn Hl a'.
  assert (Ha : Indexes a' = None).
  { unfold a'. rewrite Provision_Indexes.
    apply (loadIndexes_null _ w data); [exact Hf|exact Hn]. }
  destruct (nil_table_panics r a' Ha Hl) as (H1 & H2 & _). auto.
Qed.

(** ** What is handed on *)

Lemma Split_no_sep s sep :
  Forall (fun p => has_byte sep p = false) (Split s sep).
Proof.
  induction s as [|c s IH]; cbn [Split]; [now repeat constructor|].
  destruct (Ascii.eqb c sep) eqn:E; [now constructor|].
  destruct (Split s sep) as [|p ps].
  - repeat constructor. cbn. now rewrite E.
  - inversion IH; subst. constructor; [|assumption]. cbn. now rewrite E.
Qed.

Lemma Split_single s sep : has_byte sep s = false -> Split s sep = [s].
Proof.
  induction s as [|c s IH]; [reflexivity|]. cbn [has_byte Split].
  intros H. apply orb_false_iff in H as [E H]. rewrite E, (IH H).
  reflexivity.
Qed.

Lemma block_result_Ret index tokens key msg pre hdr r a r1 a1 :
  tokens <> [] ->
  block_result index tokens key msg pre hdr r a = Ret r1 a1 ->
  (exists c, In c tokens /\ r1 = set_header r hdr (pre +:+ c))
  /\ Changed a1 = true /\ Indexes a1 <> None.
Proof.
  intros Hne. unfold block_result.
  destruct (Z.ltb_spec (Z.rem index (Z.of_nat (length tokens))) 0) as [|Hs];
    [discriminate|].
  destruct (Indexes a); [|discriminate].
  intros E. injection E as <- <-. split; [|split; [reflexivity|discriminate]].
  exists (selected index tokens). split; [|reflexivity].
  apply selected_In; [exact Hne|exact Hs].
Qed.

Lemma In_Split_no_sep c s sep : In c (Split s sep) -> has_byte sep c = false.
Proof.
  intros H. pose proof (Split_no_sep s sep) as F.
  rewrite List.Forall_forall in F. now apply F.
Qed.

Lemma authCandidates_no_comma h pre tokens c :
  authCandidates h = Some (pre, tokens) -> In c tokens ->
  has_byte "," c = false.
Proof.
  unfold authCandidates, bearerTokens.
  destruct (hasBearerPrefix h); [|destruct (0 <? len h)]; intros E;
    inversion E; subst; apply In_Split_no_sep.
Qed.

(** X6. Whenever the handler returns, on any state: a header that carried
    candidates holds exactly one value, which is the prefix (if any) and
    one of the candidates, and that candidate has no comma in it, so a list
    is never handed on; a header that carried none is as it came; and when
    the request carried candidates at all, [Changed] is set and the table
    has been made. *)
Theorem forwarded_credentials (r r' : Request) (a a' : AuthModifier) :
  ServeHTTP r a = Ret r' a' ->
  let h := Header_Get (Header r) "Authorization" in
  let k := Header_Get (Header r) "X-Goog-Api-Key" in
  match authCandidates h with
  | Some (pre, tokens) =>
      exists c, In c tokens /\ has_byte "," c = false
                /\ Header r' !! "Authorization" = Some [pre +:+ c]
  | None => Header r' !! "Authorization" = Header r !! "Authorization"
  end
  /\ (if 0 <? len k
      then exists c, In c (Split k ",") /\ has_byte "," c = false
                     /\ Header r' !! "X-Goog-Api-Key" = Some [c]
      else Header r' !! "X-Goog-Api-Key" = Header r !! "X-Goog-Api-Key")
  /\ (lists r <> [] -> Changed a' = true /\ Indexes a' <> None).
Proof.
  rewrite ServeHTTP_handle. unfold handle, lists, key_result. intros H.
  cbv zeta.
  set (h := Header_Get (Header r) "Authorization") in *.
  set (k := Header_Get (Header r) "X-Goog-Api-Key") in *.
  set (index := map_get (Indexes a) (URL_Path r)) in *.
  assert (Hk : forall r1 a1,
             (if 0 <? len k
              then block_result index (Split k ",") (URL_Path r)
                     "Set X-Goog-Api-Key" "" "X-Goog-Api-Key" r1 a1
              else Ret r1 a1) = Ret r' a' ->
             (if 0 <? len k
              then exists c, In c (Split k ",") /\ has_byte "," c = false
                             /\ Header r' !! "X-Goog-Api-Key" = Some [c]
              else r' = r1 /\ a' = a1)
             /\ Header r' !! "Authorization" = Header r1 !! "Authorization"
             /\ ((Changed a1 = true /\ Indexes a1 <> None)
                 \/ (0 <? len k) = true ->
                 Changed a' = true /\ Indexes a' <> None)).
  { intros r1 a1 E. destruct (0 <? len k).
    - apply block_result_Ret in E as ((c & Hin & ->) & Hc & Hi);
        [|apply Split_not_nil].
      split; [|split; [now apply set_header_other|auto]].
      exists c. split; [exact Hin|]. split; [eapply In_Split_no_sep, Hin|].
      apply set_header_same.
    - injection E as <- <-. split; [split; reflexivity|].
      split; [reflexivity|]. intros [?|?]; [assumption|discriminate]. }
  destruct (authCandidates h) as [[pre tokens]|] eqn:Ea.
  - destruct (block_result index tokens _ _ _ _ _ _) as [r1 a1|p a1] eqn:B;
      [|discriminate].
    apply block_result_Ret in B as ((c & Hin & ->) & Hc & Hi);
      [|eapply authCandidates_not_nil, Ea].
    destruct (Hk _ _ H) as (K1 & K2 & K3). split; [|split].
    + exists c. split; [exact Hin|].
      split; [eapply authCandidates_no_comma; eassumption|].
      rewrite K2. apply set_header_same.
    + destruct (0 <? len k); [exact K1|]. destruct K1 as [-> _].
      now apply set_header_other.
    + intros _. apply K3. now left.
  - destruct (Hk _ _ H) as (K1 & K2 & K3). split; [exact K2|split].
    + destruct (0 <? len k); [exact K1|]. now destruct K1 as [-> _].
    + cbn [app]. intros Hl. apply K3. right.
      destruct (0 <? len k); [reflexivity|contradiction].
Qed.

(** X7. A request with one list that holds a single candidate (a value
    without a comma) is served from every stored position, be it negative
    or the largest [int]: on a table that has been made the handler
    returns, hands on the prefix and that candidate, and stores the
    position 0 for the key. *)
Theorem single_candidate_always_served (r : Request) (a : AuthModifier)
    (m : gmap string Z) (hdr pre c : string) :
  Indexes a = Some m ->
  one_list r = Some (hdr, pre, [c]) ->
  exists a',
    ServeHTTP r a = Ret (set_header r hdr (pre +:+ c)) a'
    /\ Indexes a' = Some (<[URL_Path r := 0]> m)
    /\ Changed a' = true.
Proof.
  intros Hm Hone. rewrite ServeHTTP_handle. unfold handle, key_result.
  unfold one_list in Hone. rewrite Hm. cbn [map_get].
  set (index := default 0 (m !! URL_Path r)) in *.
  assert (Hb : forall msg,
             block_result index [c] (URL_Path r) msg pre hdr r a
             = Ret (set_header r hdr (pre +:+ c))
                   (advanced (with_log a (debug msg (pre +:+ c))) m
                      (URL_Path r) 1)).
  { intros msg. unfold block_result. cbn [length]. rewrite selected_single.
    change (Z.of_nat 1) with 1. rewrite rem_one, Hm. reflexivity. }
  destruct (authCandidates _) as [[pre' tokens]|];
    destruct (0 <? len _) eqn:El; try discriminate.
  - assert (hdr = "Authorization" /\ pre' = pre /\ tokens = [c])
      as (-> & -> & ->) by (repeat split; congruence).
    rewrite Hb. eexists. split; [reflexivity|].
    unfold advanced. cbn. now rewrite rem_one.
  - assert (hdr = "X-Goog-Api-Key" /\ pre = ""
            /\ Split (Header_Get (Header r) "X-Goog-Api-Key") "," = [c])
      as (-> & -> & ->) by (repeat split; congruence).
    rewrite Hb. eexists. split; [reflexivity|].
    unfold advanced. cbn. now rewrite rem_one.
Qed.

(** ** The snapshot and the table *)

Lemma rem_is_int x n : Int.is_int x -> Int.is_int (Z.rem x n).
Proof.
  unfold Int.is_int, Int.MinInt, Int.MaxInt. intros H.
  destruct (Z.eq_dec n 0) as [->|Hn]; [now destruct x|].
  assert (Hle : Z.abs (Z.rem x n) <= Z.abs x).
  { rewrite <- Z.rem_abs by exact Hn. apply Z.rem_le; lia. }
  pose proof (Z.rem_nonneg x n Hn). pose proof (Z.rem_nonpos x n Hn). lia.
Qed.

Lemma block_result_table_ok index tokens key msg pre hdr r a :
  ValidString key = true -> table_ok (Indexes a) ->
  table_ok (Indexes (state_of (block_result index tokens key msg pre hdr r a))).
Proof.
  intros Hk Ht. unfold block_result.
  destruct (Z.rem index (Z.of_nat (length tokens)) <? 0); [exact Ht|].
  destruct (Indexes a) as [m|] eqn:Hm; cbn.
  - apply map_Forall_insert_2; [|exact Ht].
    split; [exact Hk|]. apply rem_is_int, IntFacts.wrap_is_int.
  - now rewrite Hm.
Qed.

Lemma key_result_table_ok index key k r a :
  ValidString key = true -> table_ok (Indexes a) ->
  table_ok (Indexes (state_of (key_result index key k r a))).
Proof.
  intros Hk Ht. unfold key_result. destruct (0 <? len k); [|exact Ht].
  now apply block_result_table_ok.
Qed.

Lemma ServeHTTP_table_ok r a :
  ValidString (URL_Path r) = true -> table_ok (Indexes a) ->
  table_ok (Indexes (state_of (ServeHTTP r a))).
Proof.
  intros Hk Ht. rewrite ServeHTTP_handle. unfold handle.
  destruct (authCandidates _) as [[pre tokens]|];
    [|now apply key_result_table_ok].
  pose proof (block_result_table_ok (map_get (Indexes a) (URL_Path r)) tokens
                (URL_Path r) "Set Authorization" pre "Authorization" r a
                Hk Ht) as H1.
  destruct (block_result _ _ _ _ _ _ _ _) as [r1 a1|p a1]; [|exact H1].
  now apply key_result_table_ok.
Qed.

Lemma ServeHTTP_in_sync r a w :
  in_sync a w -> in_sync (state_of (ServeHTTP r a)) w.
Proof.
  rewrite ServeHTTP_handle. intros Hs Hc.
  destruct (handle_frame r a) as [[P C D N K L] _].
  destruct D as [D|D]; [|congruence].
  assert (Ha : Changed a = false).
  { destruct (Changed a); [|reflexivity]. rewrite C in Hc by reflexivity.
    discriminate. }
  specialize (Hs Ha). rewrite loadIndexes_Indexes in *.
  cbn [with_Indexes IndexPath Indexes] in *. rewrite P, D. exact Hs.
Qed.

Lemma null_is_null_document : null_document "null".
Proof. exists "". split; reflexivity. Qed.

Lemma saveIndexes_Indexes res a w :
  Indexes (saveIndexes res a w).1 = Indexes a.
Proof.
  unfold saveIndexes. destruct (negb (Changed a)); [reflexivity|].
  destruct (Marshal (Indexes a)); [|reflexivity].
  now destruct res as [|[n|]].
Qed.

Lemma saveIndexes_in_sync res a w :
  table_ok (Indexes a) -> in_sync a w ->
  in_sync (saveIndexes res a w).1 (saveIndexes res a w).2.
Proof.
  intros Ht Hs. unfold saveIndexes.
  destruct (Changed a) eqn:Hc; cbn [negb]; [|exact Hs].
  assert (Hrt : exists data,
             Marshal (Indexes a) = inl data
             /\ Unmarshal data None = inl (Indexes a)).
  { destruct (Indexes a) as [m|].
    - apply (Unmarshal_Marshal m None Ht). reflexivity.
    - exists "null". split; [reflexivity|].
      apply Unmarshal_null, null_is_null_document. }
  destruct Hrt as (data & Hd & Hu). rewrite Hd.
  destruct res as [|[n|]]; cbn; intros Hf; try discriminate.
  rewrite loadIndexes_Indexes. cbn. unfold ReadFile. cbn.
  rewrite lookup_insert_eq. now rewrite Hu.
Qed.

Lemma ServeHTTP_made r a :
  Indexes a <> None -> Indexes (state_of (ServeHTTP r a)) <> None.
Proof.
  rewrite ServeHTTP_handle. intros Ha H.
  destruct (handle_frame r a) as [[_ _ _ N _ _] _]. tauto.
Qed.

(** X8. The snapshot is never stale behind a clear flag. Over every run of
    requests (with paths that are valid UTF-8) and of ticks of the ticker,
    with writes that succeed or fail, from a state with a table that can be
    written and read back and a snapshot that is up to date: whenever
    [Changed] is false, loading the snapshot into a new instance gives the
    table that the instance holds; so a change of the table is not lost
    once it has been flushed. The table stays one that is there and that
    can be written and read back. *)
Theorem run_in_sync (es : list Event) (a : AuthModifier) (w : World) :
  Indexes a <> None -> table_ok (Indexes a) -> in_sync a w ->
  Forall event_ok es ->
  in_sync (run es (a, w)).1 (run es (a, w)).2
  /\ table_ok (Indexes (run es (a, w)).1)
  /\ Indexes (run es (a, w)).1 <> None.
Proof.
  revert a w. induction es as [|e es IH]; intros a w Hm Ht Hs Hes;
    [now repeat split|].
  inversion Hes as [|? ? He Hes']; subst. unfold run. cbn [fold_left].
  destruct e as [r|res]; cbn [step fst snd event_ok] in *.
  - apply IH; [now apply ServeHTTP_made|now apply ServeHTTP_table_ok|
               now apply ServeHTTP_in_sync|exact Hes'].
  - pose proof (saveIndexes_in_sync res a w Ht Hs) as H1.
    pose proof (saveIndexes_Indexes res a w) as H2.
    destruct (saveIndexes res a w) as [a1 w1]. cbn [fst snd] in *.
    apply IH; [now rewrite H2|now rewrite H2|exact H1|exact Hes'].
Qed.

Lemma saveIndexes_IndexPath res a w :
  IndexPath (saveIndexes res a w).1 = IndexPath a.
Proof.
  unfold saveIndexes. destruct (negb (Changed a)); [reflexivity|].
  destruct (Marshal (Indexes a)); [|reflexivity].
  now destruct res as [|[n|]].
Qed.

Lemma saveIndexes_ok_clears a w : Changed (saveIndexes WriteOk a w).1 = false.
Proof.
  unfold saveIndexes. destruct (Changed a) eqn:Hc; cbn [negb]; [|exact Hc].
  destruct (Marshal_total (Indexes a)) as [data ->]. reflexivity.
Qed.

(** X9. The positions survive a restart. From every state whose table can
    be written and read back and whose snapshot is up to date (every state
    of a run is one), a [Cleanup] whose write succeeds leaves a snapshot
    from which [Provision] gives a new instance, configured with the same
    path, the very table that the old instance had, whether the directory
    could be made or not; and the old instance is left with a clear
    flag. *)
Theorem restart_restores_table (a b : AuthModifier) (w : World)
    (mk : option error) :
  table_ok (Indexes a) -> in_sync a w ->
  Indexes b = None -> snapshot_path b = IndexPath a ->
  let c := Cleanup WriteOk a w in
  Indexes (Provision mk b c.1.2).1.1 = Indexes a
  /\ Indexes c.1.1 = Indexes a
  /\ Changed c.1.1 = false.
Proof.
  intros Ht Hs Hb Hp c.
  pose proof (saveIndexes_in_sync WriteOk a w Ht Hs) as H1.
  specialize (H1 (saveIndexes_ok_clears a w)).
  rewrite saveIndexes_Indexes in H1.
  assert (Hc : c.1 = saveIndexes WriteOk a w).
  { unfold c, Cleanup. now destruct (saveIndexes WriteOk a w). }
  rewrite Hc. split; [|split; [apply saveIndexes_Indexes|
                               apply saveIndexes_ok_clears]].
  rewrite Provision_Indexes, <- H1, !loadIndexes_Indexes.
  cbn [with_Indexes with_IndexPath IndexPath Indexes].
  now rewrite Hp, Hb, saveIndexes_IndexPath.
Qed.

(** ** What a flush touches *)

(** X10. [saveIndexes], whatever the state, the file system and the fate
    of the write: the table and the configured path are as before; no file
    other than the snapshot is changed; at most one write is made, and it
    is a write of the serialized table to the configured path; [Changed] is
    never set by a flush that found it clear; and the only entry it can add
    to the log is that of a failed write (serializing the table cannot
    fail). *)
Theorem saveIndexes_frame (res : WriteResult) (a : AuthModifier) (w : World) :
  let a' := (saveIndexes res a w).1 in
  let w' := (saveIndexes res a w).2 in
  Indexes a' = Indexes a
  /\ IndexPath a' = IndexPath a
  /\ (forall p, p <> IndexPath a -> files w' !! p = files w !! p)
  /\ (calls w' = calls w
      \/ exists data,
           Marshal (Indexes a) = inl data
           /\ calls w' = calls w ++ [SysWriteFile (IndexPath a) data])
  /\ (Changed a = false -> Changed a' = false)
  /\ (logger a' = logger a
      \/ res <> WriteOk
         /\ logger a'
            = logger a
              ++ [{| level := ErrorLevel;
                     message := "Error writing indexes to file";
                     field := zap_Error ErrFileSystem |}]).
Proof.
  intros a' w'. split; [apply saveIndexes_Indexes|].
  split; [apply saveIndexes_IndexPath|].
  unfold a', w', saveIndexes.
  destruct (Changed a) eqn:Hc; cbn [negb]; [|cbn; auto 6].
  destruct (Marshal_total (Indexes a)) as [data Hd]. rewrite Hd.
  destruct res as [|[n|]]; cbn.
  - split; [intros p Hp; now apply lookup_insert_ne|].
    split; [right; eauto|]. split; [discriminate|]. now left.
  - split; [intros p Hp; now apply lookup_insert_ne|].
    split; [right; eauto|]. split; [discriminate|]. right.
    split; [discriminate|reflexivity].
  - split; [intros p Hp; now apply lookup_delete_ne|].
    split; [right; eauto|]. split; [discriminate|]. right.
    split; [discriminate|reflexivity].
Qed.

(** ** Loading into a table that is there *)

(** The written form of a table, read into any map. *)
Lemma Unmarshal_Marshal_into (m : gmap string Z)
    (cur : option (gmap string Z)) :
  map_Forall (fun k v => ValidString k = true /\ Int.is_int v) m ->
  exists data,
    Marshal (Some m) = inl data
    /\ Unmarshal data cur = inl (Some (m ∪ default ∅ cur)).
Proof.
  intros Hm. eexists. split; [reflexivity|].
  set (m0 := default ∅ cur).
  set (L := merge_sort key_le (map_to_list m)).
  assert (HP : L ≡ₚ map_to_list m) by apply merge_sort_Permutation.
  assert (Hnd : NoDup L.*1).
  { rewrite HP. apply NoDup_fst_map_to_list. }
  assert (Hok : Forall entry_ok L).
  { apply Forall_forall. intros [k v] Hin.
    rewrite HP in Hin. apply elem_of_map_to_list in Hin.
    exact (Hm k v Hin). }
  assert (Hmap : fold_left store L m0 = m ∪ m0).
  { rewrite fold_store by exact Hnd.
    rewrite (list_to_map_proper L (map_to_list m) Hnd HP).
    now rewrite list_to_map_to_list. }
  unfold Unmarshal. rewrite app_cons, app_empty_l.
  rewrite skip_space_id by reflexivity.
  change (code "{" =? 123) with true. cbv iota. fold m0.
  destruct L as [|kv L'] eqn:EL.
  - cbn [fmap list_fmap Join]. rewrite app_empty_l.
    rewrite skip_space_id by reflexivity.
    change (code "}" =? 125) with true. cbv iota.
    cbn in Hmap. rewrite <- Hmap. reflexivity.
  - assert (Hq : exists t,
               Join (encode_entry <$> kv :: L') "," +:+ "}"
               = String quote t).
    { destruct L' as [|kv' L''].
      - cbn [fmap list_fmap Join]. apply encode_entry_first.
      - change (Join (encode_entry <$> kv :: kv' :: L'') ",")
          with (encode_entry kv +:+ "," +:+ Join (encode_entry <$> kv' :: L'') ",").
        rewrite !app_assoc. apply encode_entry_first. }
    destruct Hq as [t Hq]. rewrite Hq, skip_space_id by reflexivity.
    change (code quote =? 125) with false. cbv iota.
    rewrite <- Hq.
    rewrite (members_entries (kv :: L') _ m0 "");
      [|discriminate|exact Hok|].
    + rewrite Hmap. reflexivity.
    + pose proof (length_Join_bound (encode_entry <$> kv :: L')) as Hb.
      rewrite length_fmap in Hb. rewrite length_app.
      cbn [String.length]. lia.
Qed.

(** X11. [loadIndexes] on an instance that has a table already (a second
    [Provision] of the same instance) does not replace the table: the
    entries of the snapshot are stored into it. For a snapshot that is the
    written form of a table [m] (keys valid UTF-8), the table after the
    load has the position of [m] for every key of [m], and keeps the entry
    that it had for every other key; nothing is logged. *)
Theorem loadIndexes_merges (a : AuthModifier) (w : World)
    (m m0 : gmap string Z) (data : string) :
  table_ok (Some m) ->
  Marshal (Some m) = inl data ->
  files w !! IndexPath a = Some (File data) ->
  Indexes a = Some m0 ->
  Indexes (loadIndexes a w) = Some (m ∪ m0)
  /\ (forall k v, m !! k = Some v ->
                  entry_of (Indexes (loadIndexes a w)) k = Some v)
  /\ (forall k, m !! k = None ->
                entry_of (Indexes (loadIndexes a w)) k = m0 !! k)
  /\ logger (loadIndexes a w) = logger a.
Proof.
  intros Ht Hd Hf Ha.
  destruct (Unmarshal_Marshal_into m (Some m0) Ht) as (data' & Hd' & Hu).
  assert (data' = data) as -> by congruence.
  assert (E : loadIndexes a w = with_Indexes a (Some (m ∪ m0))).
  { unfold loadIndexes, ReadFile. rewrite Hf, Ha, Hu. reflexivity. }
  rewrite E. cbn [Indexes with_Indexes entry_of logger].
  split; [reflexivity|]. split; [|split; [|reflexivity]].
  - intros k v Hk. now apply lookup_union_Some_l.
  - intros k Hk. now apply lookup_union_r.
Qed.

(** ** The two versions of the package *)

Lemma V1_block_outcome (index : Z) (tokens : list string)
    (key msg pre hdr p : string) (r : Request) (a : AuthModifier)
    (l : list Entry) :
  tokens <> [] ->
  (i ← int_rem index (Z.of_nat (length tokens));
   selectedToken ← slice_index tokens i;
   let r1 := set_header (with_URL_Path r p) hdr (pre +:+ selectedToken) in
   updateIndex key (Z.of_nat (length tokens));;
   mret r1) (with_logger a l)
  = as_V1 p l (block_result index tokens key msg pre hdr r a).
Proof.
  intros Hne. pose proof (length_pos_Z tokens Hne) as Hpos.
  pose proof (rem_lt_length index tokens Hne) as Hlt.
  unfold block_result.
  erewrite bind_Ret by (apply int_rem_Ret; lia).
  destruct (Z.ltb_spec (Z.rem index (Z.of_nat (length tokens))) 0) as [Hn|Hn].
  - apply bind_Panicked. unfold slice_index.
    destruct (Z.leb_spec 0 (Z.rem index (Z.of_nat (length tokens))));
      [lia|reflexivity].
  - erewrite bind_Ret by (apply slice_index_Ret; lia).
    cbv zeta.
    destruct (Indexes a) as [m|] eqn:Hm.
    + erewrite bind_Ret by (apply updateIndex_Ret; [exact Hm|lia]).
      reflexivity.
    + apply bind_Panicked. apply updateIndex_nil; [exact Hm|lia].
Qed.

Lemma V1_key_outcome (index : Z) (key k p : string) (r1 : Request)
    (a : AuthModifier) (l : list Entry) :
  (if 0 <? len k then
     let apiKeys := Split k "," in
     if 0 <? Z.of_nat (length apiKeys) then
       i ← int_rem index (Z.of_nat (length apiKeys));
       selectedApiKey ← slice_index apiKeys i;
       let r2 :=
         set_header (with_URL_Path r1 p) "X-Goog-Api-Key" selectedApiKey in
       updateIndex key (Z.of_nat (length apiKeys));;
       mret r2
     else mret (with_URL_Path r1 p)
   else mret (with_URL_Path r1 p)) (with_logger a l)
  = as_V1 p l (key_result index key k r1 a).
Proof.
  unfold key_result. destruct (0 <? len k); [|reflexivity]. cbv zeta.
  pose proof (Split_not_nil k ",") as Hne.
  destruct (0 <? Z.of_nat (length (Split k ","))) eqn:Hl;
    [|apply Z.ltb_ge in Hl; pose proof (length_pos_Z _ Hne); lia].
  apply (V1_block_outcome index (Split k ",") key "Set X-Goog-Api-Key" ""
           "X-Goog-Api-Key" p r1 a l Hne).
Qed.

(** X12. The version of the package without a configured path is the
    other version with the whole URL [r.URL.String()] in the place of the
    path as the key of the table, and without the debug output: on every
    request and state it returns or panics as the other does on the request
    keyed by the URL, with the same panic, the same headers handed on, the
    same table and the same flag. With the path "indexes.json" configured,
    saving and loading are the same functions in both. *)
Theorem V1_ServeHTTP_agrees (r : Request) (a : AuthModifier) :
  V1.ServeHTTP r a
  = as_V1 (URL_Path r) (logger a) (ServeHTTP (keyed_by_URL r) a)
  /\ (IndexPath a = "indexes.json" ->
      forall w,
        V1.loadIndexes a w = loadIndexes a w
        /\ forall res, V1.saveIndexes res a w = saveIndexes res a w).
Proof.
  split.
  2:{ intros Hp w. unfold V1.loadIndexes, loadIndexes, V1.saveIndexes,
        saveIndexes. cbn [IndexPath with_Changed]. rewrite Hp. auto. }
  rewrite ServeHTTP_handle. unfold V1.ServeHTTP, handle.
  erewrite bind_Ret by reflexivity.
  destruct r as [p u hd]. destruct a as [ix ch ip l].
  cbn [keyed_by_URL URL_Path URL_String Header logger Indexes].
  set (rk := {| URL_Path := u; URL_String := u; Header := hd |}).
  set (a := {| Indexes := ix; Changed := ch; IndexPath := ip; logger := l |}).
  set (index := map_get ix u).
  set (h := Header_Get hd "Authorization").
  set (k := Header_Get hd "X-Goog-Api-Key").
  assert (Hend : forall a1 (m : M Request) o,
             m a1 = o -> (r2 ← m; mret r2) a1 = o).
  { intros a1 m o <-. unfold mbind, M_bind. now destruct (m a1). }
  unfold authCandidates.
  destruct (hasBearerPrefix h) eqn:Hb.
  - pose proof (Split_not_nil (TrimSpace (slice_from 7 h)) ",") as Hne.
    fold (bearerTokens h) in Hne.
    destruct (0 <? Z.of_nat (length (bearerTokens h))) eqn:Hl;
      [|apply Z.ltb_ge in Hl; pose proof (length_pos_Z _ Hne); lia].
    erewrite bind_eq
      by (apply (V1_block_outcome index (bearerTokens h) u
                   "Set Authorization" "Bearer " "Authorization" p rk a l
                   Hne)).
    destruct (block_result _ _ _ _ _ _ _ _) as [r1 a1|q a']; [|reflexivity].
    cbn [as_V1]. apply Hend. apply (V1_key_outcome index u k p r1 a1 l).
  - destruct (0 <? len h) eqn:Hlh.
    + pose proof (Split_not_nil h ",") as Hne.
      destruct (0 <? Z.of_nat (length (Split h ","))) eqn:Hl;
        [|apply Z.ltb_ge in Hl; pose proof (length_pos_Z _ Hne); lia].
      erewrite bind_eq
        by (apply (V1_block_outcome index (Split h ",") u
                     "Set Authorization" "" "Authorization" p rk a l Hne)).
      destruct (block_result _ _ _ _ _ _ _ _) as [r1 a1|q a']; [|reflexivity].
      cbn [as_V1]. apply Hend. apply (V1_key_outcome index u k p r1 a1 l).
    + erewrite bind_Ret by reflexivity.
      apply Hend. apply (V1_key_outcome index u k p rk a l).
Qed.

(** ** Requests for different keys *)

Lemma map_get_entry t k : map_get t k = default 0 (entry_of t k).
Proof. now destruct t. Qed.

Lemma block_result_local index tokens key msg pre hdr r a b :
  same_at key a b ->
  same_result (block_result index tokens key msg pre hdr r a)
    (block_result index tokens key msg pre hdr r b)
  /\ same_at key
       (state_of (block_result index tokens key msg pre hdr r a))
       (state_of (block_result index tokens key msg pre hdr r b)).
Proof.
  intros [He Hn]. unfold block_result.
  destruct (Z.rem index (Z.of_nat (length tokens)) <? 0);
    [split; [reflexivity|now split]|].
  destruct (Indexes a) as [ma|] eqn:Ha, (Indexes b) as [mb|] eqn:Hb.
  - split; [reflexivity|].
    unfold same_at. cbn [state_of]. rewrite !advanced_Indexes.
    unfold advance_map. cbn [entry_of] in He |- *. split.
    + rewrite !lookup_insert_eq, He. reflexivity.
    + split; discriminate.
  - destruct Hn as [_ Hn]. now specialize (Hn eq_refl).
  - destruct Hn as [Hn _]. now specialize (Hn eq_refl).
  - split; [reflexivity|].
    unfold same_at. cbn [state_of with_log Indexes]. rewrite Ha, Hb.
    now split.
Qed.

Lemma key_result_local index key k r a b :
  same_at key a b ->
  same_result (key_result index key k r a) (key_result index key k r b)
  /\ same_at key (state_of (key_result index key k r a))
       (state_of (key_result index key k r b)).
Proof.
  intros H. unfold key_result. destruct (0 <? len k).
  - now apply block_result_local.
  - split; [reflexivity|exact H].
Qed.

(** What the handler does with a request depends on the state only through
    the entry of the key of the request, and through whether there is a
    table. *)
Lemma handle_local r a b :
  same_at (URL_Path r) a b ->
  same_result (handle r a) (handle r b)
  /\ same_at (URL_Path r) (state_of (handle r a)) (state_of (handle r b)).
Proof.
  intros H. unfold handle. rewrite !map_get_entry, (proj1 H).
  set (index := default 0 (entry_of (Indexes b) (URL_Path r))).
  destruct (authCandidates _) as [[pre tokens]|];
    [|now apply key_result_local].
  destruct (block_result_local index tokens (URL_Path r) "Set Authorization"
              pre "Authorization" r a b H) as [H1 H2].
  destruct (block_result index tokens _ _ _ _ _ a) as [r1 a1|p a1],
    (block_result index tokens _ _ _ _ _ b) as [r1' b1|q b1];
    cbn [same_result state_of] in *; try contradiction.
  - subst r1'. now apply key_result_local.
  - now split.
Qed.

Lemma table_ext (t1 t2 : option (gmap string Z)) :
  (t1 = None <-> t2 = None) ->
  (forall k, entry_of t1 k = entry_of t2 k) -> t1 = t2.
Proof.
  intros Hn He. destruct t1 as [m1|], t2 as [m2|].
  - f_equal. apply map_eq. exact He.
  - destruct Hn as [_ Hn]. now specialize (Hn eq_refl).
  - destruct Hn as [Hn _]. now specialize (Hn eq_refl).
  - reflexivity.
Qed.

(** X13. Requests for different keys do not interfere. For two requests
    with different paths, on a table that has been made: each is treated as
    if the other had not been served before it (the same request is handed
    on, or the same panic raised), and the table at the end is the same in
    both orders. *)
Theorem different_keys_commute (r1 r2 : Request) (a : AuthModifier) :
  Indexes a <> None ->
  URL_Path r1 <> URL_Path r2 ->
  same_result (ServeHTTP r2 (state_of (ServeHTTP r1 a))) (ServeHTTP r2 a)
  /\ same_result (ServeHTTP r1 (state_of (ServeHTTP r2 a))) (ServeHTTP r1 a)
  /\ Indexes (state_of (ServeHTTP r2 (state_of (ServeHTTP r1 a))))
     = Indexes (state_of (ServeHTTP r1 (state_of (ServeHTTP r2 a))))
  /\ Indexes (state_of (ServeHTTP r2 (state_of (ServeHTTP r1 a)))) <> None.
Proof.
  intros Hmade Hne. rewrite !ServeHTTP_handle.
  set (a1 := state_of (handle r1 a)). set (a2 := state_of (handle r2 a)).
  destruct (handle_frame r1 a) as [[_ _ _ N1 K1 _] _]. fold a1 in N1, K1.
  destruct (handle_frame r2 a) as [[_ _ _ N2 K2 _] _]. fold a2 in N2, K2.
  destruct (handle_frame r2 a1) as [[_ _ _ N12 K12 _] _].
  destruct (handle_frame r1 a2) as [[_ _ _ N21 K21 _] _].
  assert (S2 : same_at (URL_Path r2) a1 a).
  { split; [apply K1; congruence|exact N1]. }
  assert (S1 : same_at (URL_Path r1) a2 a).
  { split; [apply K2; congruence|exact N2]. }
  destruct (handle_local r2 a1 a S2) as [R2 [E2 _]]. fold a2 in E2.
  destruct (handle_local r1 a2 a S1) as [R1 [E1 _]]. fold a1 in E1.
  split; [exact R2|]. split; [exact R1|]. split; [|tauto].
  apply table_ext; [tauto|]. intros k.
  destruct (String.eqb_spec k (URL_Path r2)) as [->|Hk2].
  - rewrite E2. symmetry. apply K21. congruence.
  - destruct (String.eqb_spec k (URL_Path r1)) as [->|Hk1].
    + rewrite E1. apply K12. congruence.
    + rewrite K12, K21, K1, K2 by assumption. reflexivity.
Qed.

(** ** A comma at the end *)

Lemma Split_trailing s sep :
  Split (s +:+ String sep "") sep = Split s sep ++ [""].
Proof.
  induction s as [|c s IH].
  - rewrite app_empty_l. cbn [Split]. now rewrite Ascii.eqb_refl.
  - rewrite app_cons. cbn [Split]. rewrite IH.
    destruct (Ascii.eqb c sep); [reflexivity|].
    pose proof (Split_not_nil s sep) as Hne.
    now destruct (Split s sep).
Qed.

Lemma authCandidates_empty : authCandidates "" = None.
Proof. reflexivity. Qed.

(** X14. A comma at the end of the list makes one more candidate, the
    empty string, and the handler serves it in its turn: for an API key
    value [s,] (and no Authorization value), on a table that has been made,
    when the stored position is at the last place of the list the request
    is handed on with an empty X-Goog-Api-Key header. *)
Theorem trailing_comma_empty_credential (r : Request) (a : AuthModifier)
    (m : gmap string Z) (s : string) :
  Indexes a = Some m ->
  Header_Get (Header r) "Authorization" = "" ->
  Header_Get (Header r) "X-Goog-Api-Key" = s +:+ "," ->
  let n := Z.of_nat (length (Split s ",")) in
  let p := default 0 (m !! URL_Path r) in
  0 <= p -> p mod (n + 1) = n ->
  Split (s +:+ ",") "," = Split s "," ++ [""]
  /\ exists r' a',
       ServeHTTP r a = Ret r' a'
       /\ Header r' !! "X-Goog-Api-Key" = Some [""]
       /\ Changed a' = true.
Proof.
  intros Hm Hauth Hkey n p Hp Hmod.
  split; [apply Split_trailing|].
  rewrite ServeHTTP_handle. unfold handle, key_result.
  rewrite Hauth, authCandidates_empty, Hkey, Hm. cbn [map_get]. fold p.
  assert (Hlen : (0 <? len (s +:+ ",")) = true).
  { apply Z.ltb_lt. unfold len. rewrite length_app. cbn [String.length]. lia. }
  rewrite Hlen, Split_trailing. unfold block_result.
  assert (Hn : 0 <= n) by (unfold n; lia).
  assert (Hl : Z.of_nat (length (Split s "," ++ [""])) = n + 1).
  { rewrite List.length_app. cbn [length]. unfold n. lia. }
  assert (Hrem : Z.rem p (n + 1) = n).
  { rewrite Z.rem_mod_nonneg by lia. exact Hmod. }
  assert (Hsel : selected p (Split s "," ++ [""]) = "").
  { unfold selected. rewrite Hl, Hrem. unfold n. rewrite Nat2Z.id.
    apply nth_middle. }
  rewrite Hl, Hrem, Hsel, Hm.
  destruct (Z.ltb_spec n 0); [lia|].
  eexists _, _. split; [reflexivity|]. split; [apply set_header_same|].
  reflexivity.
Qed.

(** ** Keys that are not valid UTF-8 *)

(** [unquote] of what [appendString] has written, for any string. *)
Lemma unquote_appendString_any fuel : forall src fuel2,
  (String.length (appendString_from fuel src) <= fuel2)%nat ->
  unquote_from fuel2 (appendString_from fuel src)
  = Some (coerce_from fuel src).
Proof.
  induction fuel as [|fuel IH]; intros src fuel2 Hf; [now destruct fuel2|].
  destruct src as [|c rest]; [now destruct fuel2|].
  cbn [appendString_from coerce_from] in *.
  destruct (code c <? RuneSelf) eqn:Hascii.
  - apply Z.ltb_lt in Hascii. unfold RuneSelf in Hascii.
    pose proof (code_range c) as Hr.
    destruct (htmlSafeSet (code c)) eqn:Hsafe.
    + destruct (htmlSafeSet_plain _ Hsafe) as (H1 & H2 & H3).
      destruct fuel2 as [|f2]; [simpl in Hf; lia|].
      rewrite unquote_plain by (assumption || lia).
      rewrite (IH rest f2) by (simpl in Hf; lia). reflexivity.
    + pose proof (escape_byte_length c) as Hl.
      rewrite length_app in Hf.
      destruct fuel2 as [|f2]; [lia|].
      rewrite unquote_escape_byte by assumption.
      rewrite (IH rest f2) by lia. reflexivity.
  - apply Z.ltb_ge in Hascii. unfold RuneSelf in Hascii.
    destruct (DecodeRuneInString (String c rest)) as [r size] eqn:D.
    destruct ((r =? RuneError) && (size =? 1)%nat) eqn:Herr.
    { revert Hf. norm_app. intros Hf.
      destruct fuel2 as [|f2]; [simpl in Hf; lia|].
      rewrite (unquote_escape_u f2 "f" "f" "f" "d" _ 15 15 15 13)
        by (reflexivity || lia).
      change (((15 * 16 + 15) * 16 + 15) * 16 + 13) with RuneError.
      apply fmap_Some_app. apply IH. simpl in Hf. lia. }
    pose proof (Decode_valid c rest r size Hascii D Herr) as Henc.
    pose proof (EncodeRune_length_pos r) as Hpos.
    rewrite (encoded_slice_to _ _ _ Henc) in *.
    destruct ((r =? 8232) || (r =? 8233)) eqn:Hsep.
    + revert Hf. norm_app. intros Hf.
      destruct fuel2 as [|f2]; [simpl in Hf; lia|].
      assert (Hr : r = 8232 \/ r = 8233).
      { apply orb_true_iff in Hsep as [E|E]; apply Z.eqb_eq in E; auto. }
      rewrite (unquote_escape_u f2 "2" "0" "2" _ _ 2 0 2 (Z.land r 15));
        try reflexivity.
      * replace (((2 * 16 + 0) * 16 + 2) * 16 + Z.land r 15) with r
          by (destruct Hr as [-> | ->]; reflexivity).
        apply fmap_Some_app. apply IH. simpl in Hf. lia.
      * apply unhex_hexdigit. rewrite land_15. apply Z.mod_pos_bound. lia.
      * destruct Hr as [-> | ->]; vm_compute; discriminate.
      * destruct Hr as [-> | ->]; reflexivity.
    + rewrite length_app in Hf.
      destruct fuel2 as [|f2]; [lia|].
      rewrite (unquote_high f2 r size) by (apply Henc).
      apply fmap_Some_app. apply IH. lia.
Qed.

(** A string that is valid UTF-8 is read back as it is. *)
Lemma coerce_valid fuel : forall src,
  valid_from fuel src = true -> coerce_from fuel src = src.
Proof.
  induction fuel as [|fuel IH]; intros src Hv.
  { now destruct src. }
  destruct src as [|c rest]; [reflexivity|].
  cbn [valid_from coerce_from] in *.
  destruct (code c <? RuneSelf) eqn:Hascii.
  - apply Z.ltb_lt in Hascii. unfold RuneSelf in Hascii.
    rewrite Decode_ascii in Hv by exact Hascii.
    destruct ((code c =? RuneError) && (1 =? 1)%nat); [discriminate|].
    f_equal. apply IH. exact Hv.
  - destruct (DecodeRuneInString (String c rest)) as [r size] eqn:D.
    destruct ((r =? RuneError) && (size =? 1)%nat); [discriminate|].
    rewrite (IH _ Hv). apply slice_to_from.
Qed.

(** One entry with any key, as [members] reads it. *)
Lemma members_entry_any fuel k v d tail m0 :
  Int.is_int v -> code d = 0x2C \/ code d = 0x7D ->
  members (S fuel) (encode_entry (k, v) +:+ String d tail) m0
  = if code d =? 0x2C
    then members fuel (skip_space tail) (<[coerced k := v]> m0)
    else Some (<[coerced k := v]> m0, tail).
Proof.
  intros Hv Hd.
  unfold encode_entry, appendString. cbn [fst snd].
  rewrite !app_assoc. norm_app. cbn [members].
  change (code quote) with 34. cbn [Z.eqb Pos.eqb negb].
  rewrite scan_appendString.
  unfold unquote.
  rewrite unquote_appendString_any by lia. fold (coerced k).
  rewrite skip_space_id by reflexivity.
  change (code ":" =? 58) with true. cbn [negb].
  destruct (FormatInt_first v (String d tail)) as (c & t & E & Hc).
  rewrite E, (skip_space_id c t Hc), <- E.
  rewrite scan_value_FormatInt
    by (exact Hv || (apply after_entry_no_digit; exact Hd)).
  rewrite skip_space_id.
  - destruct Hd as [-> | ->]; reflexivity.
  - unfold isSpace. destruct Hd as [-> | ->]; reflexivity.
Qed.

Lemma members_entries_any L : forall fuel m0 rest,
  L <> [] -> Forall (fun kv => Int.is_int kv.2) L -> (length L <= fuel)%nat ->
  members fuel (Join (encode_entry <$> L) "," +:+ String "}" rest) m0
  = Some (fold_left store (recode <$> L) m0, rest).
Proof.
  induction L as [|[k v] L IH]; intros fuel m0 rest Hne Hok Hfuel;
    [contradiction|].
  inversion Hok as [|? ? Hkv HL]; subst. cbn [snd] in Hkv.
  destruct fuel as [|fuel]; [simpl in Hfuel; lia|].
  destruct L as [|kv' L'].
  - cbn [fmap list_fmap Join fold_left].
    rewrite members_entry_any by (exact Hkv || (right; reflexivity)).
    reflexivity.
  - change (Join (encode_entry <$> (k, v) :: kv' :: L') ",")
      with (encode_entry (k, v) +:+ "," +:+ Join (encode_entry <$> kv' :: L') ",").
    rewrite !app_assoc, app_cons, app_empty_l.
    rewrite members_entry_any by (exact Hkv || (left; reflexivity)).
    change (code "," =? 44) with true. cbv iota.
    assert (Hq : exists t,
               Join (encode_entry <$> kv' :: L') "," +:+ String "}" rest
               = String quote t).
    { destruct L' as [|kv'' L''].
      - cbn [fmap list_fmap Join]. apply encode_entry_first.
      - change (Join (encode_entry <$> kv' :: kv'' :: L'') ",")
          with (encode_entry kv' +:+ "," +:+ Join (encode_entry <$> kv'' :: L'') ",").
        rewrite !app_assoc. apply encode_entry_first. }
    destruct Hq as [t Hq]. rewrite Hq, skip_space_id by reflexivity.
    rewrite <- Hq. rewrite IH; [reflexivity|discriminate|exact HL|].
    simpl in Hfuel |- *. lia.
Qed.

Lemma fold_store_lookup L : forall (m0 : gmap string Z) k v,
  fold_left store L m0 !! k = Some v -> (k, v) ∈ L \/ m0 !! k = Some v.
Proof.
  induction L as [|[k1 v1] L IH]; intros m0 k v H; cbn [fold_left] in H;
    [now right|].
  apply IH in H as [H|H]; [left; apply elem_of_cons; now right|].
  unfold store in H. cbn [fst snd] in H.
  destruct (decide (k1 = k)) as [->|Hne].
  - rewrite lookup_insert_eq in H. injection H as <-. left.
    apply elem_of_cons. now left.
  - rewrite lookup_insert_ne in H by exact Hne. now right.
Qed.

Lemma fold_store_is_Some L : forall (m0 : gmap string Z) k,
  is_Some (m0 !! k) \/ k ∈ L.*1 -> is_Some (fold_left store L m0 !! k).
Proof.
  induction L as [|[k1 v1] L IH]; intros m0 k H; cbn [fold_left].
  - destruct H as [H|H]; [exact H|]. now apply elem_of_nil in H.
  - apply IH. unfold store. cbn [fst snd].
    rewrite lookup_insert_is_Some.
    destruct (decide (k1 = k)) as [->|Hne]; [left; now left|].
    destruct H as [H|H]; [left; right; now split|].
    cbn [fmap list_fmap fst] in H. apply elem_of_cons in H as [->|H];
      [contradiction|now right].
Qed.

(** The written form of any table, read into a map. *)
Lemma Unmarshal_Marshal_any (m : gmap string Z)
    (cur : option (gmap string Z)) :
  map_Forall (fun _ v => Int.is_int v) m ->
  Unmarshal ("{"
             +:+ Join (encode_entry <$> merge_sort key_le (map_to_list m)) ","
             +:+ "}") cur
  = inl (Some (fold_left store
                 (recode <$> merge_sort key_le (map_to_list m))
                 (default ∅ cur))).
Proof.
  intros Hm.
  set (m0 := default ∅ cur).
  set (L := merge_sort key_le (map_to_list m)).
  assert (HP : L ≡ₚ map_to_list m) by apply merge_sort_Permutation.
  assert (Hok : Forall (fun kv => Int.is_int kv.2) L).
  { apply Forall_forall. intros [k v] Hin.
    rewrite HP in Hin. apply elem_of_map_to_list in Hin.
    exact (Hm k v Hin). }
  unfold Unmarshal. rewrite app_cons, app_empty_l.
  rewrite skip_space_id by reflexivity.
  change (code "{" =? 123) with true. cbv iota. fold m0.
  destruct L as [|kv L'] eqn:EL.
  - cbn [fmap list_fmap Join]. rewrite app_empty_l.
    rewrite skip_space_id by reflexivity.
    change (code "}" =? 125) with true. cbv iota. reflexivity.
  - assert (Hq : exists t,
               Join (encode_entry <$> kv :: L') "," +:+ "}"
               = String quote t).
    { destruct L' as [|kv' L''].
      - cbn [fmap list_fmap Join]. apply encode_entry_first.
      - change (Join (encode_entry <$> kv :: kv' :: L'') ",")
          with (encode_entry kv +:+ "," +:+ Join (encode_entry <$> kv' :: L'') ",").
        rewrite !app_assoc. apply encode_entry_first. }
    destruct Hq as [t Hq]. rewrite Hq, skip_space_id by reflexivity.
    change (code quote =? 125) with false. cbv iota.
    rewrite <- Hq.
    rewrite (members_entries_any (kv :: L') _ m0 "");
      [reflexivity|discriminate|exact Hok|].
    pose proof (length_Join_bound (encode_entry <$> kv :: L')) as Hb.
    rewrite length_fmap in Hb. rewrite length_app.
    cbn [String.length]. lia.
Qed.

(** X15. [loadIndexes] never rejects a snapshot that [saveIndexes] has
    written, whatever the keys of the table: after a flush whose write
    succeeds, a new instance with the same path loads a table and logs
    nothing. Every key is there in its coerced form (a byte that is not
    valid UTF-8 read back as U+FFFD), so a key that is valid UTF-8 is there
    under its own name; and every entry that is loaded has the position of
    a key of the table that was written. *)
Theorem written_snapshot_loads (a b : AuthModifier) (w : World)
    (m : gmap string Z) :
  map_Forall (fun _ v => Int.is_int v) m ->
  Indexes a = Some m -> Changed a = true ->
  Indexes b = None -> IndexPath b = IndexPath a ->
  let b' := loadIndexes b (saveIndexes WriteOk a w).2 in
  logger b' = logger b
  /\ exists m',
       Indexes b' = Some m'
       /\ (forall k v, m !! k = Some v -> is_Some (m' !! coerced k))
       /\ (forall k v, m !! k = Some v -> ValidString k = true ->
                       is_Some (m' !! k))
       /\ (forall k' v, m' !! k' = Some v ->
                        exists k, m !! k = Some v /\ coerced k = k').
Proof.
  intros Hm Ha Hc Hb Hp b'.
  pose proof (Unmarshal_Marshal_any m None Hm) as Hu.
  set (L := merge_sort key_le (map_to_list m)) in *.
  assert (HP : L ≡ₚ map_to_list m) by apply merge_sort_Permutation.
  set (m' := fold_left store (recode <$> L) (default ∅ None)) in *.
  assert (E : b' = with_Indexes b (Some m')).
  { unfold b', saveIndexes. rewrite Hc, Ha. cbn [negb Marshal].
    cbn [WriteFile snd with_Changed IndexPath].
    unfold loadIndexes, ReadFile. cbn [files].
    rewrite Hp, lookup_insert_eq, Hb. fold L. rewrite Hu. reflexivity. }
  rewrite E. split; [reflexivity|]. exists m'. split; [reflexivity|].
  assert (Hin : forall k v, m !! k = Some v -> is_Some (m' !! coerced k)).
  { intros k v Hk. apply fold_store_is_Some. right.
    apply list_elem_of_fmap. exists (coerced k, v). split; [reflexivity|].
    apply list_elem_of_fmap. exists (k, v). split; [reflexivity|].
    rewrite HP. now apply elem_of_map_to_list. }
  split; [exact Hin|]. split.
  - intros k v Hk Hv. specialize (Hin k v Hk).
    unfold coerced in Hin. now rewrite coerce_valid in Hin.
  - intros k' v Hk'. apply fold_store_lookup in Hk' as [Hk'|Hk'].
    + apply list_elem_of_fmap in Hk' as ([k v0] & E1 & Hin').
      unfold recode in E1. cbn [fst snd] in E1. injection E1 as -> ->.
      exists k. split; [|reflexivity].
      rewrite HP in Hin'. now apply elem_of_map_to_list in Hin'.
    + cbn in Hk'. now rewrite lookup_empty in Hk'.
Qed.

(** ** [Provision] *)



(** ** Spaces around the list of a bearer value *)

Lemma asciiSpace_ascii b : asciiSpace b = true -> b < RuneSelf.
Proof.
  unfold asciiSpace, RuneSelf.
  rewrite orb_true_iff, andb_true_iff, !Z.leb_le, Z.eqb_eq. lia.
Qed.

Lemma at_app_r s t i : at_ (s +:+ t) (String.length s + i) = at_ t i.
Proof. induction s as [|c s IH]; [reflexivity|exact IH]. Qed.

Lemma at_ascii_spaces t : forall i,
  ascii_spaces t = true -> (i < String.length t)%nat ->
  asciiSpace (at_ t i) = true.
Proof.
  induction t as [|c t IH]; intros i Ht Hi; [simpl in Hi; lia|].
  cbn [ascii_spaces] in Ht. apply andb_true_iff in Ht as [Hc Ht].
  destruct i as [|i]; [exact Hc|]. apply IH; [exact Ht|simpl in Hi; lia].
Qed.

(** The second loop of [TrimSpace], over the spaces at the end. *)
Lemma TrimSpace_stop_padded s d t : forall k,
  plain_byte d = true -> ascii_spaces t = true ->
  (k <= String.length t)%nat ->
  TrimSpace_stop ((s +:+ String d "") +:+ t)
    (String.length (s +:+ String d "") + k)
  = s +:+ String d "".
Proof.
  intros k Hd Ht. unfold plain_byte in Hd.
  apply andb_true_iff in Hd as [Hd1 Hd2]. apply Z.ltb_lt in Hd1.
  apply negb_true_iff in Hd2.
  induction k as [|k IH]; intros Hk.
  - assert (Hat : at_ ((s +:+ String d "") +:+ t) (String.length s) = code d).
    { rewrite app_assoc, <- (Nat.add_0_r (String.length s)), at_app_r.
      reflexivity. }
    assert (Hlen : String.length (s +:+ String d "") = S (String.length s)).
    { rewrite length_app. cbn [String.length]. lia. }
    rewrite Nat.add_0_r, Hlen. cbn [TrimSpace_stop]. rewrite Hat.
    destruct (Z.leb_spec RuneSelf (code d)); [lia|]. rewrite Hd2.
    rewrite <- Hlen. apply slice_to_app.
  - rewrite Nat.add_succ_r. cbn [TrimSpace_stop]. rewrite at_app_r.
    pose proof (at_ascii_spaces t k Ht ltac:(lia)) as Hsp.
    pose proof (asciiSpace_ascii _ Hsp).
    destruct (Z.leb_spec RuneSelf (at_ t k)); [lia|]. rewrite Hsp.
    apply IH. lia.
Qed.

(** The first loop of [TrimSpace], over the spaces at the start. *)
Lemma TrimSpace_padded l c s t :
  ascii_spaces l = true -> plain_byte c = true ->
  TrimSpace (l +:+ String c s +:+ t)
  = TrimSpace_stop (String c s +:+ t) (String.length (String c s +:+ t)).
Proof.
  intros Hl Hc. induction l as [|sp l IH].
  - rewrite app_empty_l, app_cons. cbn [TrimSpace].
    unfold plain_byte in Hc. apply andb_true_iff in Hc as [Hc1 Hc2].
    apply Z.ltb_lt in Hc1. apply negb_true_iff in Hc2.
    destruct (Z.leb_spec RuneSelf (code c)); [lia|]. now rewrite Hc2.
  - cbn [ascii_spaces] in Hl. apply andb_true_iff in Hl as [Hsp Hl].
    rewrite app_cons. cbn [TrimSpace].
    pose proof (asciiSpace_ascii _ Hsp).
    destruct (Z.leb_spec RuneSelf (code sp)); [lia|]. rewrite Hsp.
    apply IH. exact Hl.
Qed.

(** X17. ASCII spaces after the prefix and at the end of a bearer value
    are dropped before the value is split: for a list [s] that starts and
    ends with an ASCII byte that is not a space, the value made of a prefix
    (seven bytes, "bearer " up to case), spaces, [s] and spaces has the
    candidates of [s], the pieces of [s] between its commas. *)
Theorem bearer_padding_dropped (pre l s t s1 s2 : string) (c d : ascii) :
  String.length pre = 7%nat -> fold_eq pre "bearer " = true ->
  ascii_spaces l = true -> ascii_spaces t = true ->
  s = String c s1 -> s = s2 +:+ String d "" ->
  plain_byte c = true -> plain_byte d = true ->
  hasBearerPrefix (pre +:+ l +:+ s +:+ t) = true
  /\ bearerTokens (pre +:+ l +:+ s +:+ t) = Split s ",".
Proof.
  intros Hlen Hfold Hl Ht Hs1 Hs2 Hc Hd.
  split; [now apply hasBearerPrefix_app|].
  rewrite bearerTokens_app by exact Hlen. f_equal.
  rewrite Hs1, TrimSpace_padded by assumption.
  rewrite <- Hs1, Hs2, length_app.
  apply TrimSpace_stop_padded; [exact Hd|exact Ht|lia].
Qed.

(** ** Headers with more than one line *)

Lemma authCandidates_Some h : h <> "" -> authCandidates h <> None.
Proof.
  intros Hh. unfold authCandidates.
  destruct (hasBearerPrefix h); [discriminate|].
  destruct (0 <? len h) eqn:E; [discriminate|].
  now apply len_zero_iff in E.
Qed.

Lemma request_eq (r r' : Request) :
  URL_Path r = URL_Path r' -> URL_String r = URL_String r' ->
  Header r = Header r' -> r = r'.
Proof. destruct r, r'. cbn. now intros -> -> ->. Qed.

Lemma set_header_twice r hdr v x :
  set_header (set_header r hdr v) hdr x = set_header r hdr x.
Proof.
  apply request_eq; try reflexivity. cbn. unfold Header_Set.
  apply insert_insert_eq.
Qed.

Lemma block_result_request_eq index tokens key msg pre hdr r r' a :
  (forall x, set_header r hdr x = set_header r' hdr x) ->
  block_result index tokens key msg pre hdr r a
  = block_result index tokens key msg pre hdr r' a.
Proof. intros H. unfold block_result. now rewrite H. Qed.

(** X18. Of a credential header with several lines the handler reads the
    first line only, and writes back a single line: a request with the
    lines [v], ... of the Authorization header, [v] not empty, is treated
    as the request with the one line [v]; the same request is handed on
    and the same state left, or the same panic raised. *)
Theorem later_header_lines_dropped (r : Request) (a : AuthModifier)
    (v : string) (more : list string) :
  Header r !! "Authorization" = Some (v :: more) -> v <> "" ->
  ServeHTTP r a = ServeHTTP (set_header r "Authorization" v) a.
Proof.
  intros Hh Hv. rewrite !ServeHTTP_handle. unfold handle.
  cbn [set_header URL_Path Header].
  assert (Hget : Header_Get (Header r) "Authorization" = v).
  { unfold Header_Get. now rewrite Hh. }
  assert (Hget' : Header_Get (Header_Set (Header r) "Authorization" v)
                    "Authorization" = v).
  { unfold Header_Get, Header_Set. now rewrite lookup_insert_eq. }
  assert (Hkey : Header_Get (Header_Set (Header r) "Authorization" v)
                   "X-Goog-Api-Key"
                 = Header_Get (Header r) "X-Goog-Api-Key").
  { unfold Header_Get, Header_Set. now rewrite lookup_insert_ne. }
  rewrite Hget, Hget', Hkey.
  pose proof (authCandidates_Some v Hv) as Hc.
  destruct (authCandidates v) as [[pre tokens]|]; [|contradiction].
  erewrite (block_result_request_eq _ _ _ _ _ _ r); [reflexivity|].
  intros x. symmetry. apply set_header_twice.
Qed.

(** ** A full turn of the rotation *)

Lemma serveAll_app rs1 rs2 a o1 a1 o2 a2 :
  serveAll rs1 a = Ret o1 a1 -> serveAll rs2 a1 = Ret o2 a2 ->
  serveAll (rs1 ++ rs2) a = Ret (o1 ++ o2) a2.
Proof.
  revert a o1. induction rs1 as [|r rs1 IH]; intros a o1 H1 H2.
  - cbn in H1. injection H1 as <- <-. exact H2.
  - cbn [serveAll app] in *.
    destruct (ServeHTTP r a) as [r' a'|q a'] eqn:Hs.
    + erewrite bind_Ret in H1 by exact Hs.
      destruct (serveAll rs1 a') as [o1' a1'|q a1'] eqn:Hall.
      * erewrite bind_Ret in H1 by exact Hall. injection H1 as <- <-.
        erewrite bind_Ret by exact Hs.
        erewrite bind_Ret by (eapply IH; [exact Hall|exact H2]).
        reflexivity.
      * erewrite bind_Panicked in H1 by exact Hall. discriminate.
    + erewrite bind_Panicked in H1 by exact Hs. discriminate.
Qed.

(** Requests with the same list, from the stored position [q] up to the
    end of the list at most: the candidates from [q] on are handed on, in
    their order. *)
Lemma serveAll_stretch key hdr pre cands rs : forall (q : nat) a m,
  Forall (carries key hdr pre cands) rs ->
  Indexes a = Some m -> default 0 (m !! key) = Z.of_nat q ->
  (q < length cands)%nat -> (q + length rs <= length cands)%nat ->
  Z.of_nat (length cands) <= Int.MaxInt ->
  exists outs a1 m1,
    serveAll rs a = Ret outs a1 /\ Indexes a1 = Some m1
    /\ default 0 (m1 !! key)
       = Z.of_nat ((q + length rs) mod length cands)
    /\ handed_on hdr outs
       = (fun c => Some [pre +:+ c]) <$> take (length rs) (drop q cands).
Proof.
  induction rs as [|r rs IH]; intros q a m Hrs Hm Hq Hlt Hle Hmax.
  - exists [], a, m. split; [reflexivity|]. split; [exact Hm|].
    cbn [length]. rewrite Nat.add_0_r, Nat.mod_small by exact Hlt.
    split; [exact Hq|reflexivity].
  - inversion Hrs as [|? ? [Hkey Hone] Hrs']; subst.
    destruct (ServeHTTP_one_list r a m hdr pre cands Hm Hone)
      as (r' & a' & Hs & Hh & Hi & _).
    { rewrite Hq. lia. }
    { exact Hmax. }
    rewrite Hq, Nat2Z.id in Hh. rewrite Hq in Hi.
    destruct (lookup_lt_is_Some_2 cands q Hlt) as [x Hx].
    assert (Hnth : nth q cands "" = x).
    { rewrite nth_lookup, Hx. reflexivity. }
    assert (Hhead : handed_on hdr [r'] = [Some [pre +:+ x]]).
    { unfold handed_on. cbn. now rewrite Hh, Hnth. }
    assert (Htake : take (length (r :: rs)) (drop q cands)
                    = x :: take (length rs) (drop (S q) cands)).
    { rewrite (drop_S cands x q Hx). reflexivity. }
    cbn [length] in Hle.
    destruct (decide (S q = length cands)) as [Hend|Hmid].
    + assert (rs = []) as -> by (destruct rs; [reflexivity|simpl in Hle; lia]).
      exists [r'], a', (<[URL_Path r := (Z.of_nat q + 1) mod Z.of_nat (length cands)]> m).
      split; [cbn [serveAll]; erewrite bind_Ret by exact Hs; reflexivity|].
      split; [exact Hi|]. split.
      * rewrite lookup_insert_eq. cbn [default from_option id length].
        replace (q + 1)%nat with (length cands) by lia.
        rewrite Nat.Div0.mod_same.
        replace (Z.of_nat q + 1) with (Z.of_nat (length cands)) by lia.
        now rewrite Z.mod_same by lia.
      * rewrite Hhead, Htake. reflexivity.
    + assert (Hpos : (Z.of_nat q + 1) mod Z.of_nat (length cands)
                     = Z.of_nat (S q)).
      { rewrite Z.mod_small; lia. }
      rewrite Hpos in Hi.
      destruct (IH (S q) a' _ Hrs' Hi) as (outs & a1 & m1 & Hall & Hi1 & Hp1 & Ho).
      { rewrite lookup_insert_eq. reflexivity. }
      { lia. }
      { lia. }
      { exact Hmax. }
      exists (r' :: outs), a1, m1. split.
      { cbn [serveAll]. erewrite bind_Ret by exact Hs.
        erewrite bind_Ret by exact Hall. reflexivity. }
      split; [exact Hi1|]. split.
      * rewrite Hp1. cbn [length]. do 2 f_equal. lia.
      * change (handed_on hdr (r' :: outs))
          with (handed_on hdr [r'] ++ handed_on hdr outs).
        rewrite Hhead, Ho, Htake. reflexivity.
Qed.

(** X19. A full turn. From a stored position [p] inside the list, as many
    requests for the key as the list has candidates, each with that list,
    are all handed on, and every candidate is used exactly once: first
    those from the position [p] to the end of the list, then those from
    the start of the list up to [p]; and the stored position is [p]
    again. *)
Theorem every_candidate_once (key hdr pre : string) (cands : list string)
    (rs : list Request) (a : AuthModifier) (m : gmap string Z) (p : nat) :
  Indexes a = Some m -> default 0 (m !! key) = Z.of_nat p ->
  (p < length cands)%nat -> Z.of_nat (length cands) <= Int.MaxInt ->
  length rs = length cands ->
  Forall (carries key hdr pre cands) rs ->
  exists outs a1,
    serveAll rs a = Ret outs a1
    /\ handed_on hdr outs
       = (fun c => Some [pre +:+ c]) <$> (drop p cands ++ take p cands)
    /\ drop p cands ++ take p cands ≡ₚ cands
    /\ map_get (Indexes a1) key = Z.of_nat p.
Proof.
  intros Hm Hp Hlt Hmax Hlen Hrs.
  set (n := length cands) in *.
  rewrite <- (take_drop (n - p) rs) in Hrs |- *.
  apply Forall_app in Hrs as [Hrs1 Hrs2].
  assert (Hl1 : length (take (n - p) rs) = (n - p)%nat)
    by (rewrite length_take; lia).
  assert (Hl2 : length (drop (n - p) rs) = p)
    by (rewrite length_drop; lia).
  destruct (serveAll_stretch key hdr pre cands _ p a m Hrs1 Hm Hp Hlt)
    as (o1 & a1 & m1 & Hall1 & Hi1 & Hp1 & Ho1).
  { rewrite Hl1. fold n. lia. }
  { exact Hmax. }
  rewrite Hl1 in Hp1, Ho1. fold n in Hp1.
  replace (p + (n - p))%nat with n in Hp1 by lia.
  rewrite Nat.Div0.mod_same in Hp1.
  destruct (serveAll_stretch key hdr pre cands _ 0%nat a1 m1 Hrs2 Hi1 Hp1)
    as (o2 & a2 & m2 & Hall2 & Hi2 & Hp2 & Ho2).
  { fold n. lia. }
  { rewrite Hl2. fold n. lia. }
  { exact Hmax. }
  rewrite Hl2 in Hp2, Ho2. fold n in Hp2. cbn [Nat.add drop] in Hp2, Ho2.
  rewrite Nat.mod_small in Hp2 by exact Hlt.
  exists (o1 ++ o2), a2. split; [eapply serveAll_app; eassumption|].
  split.
  - unfold handed_on in *. rewrite fmap_app, Ho1, Ho2, fmap_app.
    rewrite take_ge by (rewrite length_drop; fold n; lia). reflexivity.
  - split.
    + rewrite Permutation_app_comm. now rewrite take_drop.
    + rewrite Hi2. exact Hp2.
Qed.

(** ** What is logged *)

Lemma block_result_log index tokens key msg pre hdr r a r1 a1 :
  block_result index tokens key msg pre hdr r a = Ret r1 a1 ->
  logger a1 = logger a ++ [debug msg (Header_Get (Header r1) hdr)]
  /\ forall hdr', hdr' <> hdr ->
       Header_Get (Header r1) hdr' = Header_Get (Header r) hdr'.
Proof.
  unfold block_result.
  destruct (Z.rem index (Z.of_nat (length tokens)) <? 0); [discriminate|].
  destruct (Indexes a); [|discriminate].
  intros E. injection E as <- <-. split.
  - cbn. unfold Header_Get, Header_Set. now rewrite lookup_insert_eq.
  - intros hdr' Hne. cbn. unfold Header_Get, Header_Set.
    now rewrite lookup_insert_ne.
Qed.

(** X20. The credentials that are handed on are written to the log. When
    the handler returns, the log has grown by exactly one debug entry for
    each header that carried candidates, first "Set Authorization", then
    "Set X-Goog-Api-Key", and the field "Auth-Key" of the entry is the
    value of that header in the request handed on, in clear. *)
Theorem selected_credentials_are_logged (r r' : Request)
    (a a' : AuthModifier) :
  ServeHTTP r a = Ret r' a' ->
  logger a'
  = logger a
    ++ match authCandidates (Header_Get (Header r) "Authorization") with
       | Some _ =>
           [debug "Set Authorization"
              (Header_Get (Header r') "Authorization")]
       | None => []
       end
    ++ (if 0 <? len (Header_Get (Header r) "X-Goog-Api-Key")
        then [debug "Set X-Goog-Api-Key"
                (Header_Get (Header r') "X-Goog-Api-Key")]
        else []).
Proof.
  rewrite ServeHTTP_handle. unfold handle, key_result.
  set (index := map_get (Indexes a) (URL_Path r)).
  set (k := Header_Get (Header r) "X-Goog-Api-Key").
  destruct (authCandidates _) as [[pre tokens]|].
  - destruct (block_result index tokens _ _ _ _ _ _) as [r1 a1|q a1] eqn:B1;
      [|discriminate].
    apply block_result_log in B1 as [L1 _].
    destruct (0 <? len k).
    + intros B2. apply block_result_log in B2 as [L2 H2].
      rewrite L2, L1, (H2 "Authorization") by discriminate.
      now rewrite <- List.app_assoc.
    + intros E. injection E as <- <-. now rewrite L1.
  - destruct (0 <? len k).
    + intros B2. apply block_result_log in B2 as [L2 _]. exact L2.
    + intros E. injection E as <- <-. now rewrite app_nil_r.
Qed.

(** * The further theorems at concrete inputs *)

Lemma negative_remainder_panics_witness :
  ServeHTTP overflow_request negative_state
  = Panicked IndexOutOfRange negative_state.
Proof.
  apply (negative_remainder_panics overflow_request negative_state
           ["a"; "b"; "c"] []).
  - reflexivity.
  - vm_compute. reflexivity.
Defined.

Lemma null_snapshot_panics_witness :
  let a' := (Provision None fresh_state null_world).1.1 in
  Indexes a' = None
  /\ panic_of (ServeHTTP bearer3 a') = Some NilMapAssignment
  /\ Indexes (state_of (ServeHTTP bearer3 a')) = None.
Proof.
  apply (null_snapshot_panics None fresh_state null_world "null" bearer3).
  - reflexivity.
  - exists "". split; reflexivity.
  - vm_compute. discriminate.
Defined.

Lemma forwarded_credentials_witness :
  let r' := (served both3 started ∅).1.1 in
  let a' := (served both3 started ∅).1.2 in
  let h := Header_Get (Header both3) "Authorization" in
  let k := Header_Get (Header both3) "X-Goog-Api-Key" in
  match authCandidates h with
  | Some (pre, tokens) =>
      exists c, In c tokens /\ has_byte "," c = false
                /\ Header r' !! "Authorization" = Some [pre +:+ c]
  | None => Header r' !! "Authorization" = Header both3 !! "Authorization"
  end
  /\ (if 0 <? len k
      then exists c, In c (Split k ",") /\ has_byte "," c = false
                     /\ Header r' !! "X-Goog-Api-Key" = Some [c]
      else Header r' !! "X-Goog-Api-Key" = Header both3 !! "X-Goog-Api-Key")
  /\ (lists both3 <> [] -> Changed a' = true /\ Indexes a' <> None).
Proof.
  apply (forwarded_credentials both3 (served both3 started ∅).1.1 started
           (served both3 started ∅).1.2).
  apply (ServeHTTP_served both3 started ∅).
  - reflexivity.
  - intros pre tokens _. apply selectable_nonneg. vm_compute. discriminate.
  - intros _. apply selectable_nonneg. vm_compute. discriminate.
Defined.

Lemma single_candidate_always_served_witness :
  exists a',
    ServeHTTP single_key_request negative_state
    = Ret (set_header single_key_request "X-Goog-Api-Key" ("" +:+ "k1")) a'
    /\ Indexes a' = Some (<[URL_Path single_key_request := 0]> {["/" := -2]})
    /\ Changed a' = true.
Proof.
  apply (single_candidate_always_served single_key_request negative_state
           {["/" := -2]} "X-Goog-Api-Key" "" "k1"); reflexivity.
Defined.

Lemma run_in_sync_witness :
  in_sync (run example_run (started, empty_world)).1
    (run example_run (started, empty_world)).2
  /\ table_ok (Indexes (run example_run (started, empty_world)).1)
  /\ Indexes (run example_run (started, empty_world)).1 <> None.
Proof.
  apply (run_in_sync example_run started empty_world).
  - discriminate.
  - apply map_Forall_empty.
  - intros _. reflexivity.
  - repeat constructor.
Defined.

Lemma restart_restores_table_witness :
  let c := Cleanup WriteOk changed_state empty_world in
  Indexes (Provision (Some ErrFileSystem) configured_state c.1.2).1.1
  = Indexes changed_state
  /\ Indexes c.1.1 = Indexes changed_state
  /\ Changed c.1.1 = false.
Proof.
  apply (restart_restores_table changed_state configured_state empty_world
           (Some ErrFileSystem)).
  - apply map_Forall_singleton. split; [reflexivity|].
    unfold Int.is_int, Int.MinInt, Int.MaxInt. lia.
  - intros H. discriminate H.
  - reflexivity.
  - reflexivity.
Defined.

Lemma loadIndexes_merges_witness :
  Indexes (loadIndexes populated_state chat_world)
  = Some ({["/v1/chat" := 2]} ∪ {["/v1/chat" := 0; "/" := 1]})
  /\ (forall k v, ({["/v1/chat" := 2]} : gmap string Z) !! k = Some v ->
        entry_of (Indexes (loadIndexes populated_state chat_world)) k
        = Some v)
  /\ (forall k, ({["/v1/chat" := 2]} : gmap string Z) !! k = None ->
        entry_of (Indexes (loadIndexes populated_state chat_world)) k
        = ({["/v1/chat" := 0; "/" := 1]} : gmap string Z) !! k)
  /\ logger (loadIndexes populated_state chat_world) = logger populated_state.
Proof.
  apply (loadIndexes_merges populated_state chat_world {["/v1/chat" := 2]}
           {["/v1/chat" := 0; "/" := 1]} chat_snapshot).
  - apply map_Forall_singleton. split; [reflexivity|].
    unfold Int.is_int, Int.MinInt, Int.MaxInt. lia.
  - vm_compute. reflexivity.
  - reflexivity.
  - reflexivity.
Defined.

Lemma different_keys_commute_witness :
  same_result
    (ServeHTTP overflow_request (state_of (ServeHTTP bearer3 started)))
    (ServeHTTP overflow_request started)
  /\ same_result
       (ServeHTTP bearer3 (state_of (ServeHTTP overflow_request started)))
       (ServeHTTP bearer3 started)
  /\ Indexes (state_of (ServeHTTP overflow_request
                          (state_of (ServeHTTP bearer3 started))))
     = Indexes (state_of (ServeHTTP bearer3
                            (state_of (ServeHTTP overflow_request started))))
  /\ Indexes (state_of (ServeHTTP overflow_request
                          (state_of (ServeHTTP bearer3 started)))) <> None.
Proof.
  apply (different_keys_commute bearer3 overflow_request started);
    discriminate.
Defined.

Lemma trailing_comma_empty_credential_witness :
  Split ("k1,k2" +:+ ",") "," = Split "k1,k2" "," ++ [""]
  /\ exists r' a',
       ServeHTTP trailing_comma_request at_two = Ret r' a'
       /\ Header r' !! "X-Goog-Api-Key" = Some [""]
       /\ Changed a' = true.
Proof.
  apply (trailing_comma_empty_credential trailing_comma_request at_two
           {["/" := 2]} "k1,k2").
  - reflexivity.
  - reflexivity.
  - reflexivity.
  - vm_compute. discriminate.
  - vm_compute. reflexivity.
Defined.

Lemma written_snapshot_loads_witness :
  let b' :=
    loadIndexes fresh_state (saveIndexes WriteOk odd_state empty_world).2 in
  logger b' = logger fresh_state
  /\ exists m',
       Indexes b' = Some m'
       /\ (forall k v, odd_table !! k = Some v -> is_Some (m' !! coerced k))
       /\ (forall k v, odd_table !! k = Some v -> ValidString k = true ->
                       is_Some (m' !! k))
       /\ (forall k' v, m' !! k' = Some v ->
                        exists k, odd_table !! k = Some v /\ coerced k = k').
Proof.
  apply (written_snapshot_loads odd_state fresh_state empty_world odd_table).
  - apply map_Forall_singleton. unfold Int.is_int, Int.MinInt, Int.MaxInt. lia.
  - reflexivity.
  - reflexivity.
  - reflexivity.
  - reflexivity.
Defined.

Lemma bearer_padding_dropped_witness :
  hasBearerPrefix ("BEARER " +:+ "  " +:+ "k1, k2" +:+ " ") = true
  /\ bearerTokens ("BEARER " +:+ "  " +:+ "k1, k2" +:+ " ")
     = Split "k1, k2" ",".
Proof.
  apply (bearer_padding_dropped "BEARER " "  " "k1, k2" " " "1, k2" "k1, k"
           "k" "2"); reflexivity.
Defined.

Lemma later_header_lines_dropped_witness :
  ServeHTTP two_lines_request started
  = ServeHTTP (set_header two_lines_request "Authorization" "a,b") started.
Proof.
  apply (later_header_lines_dropped two_lines_request started "a,b" ["c"]).
  - reflexivity.
  - discriminate.
Defined.

Lemma every_candidate_once_witness :
  exists outs a1,
    serveAll [bearer3; bearer3; bearer3] changed_state = Ret outs a1
    /\ handed_on "Authorization" outs
       = (fun c => Some ["Bearer " +:+ c])
           <$> (drop 2 ["key1"; "key2"; "key3"]
                ++ take 2 ["key1"; "key2"; "key3"])
    /\ drop 2 ["key1"; "key2"; "key3"] ++ take 2 ["key1"; "key2"; "key3"]
       ≡ₚ ["key1"; "key2"; "key3"]
    /\ map_get (Indexes a1) "/v1/chat" = Z.of_nat 2.
Proof.
  apply (every_candidate_once "/v1/chat" "Authorization" "Bearer "
           ["key1"; "key2"; "key3"] [bearer3; bearer3; bearer3]
           changed_state {["/v1/chat" := 2]} 2).
  - reflexivity.
  - reflexivity.
  - cbn [length]. lia.
  - vm_compute. discriminate.
  - reflexivity.
  - repeat constructor.
Defined.

Lemma selected_credentials_are_logged_witness :
  let r' := (served both3 started ∅).1.1 in
  let a' := (served both3 started ∅).1.2 in
  logger a'
  = logger started
    ++ match authCandidates (Header_Get (Header both3) "Authorization") with
       | Some _ =>
           [debug "Set Authorization"
              (Header_Get (Header r') "Authorization")]
       | None => []
       end
    ++ (if 0 <? len (Header_Get (Header both3) "X-Goog-Api-Key")
        then [debug "Set X-Goog-Api-Key"
                (Header_Get (Header r') "X-Goog-Api-Key")]
        else []).
Proof.
  apply (selected_credentials_are_logged both3 (served both3 started ∅).1.1
           started (served both3 started ∅).1.2).
  apply (ServeHTTP_served both3 started ∅).
  - reflexivity.
  - intros pre tokens _. apply selectable_nonneg. vm_compute. discriminate.
  - intros _. apply selectable_nonneg. vm_compute. discriminate.
Defined.
